(** * Lobster VM core and AOT translator: a shallow embedding

    The definitions below follow [dev/src/vm.cpp] and [dev/src/tocpp.cpp]
    function by function.  Pointers into the stack and into the code stream
    are integer offsets from [stack] and [codestart]; an access outside the
    underlying buffer, which is undefined behaviour in C++, is the outcome
    [Undef]. *)

From Stdlib Require Import ZArith String Ascii List Lia.
From stdpp Require Import base list strings pretty gmap.

Open Scope Z_scope.

(* ================================================================== *)
(** ** Build configuration *)

(** The preprocessor switches the modelled functions depend on.
    [VMASSERT_ON] says whether the [VMASSERT] macro (declared outside
    vm.cpp) expands to a call of [VM::VMAssert]. *)
Record Build := {
  USE_EXCEPTION_HANDLING : bool;
  VM_USE_LONGJMP : bool;
  RTT_ENABLED : bool;
  VMASSERT_ON : bool
}.

(* ================================================================== *)
(** ** Values, type descriptors, bytecode image *)

Inductive ValueType :=
| V_VALUEBUF | V_STACKFRAMEBUF | V_STRUCT_R | V_RESOURCE | V_STRING
| V_CLASS | V_VECTOR | V_NIL | V_INT | V_FLOAT | V_FUNCTION
| V_STRUCT_S | V_ANY.

Global Instance ValueType_eq_dec : EqDecision ValueType.
Proof. solve_decision. Defined.

Definition IsStruct (t : ValueType) : bool :=
  match t with V_STRUCT_R | V_STRUCT_S => true | _ => false end.

(** A cell: the 8-byte payload and the run-time type tag next to it. *)
Record Value := mkValue { any : Z; type : ValueType }.

Global Instance Value_eq_dec : EqDecision Value.
Proof. solve_decision. Defined.

(** [Value()] *)
Definition nil_Value : Value := {| any := 0; type := V_NIL |}.

Record TypeInfo := {
  t : ValueType;
  structidx : Z;
  len : Z;
  elemtypes : list Z
}.

Record SpecIdent := { ididx : Z; typeidx : Z }.
Record Ident := { name : string; readonly : bool; global : bool }.

Record BytecodeFile := {
  bytecode : list Z;
  functions : list string;
  specidents : list SpecIdent;
  idents : list Ident;
  udts : list string;
  vtables : list Z;
  (** [GetTypeInfo], the overlay of the type table *)
  GetTypeInfo : Z -> TypeInfo
}.

Inductive TraceMode := OFF | ON | TAIL.

Global Instance TraceMode_eq_dec : EqDecision TraceMode.
Proof. solve_decision. Defined.

Record VMArgs := {
  static_bytecode : BytecodeFile;
  programname : string;
  program_args : list string;
  trace : TraceMode
}.

(* ================================================================== *)
(** ** VM state *)

Definition INITSTACKSIZE : Z := 32 * 1024.
Definition DEFMAXSTACKSIZE : Z := 512 * 1024.
Definition STACKMARGIN : Z := 8 * 1024.

(** [funstart] is an offset into the code, [None] for the null pointer of
    a value-initialised frame. *)
Record StackFrame := { funstart : option Z; spstart : Z }.

(** The steps of a function exit, in the order [FunOut] performs them. *)
Inductive ExitStep :=
| DecKeep (v : Value)
| DecOwned (varidx : Z) (v : Value)
| RestoreVar (varidx : Z) (v : Value)
| PopFrame
| MoveRets (nrv : Z).

(** Address of a [TupleSpace] object on the C++ heap. *)
Definition tsaddr := nat.

Record VM := mkVM {
  vmargs : VMArgs;
  bcf : BytecodeFile;
  stack : list Value;
  stacksize : Z;
  maxstacksize : Z;
  stackframes : list StackFrame;
  vars : list Value;
  errmsg : string;
  error_has_occured : bool;
  trace_output : list string;
  trace_ring_idx : nat;
  is_worker : bool;
  tuple_space : option tsaddr;
  workers : list nat;
  exit_steps : list ExitStep
}.

Definition set_stack (x : list Value) (vm : VM) : VM :=
  mkVM (vmargs vm) (bcf vm) x (stacksize vm) (maxstacksize vm)
    (stackframes vm) (vars vm) (errmsg vm) (error_has_occured vm)
    (trace_output vm) (trace_ring_idx vm) (is_worker vm) (tuple_space vm)
    (workers vm) (exit_steps vm).
Definition set_stacksize (x : Z) (vm : VM) : VM :=
  mkVM (vmargs vm) (bcf vm) (stack vm) x (maxstacksize vm)
    (stackframes vm) (vars vm) (errmsg vm) (error_has_occured vm)
    (trace_output vm) (trace_ring_idx vm) (is_worker vm) (tuple_space vm)
    (workers vm) (exit_steps vm).
Definition set_maxstacksize (x : Z) (vm : VM) : VM :=
  mkVM (vmargs vm) (bcf vm) (stack vm) (stacksize vm) x
    (stackframes vm) (vars vm) (errmsg vm) (error_has_occured vm)
    (trace_output vm) (trace_ring_idx vm) (is_worker vm) (tuple_space vm)
    (workers vm) (exit_steps vm).
Definition set_stackframes (x : list StackFrame) (vm : VM) : VM :=
  mkVM (vmargs vm) (bcf vm) (stack vm) (stacksize vm) (maxstacksize vm)
    x (vars vm) (errmsg vm) (error_has_occured vm)
    (trace_output vm) (trace_ring_idx vm) (is_worker vm) (tuple_space vm)
    (workers vm) (exit_steps vm).
Definition set_vars (x : list Value) (vm : VM) : VM :=
  mkVM (vmargs vm) (bcf vm) (stack vm) (stacksize vm) (maxstacksize vm)
    (stackframes vm) x (errmsg vm) (error_has_occured vm)
    (trace_output vm) (trace_ring_idx vm) (is_worker vm) (tuple_space vm)
    (workers vm) (exit_steps vm).
Definition set_errmsg (x : string) (vm : VM) : VM :=
  mkVM (vmargs vm) (bcf vm) (stack vm) (stacksize vm) (maxstacksize vm)
    (stackframes vm) (vars vm) x (error_has_occured vm)
    (trace_output vm) (trace_ring_idx vm) (is_worker vm) (tuple_space vm)
    (workers vm) (exit_steps vm).
Definition set_error_has_occured (x : bool) (vm : VM) : VM :=
  mkVM (vmargs vm) (bcf vm) (stack vm) (stacksize vm) (maxstacksize vm)
    (stackframes vm) (vars vm) (errmsg vm) x
    (trace_output vm) (trace_ring_idx vm) (is_worker vm) (tuple_space vm)
    (workers vm) (exit_steps vm).
Definition set_trace_output (x : list string) (vm : VM) : VM :=
  mkVM (vmargs vm) (bcf vm) (stack vm) (stacksize vm) (maxstacksize vm)
    (stackframes vm) (vars vm) (errmsg vm) (error_has_occured vm)
    x (trace_ring_idx vm) (is_worker vm) (tuple_space vm)
    (workers vm) (exit_steps vm).
Definition set_trace_ring_idx (x : nat) (vm : VM) : VM :=
  mkVM (vmargs vm) (bcf vm) (stack vm) (stacksize vm) (maxstacksize vm)
    (stackframes vm) (vars vm) (errmsg vm) (error_has_occured vm)
    (trace_output vm) x (is_worker vm) (tuple_space vm)
    (workers vm) (exit_steps vm).
Definition set_is_worker (x : bool) (vm : VM) : VM :=
  mkVM (vmargs vm) (bcf vm) (stack vm) (stacksize vm) (maxstacksize vm)
    (stackframes vm) (vars vm) (errmsg vm) (error_has_occured vm)
    (trace_output vm) (trace_ring_idx vm) x (tuple_space vm)
    (workers vm) (exit_steps vm).
Definition set_tuple_space (x : option tsaddr) (vm : VM) : VM :=
  mkVM (vmargs vm) (bcf vm) (stack vm) (stacksize vm) (maxstacksize vm)
    (stackframes vm) (vars vm) (errmsg vm) (error_has_occured vm)
    (trace_output vm) (trace_ring_idx vm) (is_worker vm) x
    (workers vm) (exit_steps vm).
Definition set_workers (x : list nat) (vm : VM) : VM :=
  mkVM (vmargs vm) (bcf vm) (stack vm) (stacksize vm) (maxstacksize vm)
    (stackframes vm) (vars vm) (errmsg vm) (error_has_occured vm)
    (trace_output vm) (trace_ring_idx vm) (is_worker vm) (tuple_space vm)
    x (exit_steps vm).
Definition set_exit_steps (x : list ExitStep) (vm : VM) : VM :=
  mkVM (vmargs vm) (bcf vm) (stack vm) (stacksize vm) (maxstacksize vm)
    (stackframes vm) (vars vm) (errmsg vm) (error_has_occured vm)
    (trace_output vm) (trace_ring_idx vm) (is_worker vm) (tuple_space vm)
    (workers vm) x.

(** [VM::VM], as run by [VMAllocator]: the stack is allocated here, with
    [INITSTACKSIZE] cells; the globals array that the allocator places
    behind the VM has one cell per specialised identifier, all bytes zero
    (payload 0, tag 0). *)
Definition VM_new (a : VMArgs) : VM :=
  {| vmargs := a;
     bcf := static_bytecode a;
     stack := replicate (Z.to_nat INITSTACKSIZE) nil_Value;
     stacksize := INITSTACKSIZE;
     maxstacksize := DEFMAXSTACKSIZE;
     stackframes := [];
     vars := replicate (length (specidents (static_bytecode a)))
               {| any := 0; type := V_INT |};
     errmsg := "";
     error_has_occured := false;
     trace_output := [];
     trace_ring_idx := 0%nat;
     is_worker := false;
     tuple_space := None;
     workers := [];
     exit_steps := [] |}.

(* ================================================================== *)
(** ** Outcomes and the VM monad *)

(** How control leaves the VM on an error. *)
Inductive escape :=
| Thrown (msg : string)
| LongJumped
| Aborted.

Inductive outcome (S A : Type) :=
| Ret (a : A) (s : S)
| Unwound (e : escape) (s : S)
| Undef.
Arguments Ret {S A} a s.
Arguments Unwound {S A} e s.
Arguments Undef {S A}.

(** Computations over a state [S]; [M] is the case of one VM. *)
Definition ST (S A : Type) : Type := S -> outcome S A.
Definition M (A : Type) : Type := ST VM A.

Definition ret {S A} (a : A) : ST S A := fun s => Ret a s.
Definition bind {S A B} (m : ST S A) (k : A -> ST S B) : ST S B :=
  fun s =>
    match m s with
    | Ret a s' => k a s'
    | Unwound e s' => Unwound e s'
    | Undef => Undef
    end.
Definition undef {S A} : ST S A := fun _ => Undef.
Definition gets {S A} (f : S -> A) : ST S A := fun s => Ret (f s) s.
Definition modify {S} (f : S -> S) : ST S unit := fun s => Ret tt (f s).
Definition lift_opt {S A} (o : option A) : ST S A :=
  match o with Some a => ret a | None => undef end.
Definition when {S} (b : bool) (m : ST S unit) : ST S unit :=
  if b then m else ret tt.

Notation "x <- m ;; k" := (bind m (fun x => k))
  (at level 90, m at level 80, right associativity).
Notation "m ;;; k" := (bind m (fun _ => k))
  (at level 90, right associativity).

(** Array access at an integer offset. *)
Definition zlookup {A} (l : list A) (i : Z) : option A :=
  if decide (0 <= i) then l !! Z.to_nat i else None.
Definition zstore {A} (l : list A) (i : Z) (a : A) : option (list A) :=
  if decide (0 <= i < Z.of_nat (length l))
  then Some (<[Z.to_nat i := a]> l) else None.

(** [vector::back], [push_back], [pop_back] *)
Definition back {A} (l : list A) : option A := last l.
Definition push_back {A} (l : list A) (a : A) : list A := l ++ [a].
Definition pop_back {A} (l : list A) : list A := removelast l.

Definition code_at (p : Z) : M Z :=
  fun vm => lift_opt (zlookup (bytecode (bcf vm)) p) vm.
Definition var_get (i : Z) : M Value :=
  fun vm => lift_opt (zlookup (vars vm) i) vm.
Definition var_set (i : Z) (v : Value) : M unit :=
  fun vm =>
    match zstore (vars vm) i v with
    | Some l => Ret tt (set_vars l vm)
    | None => Undef
    end.
Definition stack_get (j : Z) : M Value :=
  fun vm => lift_opt (zlookup (stack vm) j) vm.
Definition stack_set (j : Z) (v : Value) : M unit :=
  fun vm =>
    match zstore (stack vm) j v with
    | Some l => Ret tt (set_stack l vm)
    | None => Undef
    end.

(** [Push(sp, v)] is [*++sp = v]; [Pop(sp)] is [*sp--]. *)
Definition Push (sp : Z) (v : Value) : M Z :=
  stack_set (sp + 1) v ;;; ret (sp + 1).
Definition Pop (sp : Z) : M (Value * Z) :=
  v <- stack_get sp ;; ret (v, sp - 1).

Definition log_step (s : ExitStep) : M unit :=
  modify (fun vm => set_exit_steps (exit_steps vm ++ [s]) vm).

(** [t_memcpy(dst, src, n)]: the first [n] cells of [src] over [dst]. *)
Definition t_memcpy {A} (dst src : list A) (n : Z) : option (list A) :=
  if decide (0 <= n <= Z.of_nat (length src) /\ n <= Z.of_nat (length dst))
  then Some (take (Z.to_nat n) src ++ drop (Z.to_nat n) dst)
  else None.

(* ================================================================== *)
(** ** Error entry points, function entry and exit *)

Section Engine.

Variable cfg : Build.

(** [THROW_OR_ABORT] *)
Definition THROW_OR_ABORT {A} (msg : string) : M A :=
  fun vm =>
    if USE_EXCEPTION_HANDLING cfg then Unwound (Thrown msg) vm
    else Unwound Aborted vm.

(** [VM::UnwindOnError], the single place the VM unwinds from. *)
Definition UnwindOnError {A} : M A :=
  fun vm =>
    if VM_USE_LONGJMP cfg then Unwound LongJumped vm
    else THROW_OR_ABORT (errmsg vm) vm.

(** The ring in the order the two loops of [ErrorBase] read it: from
    [trace_ring_idx] to its end, then from its start. *)
Definition ring_entries (vm : VM) : list string :=
  drop (trace_ring_idx vm) (trace_output vm)
  ++ take (trace_ring_idx vm) (trace_output vm).

Definition ring_text (vm : VM) : string :=
  String.concat "" (ring_entries vm).

Definition ErrorBase (err : string) : M unit :=
  fun vm =>
    if error_has_occured vm then
      (modify (set_errmsg err) ;;; UnwindOnError) vm
    else
      let vm := set_error_has_occured true vm in
      if decide (trace (vmargs vm) = TAIL /\ trace_output vm <> []) then
        if decide (trace_ring_idx vm <= length (trace_output vm))%nat then
          (modify (set_errmsg (errmsg vm +:+ ring_text vm +:+ err)) ;;;
           UnwindOnError) vm
        else Undef
      else
        Ret tt (set_errmsg (errmsg vm +:+ "VM error: " +:+ err) vm).

Definition SeriousError (err : string) : M Value :=
  ErrorBase err ;;; UnwindOnError.

Definition VMAssert (what : string) : M unit :=
  SeriousError ("VM internal assertion failure: " +:+ what) ;;; ret tt.

(** [VMASSERT(vm, test)] *)
Definition VMASSERT (test : bool) (what : string) : M unit :=
  if VMASSERT_ON cfg then when (negb test) (VMAssert what) else ret tt.

(** The growth block of [FunIntro]. *)
Definition grow_stack (sp : Z) : M Z :=
  fun vm =>
    if decide (sp > stacksize vm - STACKMARGIN) then
      (when (bool_decide (stacksize vm >= maxstacksize vm))
         (SeriousError
            "stack overflow! (use set_max_stack_size() if needed)" ;;;
          ret tt) ;;;
       fun vm =>
         let newsize := stacksize vm * 2 in
         let nstack := replicate (Z.to_nat newsize) nil_Value in
         match t_memcpy nstack (stack vm) (sp + 1) with
         | Some l => Ret sp (set_stack l (set_stacksize newsize vm))
         | None => Undef
         end) vm
    else Ret sp vm.

(** [for (i = 0; i < nargs_fun; i++) swap(vars[ip[i]], *(sp - nargs_fun + i + 1))],
    with [n] iterations left. *)
Fixpoint swap_args (n : nat) (ip sp nargs_fun i : Z) : M unit :=
  match n with
  | O => ret tt
  | S n' =>
      varidx <- code_at (ip + i) ;;
      g <- var_get varidx ;;
      a <- stack_get (sp - nargs_fun + i + 1) ;;
      var_set varidx a ;;;
      stack_set (sp - nargs_fun + i + 1) g ;;;
      swap_args n' ip sp nargs_fun (i + 1)
  end.

(** The default-save loop, [n] iterations left; returns [ip] and [sp]. *)
Fixpoint backup_defs (n : nat) (ip sp : Z) : M (Z * Z) :=
  match n with
  | O => ret (ip, sp)
  | S n' =>
      varidx <- code_at ip ;;
      g <- var_get varidx ;;
      sp' <- Push sp g ;;
      var_set varidx nil_Value ;;;
      backup_defs n' (ip + 1) sp'
  end.

Fixpoint push_keeps (n : nat) (sp : Z) : M Z :=
  match n with
  | O => ret sp
  | S n' => sp' <- Push sp nil_Value ;; push_keeps n' sp'
  end.

Definition set_back_frame (f : StackFrame) : M unit :=
  fun vm =>
    match stackframes vm with
    | [] => Undef
    | _ => Ret tt (set_stackframes (push_back (pop_back (stackframes vm)) f) vm)
    end.

Definition FunIntro (sp ip : Z) : M Z :=
  modify (fun vm =>
    set_stackframes
      (push_back (stackframes vm) {| funstart := None; spstart := 0 |}) vm) ;;;
  let funstart_ := ip in
  let ip := ip + 1 in
  sp <- grow_stack sp ;;
  nargs_fun <- code_at ip ;;
  let ip := ip + 1 in
  swap_args (Z.to_nat nargs_fun) ip sp nargs_fun 0 ;;;
  let ip := ip + nargs_fun in
  ndef <- code_at ip ;;
  let ip := ip + 1 in
  r <- backup_defs (Z.to_nat ndef) ip sp ;;
  let ip := r.1 in
  let sp := r.2 in
  nkeepvars <- code_at ip ;;
  let ip := ip + 1 in
  sp <- push_keeps (Z.to_nat nkeepvars) sp ;;
  nownedvars <- code_at ip ;;
  set_back_frame {| funstart := Some funstart_; spstart := sp |} ;;;
  ret sp.

(** [for (i = 0; i < nkeepvars; i++) Pop(sp).LTDECRTNIL(vm)] *)
Fixpoint dec_keeps (n : nat) (sp : Z) : M Z :=
  match n with
  | O => ret sp
  | S n' =>
      r <- Pop sp ;;
      log_step (DecKeep r.1) ;;;
      dec_keeps n' r.2
  end.

(** [for (i = 0; i < ownedvars; i++) vars[*fip++].LTDECRTNIL(vm)] *)
Fixpoint dec_owned (n : nat) (fip : Z) : M unit :=
  match n with
  | O => ret tt
  | S n' =>
      varidx <- code_at fip ;;
      v <- var_get varidx ;;
      log_step (DecOwned varidx v) ;;;
      dec_owned n' (fip + 1)
  end.

(** [while (n--) { auto i = *--p; vars[i] = Pop(sp); }], [n] iterations
    left. *)
Fixpoint pop_vars (n : nat) (p sp : Z) : M Z :=
  match n with
  | O => ret sp
  | S n' =>
      i <- code_at (p - 1) ;;
      r <- Pop sp ;;
      var_set i r.1 ;;;
      log_step (RestoreVar i r.1) ;;;
      pop_vars n' (p - 1) r.2
  end.

(** A count below zero never reaches zero by decrements within the
    header: the loop runs off the code. *)
Definition while_dec (n : Z) (body : nat -> M Z) : M Z :=
  if decide (0 <= n) then body (Z.to_nat n) else undef.

(** [ts_memcpy(dst, src, n)] on the stack itself, cell by cell. *)
Fixpoint ts_memcpy (n : nat) (dst src : Z) : M unit :=
  match n with
  | O => ret tt
  | S n' =>
      v <- stack_get src ;;
      stack_set dst v ;;;
      ts_memcpy n' (dst + 1) (src + 1)
  end.

Definition FunOut (sp nrv : Z) : M Z :=
  let sp := sp - nrv in
  let rets := sp + 1 in
  stf <- (fun vm => lift_opt (back (stackframes vm)) vm) ;;
  let depth := sp in
  VMASSERT (bool_decide (depth = spstart stf)) "false" ;;;
  fip <- lift_opt (funstart stf) ;;
  let fip := fip + 1 in
  nargs <- code_at fip ;;
  let fip := fip + 1 in
  let freevars := fip + nargs in
  let fip := fip + nargs in
  ndef <- code_at fip ;;
  let fip := fip + 1 in
  let fip := fip + ndef in
  let defvars := fip in
  nkeepvars <- code_at fip ;;
  let fip := fip + 1 in
  sp <- dec_keeps (Z.to_nat nkeepvars) sp ;;
  ownedvars <- code_at fip ;;
  let fip := fip + 1 in
  dec_owned (Z.to_nat ownedvars) fip ;;;
  sp <- while_dec ndef (fun n => pop_vars n defvars sp) ;;
  sp <- while_dec nargs (fun n => pop_vars n freevars sp) ;;
  modify (fun vm => set_stackframes (pop_back (stackframes vm)) vm) ;;;
  log_step PopFrame ;;;
  ts_memcpy (Z.to_nat nrv) (sp + 1) rets ;;;
  log_step (MoveRets nrv) ;;;
  ret (sp + nrv).

End Engine.

(* ================================================================== *)
(** ** Function headers *)

(** The words [FunIntro], [FunOut] and [Error] read at [funstart]:
    [definedfunction, nargs, arg_var_idx[nargs], ndef, def_var_idx[ndef],
     nkeepvars, nownedvars, owned_var_idx[nownedvars]]. *)
Record FunHeader := {
  h_fid : Z;
  h_args : list Z;
  h_defs : list Z;
  h_nkeep : Z;
  h_owned : list Z
}.

Definition encode_header (h : FunHeader) : list Z :=
  [h_fid h; Z.of_nat (length (h_args h))] ++ h_args h ++
  [Z.of_nat (length (h_defs h))] ++ h_defs h ++
  [h_nkeep h; Z.of_nat (length (h_owned h))] ++ h_owned h.

(** The code holds the header [h] at offset [ip]. *)
Definition header_at (code : list Z) (ip : Z) (h : FunHeader) : Prop :=
  exists pre post,
    code = pre ++ encode_header h ++ post /\ ip = Z.of_nat (length pre).

(** Variable [l_k] paired with stack slot [s + k]. *)
Fixpoint pair_slots (l : list Z) (s : Z) : list (Z * Z) :=
  match l with
  | [] => []
  | v :: l' => (v, s) :: pair_slots l' (s + 1)
  end.

(** Globals and stack, the two arrays that entry and exit move cells
    between. *)
Definition cells : Type := list Value * list Value.

(** One save: the old value of global [v] ends up in slot [s]; no other
    global and no other slot changes. *)
Definition save_step (v s : Z) (c c' : cells) : Prop :=
  is_Some (zlookup c.1 v) /\
  zlookup c'.2 s = zlookup c.1 v /\
  (forall u, u <> v -> zlookup c'.1 u = zlookup c.1 u) /\
  (forall r, r <> s -> zlookup c'.2 r = zlookup c.2 r) /\
  length c'.2 = length c.2.

Inductive saved : list (Z * Z) -> cells -> cells -> Prop :=
| saved_nil c : saved [] c c
| saved_cons v s l c c' c'' :
    save_step v s c c' -> saved l c' c'' -> saved ((v, s) :: l) c c''.

(** [vars[v] = stack[s]] for each pair, in list order. *)
Fixpoint restore (l : list (Z * Z)) (S V : list Value) : option (list Value) :=
  match l with
  | [] => Some V
  | (v, s) :: l' =>
      match zlookup S s with
      | Some x =>
          match zstore V v x with
          | Some V' => restore l' S V'
          | None => None
          end
      | None => None
      end
  end.

(** The cell a successful access reads. *)
Definition cell (l : list Value) (i : Z) : Value :=
  default nil_Value (zlookup l i).

(** The [n] cells from [sp] downwards, top first. *)
Fixpoint cells_down (S : list Value) (sp : Z) (n : nat) : list Value :=
  match n with
  | O => []
  | Datatypes.S n' => cell S sp :: cells_down S (sp - 1) n'
  end.

(** [RestoreVar] for each global of [l], last first, from the slots
    [s], [s + 1], ... the list was saved to. *)
Definition restores (l : list Z) (s : Z) (S : list Value) : list ExitStep :=
  (fun p => RestoreVar p.1 (cell S p.2)) <$> rev (pair_slots l s).

(** What a function exit does, step by step, for header [h], the globals
    [V] and stack [S] at the exit, frame depth [sp] and [nrv] values
    returned: the keep slots are on top, the saved defs below them, the
    saved args below those. *)
Definition exit_order (h : FunHeader) (V S : list Value) (sp nrv : Z)
  : list ExitStep :=
  let nk := Z.of_nat (Z.to_nat (h_nkeep h)) in
  let nd := Z.of_nat (length (h_defs h)) in
  let na := Z.of_nat (length (h_args h)) in
  (DecKeep <$> cells_down S sp (Z.to_nat (h_nkeep h))) ++
  ((fun i => DecOwned i (cell V i)) <$> h_owned h) ++
  restores (h_defs h) (sp - nk - nd + 1) S ++
  restores (h_args h) (sp - nk - nd - na + 1) S ++
  [PopFrame; MoveRets nrv].

(** After [ErrorBase] the message ends with the error text, and nothing
    but the error state has changed. *)
Definition error_state_only (err : string) (vm vm' : VM) : Prop :=
  (exists pre, errmsg vm' = pre +:+ err) /\
  error_has_occured vm' = true /\
  exists m b, vm' = set_errmsg m (set_error_has_occured b vm).

(** The claim that entry refuses to grow the stack whenever the doubled
    size would pass the maximum. *)
Definition overflow_when_doubling_exceeds (cfg : Build) : Prop :=
  forall sp ip vm,
    sp > stacksize vm - STACKMARGIN ->
    stacksize vm * 2 > maxstacksize vm ->
    forall sp' vm', FunIntro cfg sp ip vm <> Ret sp' vm'.

(* ================================================================== *)
(** ** A small program image and VM states, for concrete runs *)

Definition ex_cfg : Build :=
  {| USE_EXCEPTION_HANDLING := true; VM_USE_LONGJMP := false;
     RTT_ENABLED := false; VMASSERT_ON := true |}.

(** A function with args in globals 1 and 2, a default-saved global 3,
    one keep slot, and global 1 owned. *)
Definition ex_header : FunHeader :=
  {| h_fid := 0; h_args := [1; 2]; h_defs := [3]; h_nkeep := 1;
     h_owned := [1] |}.

Definition ex_image : BytecodeFile :=
  {| bytecode := [11; 12; 13] ++ encode_header ex_header ++ [99];
     functions := ["f"];
     specidents := replicate 5 {| ididx := 0; typeidx := 0 |};
     idents := [{| name := "x"; readonly := false; global := false |}];
     udts := ["P"; "Q"];
     vtables := [3; -1; 3];
     GetTypeInfo := fun _ =>
       {| t := V_INT; structidx := 0; len := 0; elemtypes := [] |} |}.

Definition ex_args : VMArgs :=
  {| static_bytecode := ex_image; programname := "ex";
     program_args := ["a"]; trace := OFF |}.

Definition int_Value (n : Z) : Value := {| any := n; type := V_INT |}.

(** The caller has pushed the two arguments 100 and 101; the globals
    hold 10 .. 14. *)
Definition ex_vm0 : VM :=
  set_vars (int_Value <$> [10; 11; 12; 13; 14])
    (set_stack (<[0%nat := int_Value 100]>
                  (<[1%nat := int_Value 101]> (stack (VM_new ex_args))))
       (VM_new ex_args)).

Definition final_state {A} (o : outcome VM A) (d : VM) : VM :=
  match o with Ret _ s => s | Unwound _ s => s | Undef => d end.

(** After entry at [sp = 1]. *)
Definition ex_vm1 : VM := final_state (FunIntro ex_cfg 1 3 ex_vm0) ex_vm0.

(** The body has assigned its locals and keep slot and pushed one return
    value. *)
Definition ex_vm2 : VM :=
  set_vars (int_Value <$> [10; 7; 8; 9; 14])
    (set_stack (<[4%nat := int_Value 55]>
                  (<[3%nat := int_Value 44]> (stack ex_vm1))) ex_vm1).

(** After exit with one return value, from [sp = 4]. *)
Definition ex_vm3 : VM := final_state (FunOut ex_cfg 4 1 ex_vm2) ex_vm2.

(** A VM whose maximum was set to 3 MB of 8-byte cells and whose stack
    has doubled three times. *)
Definition ex_vm_3mb : VM :=
  set_maxstacksize (384 * 1024)
    (set_stacksize (256 * 1024)
       (set_stack (replicate (Z.to_nat (256 * 1024)) nil_Value) ex_vm0)).

(** A VM at the default maximum. *)
Definition ex_vm_full : VM :=
  set_stacksize (512 * 1024)
    (set_stack (replicate (Z.to_nat (512 * 1024)) nil_Value) ex_vm0).

Definition returned {A} (o : outcome VM A) : option A :=
  match o with Ret a _ => Some a | _ => None end.

(* ================================================================== *)
(** ** Trace ring *)

(** The line feed character. *)
Definition nl : string := String "010"%char "".

(** [VM::TraceStream]; the reference it returns is the slot index. *)
Definition TraceStream : M nat :=
  fun vm =>
    let trace_size :=
      if decide (trace (vmargs vm) = TAIL) then 50%nat else 1%nat in
    let out :=
      if decide (length (trace_output vm) < trace_size)%nat
      then resize trace_size "" (trace_output vm)
      else trace_output vm in
    let idx :=
      if decide (trace_ring_idx vm = trace_size) then 0%nat
      else trace_ring_idx vm in
    if decide (idx < length out)%nat then
      Ret idx (set_trace_ring_idx (S idx)
                 (set_trace_output (<[idx := ""]> out) vm))
    else Undef.

(** [sd += text] through the reference [TraceStream] returned. *)
Definition append_slot (slot : nat) (text : string) : M unit :=
  fun vm =>
    match trace_output vm !! slot with
    | Some sd =>
        Ret tt (set_trace_output (<[slot := sd +:+ text]> (trace_output vm)) vm)
    | None => Undef
    end.

Section Trace.

Variable cfg : Build.
(** [Value::ToStringBase], declared outside vm.cpp. *)
Variable ToStringBase : Value -> string.

(** The text [CVM_Trace] adds under [RTT_ENABLED]. *)
Definition rtt_text (sp : Z) : M string :=
  if RTT_ENABLED cfg then
    if decide (sp >= 0) then
      top <- stack_get sp ;;
      let sd := " - " +:+ ToStringBase top in
      if decide (sp > 0) then
        top1 <- stack_get (sp - 1) ;;
        ret (sd +:+ " - " +:+ ToStringBase top1)
      else ret sd
    else ret ""
  else ret "".

Definition CVM_Trace (sp : Z) (op : string) : M unit :=
  slot <- TraceStream ;;
  append_slot slot op ;;;
  r <- rtt_text sp ;;
  append_slot slot r ;;;
  tail <- gets (fun vm => bool_decide (trace (vmargs vm) = TAIL)) ;;
  if tail then append_slot slot nl else ret tt.

End Trace.

(** A run of trace calls, each writing its text into the slot it got. *)
Fixpoint trace_calls (texts : list string) : M unit :=
  match texts with
  | [] => ret tt
  | x :: rest =>
      slot <- TraceStream ;;
      append_slot slot x ;;;
      trace_calls rest
  end.

Definition ex_tail_args : VMArgs :=
  {| static_bytecode := ex_image; programname := "ex";
     program_args := []; trace := TAIL |}.
Definition ex_on_args : VMArgs :=
  {| static_bytecode := ex_image; programname := "ex";
     program_args := []; trace := ON |}.

(* ================================================================== *)
(** ** AOT translator: the vtable array *)


(** The lines of [ToCPP] that emit the vtable array onto [sd]. *)
Definition emit_vtables (cpp : bool) (bcf : BytecodeFile) (sd : string)
  : string :=
  let sd := if cpp then sd +:+ nl +:+ "static" else sd +:+ nl +:+ "extern " in
  let sd := sd +:+ " const fun_base_t vtables[] = {" +:+ nl in
  let sd :=
    foldl (fun sd id =>
             let sd := sd +:+ "    " in
             let sd := if decide (id >= 0) then sd +:+ "fun_" +:+ pretty id
                       else sd +:+ "0" in
             sd +:+ "," +:+ nl)
      sd (vtables bcf) in
  sd +:+ "    0" +:+ nl +:+ "};" +:+ nl.


(** The size [TraceStream] gives the ring. *)
Definition trace_size (vm : VM) : nat :=
  if decide (trace (vmargs vm) = TAIL) then 50%nat else 1%nat.

(** The ring after the texts [hist] were traced: untouched, or full-size
    with the index inside it and, read from the index on, the last
    [trace_size] texts (behind the empty strings of the resize). *)
Definition ring_inv (hist : list string) (vm : VM) : Prop :=
  (trace_output vm = [] /\ trace_ring_idx vm = 0%nat /\ hist = []) \/
  (length (trace_output vm) = trace_size vm /\
   (1 <= trace_ring_idx vm <= trace_size vm)%nat /\
   ring_entries vm
   = drop (length hist) (replicate (trace_size vm) "" ++ hist)).

(** Fifty-two trace texts, "0" .. "51". *)
Definition ex_texts : list string := (fun n : nat => pretty n) <$> seq 0 52.


(* ================================================================== *)
(** ** The error path *)

(** What a printing helper called while a trace is built does: it appends
    text, or raises an error of its own with a message. *)
Inductive PrintRes :=
| Printed (text : string)
| Raises (err : string).

Section ErrorPath.

Variable cfg : Build.

(** Helpers declared outside vm.cpp. *)
Variable to_string_hex : Z -> string.
Variable pointer_is_in_allocator : Z -> bool.
Variable RefToString : Z -> PrintRes.
Variable ToString : Value -> TypeInfo -> PrintRes.
Variable StructToString : TypeInfo -> list Value -> PrintRes.

Definition append_errmsg (text : string) : M unit :=
  modify (fun vm => set_errmsg (errmsg vm +:+ text) vm).

(** A helper writing into [errmsg]: its text is appended, or its error
    enters [ErrorBase] again. (Whether the helper raises through [Error]
    or [SeriousError] makes no difference once an error is in flight:
    [ErrorBase] then unwinds at once.) *)
Definition print (r : PrintRes) : M unit :=
  match r with
  | Printed text => append_errmsg text
  | Raises err => SeriousError cfg err ;;; ret tt
  end.

(** [VM::DumpVar(errmsg, vars[idx], idx)] *)
Definition DumpVar (idx : Z) : M Z :=
  bc <- gets bcf ;;
  sid <- lift_opt (zlookup (specidents bc) idx) ;;
  id <- lift_opt (zlookup (idents bc) (ididx sid)) ;;
  if readonly id && global id then ret 1
  else
    let ti := GetTypeInfo bc (typeidx sid) in
    x <- var_get idx ;;
    if RTT_ENABLED cfg && negb (bool_decide (t ti = type x)) then ret 1
    else
      append_errmsg (nl +:+ "   " +:+ name id +:+ " = ") ;;;
      if IsStruct (t ti) then
        V <- gets vars ;;
        print (StructToString ti
                 (take (Z.to_nat (len ti)) (drop (Z.to_nat idx) V))) ;;;
        ret (len ti)
      else
        print (ToString x ti) ;;;
        ret 1.

(** [for (int j = 0; j < n; ) { auto i = *(p - j - 1); j += DumpVar(..); }];
    a step that does not advance [j] never ends. *)
Fixpoint dump_vars (fuel : nat) (j n p : Z) : M unit :=
  match fuel with
  | O => ret tt
  | S fuel' =>
      if decide (j < n) then
        i <- code_at (p - j - 1) ;;
        r <- DumpVar i ;;
        if decide (r <= 0) then undef
        else dump_vars fuel' (j + r) n p
      else ret tt
  end.

(** The first loop of [Error]: the cells above the current frame. *)
Fixpoint dump_stack (fuel : nat) (sp : Z) : M Z :=
  match fuel with
  | O => ret sp
  | S fuel' =>
      frames <- gets stackframes ;;
      let above :=
        match back frames with
        | None => true
        | Some f => negb (bool_decide (sp = spstart f))
        end in
      if bool_decide (sp >= 0) && above then
        top <- stack_get sp ;;
        append_errmsg (nl +:+ "   stack: " +:+ to_string_hex (any top)) ;;;
        (if pointer_is_in_allocator (any top) then
           append_errmsg ", maybe: " ;;;
           print (RefToString (any top))
         else ret tt) ;;;
        dump_stack fuel' (sp - 1)
      else ret sp
  end.

(** [while (n--) { auto i = *--p; vars[i] = Pop(sp); }] as [Error] has it. *)
Fixpoint unwind_vars (n : nat) (p sp : Z) : M Z :=
  match n with
  | O => ret sp
  | S n' =>
      i <- code_at (p - 1) ;;
      r <- Pop sp ;;
      var_set i r.1 ;;;
      unwind_vars n' (p - 1) r.2
  end.

(** The second loop of [Error], one frame per round. *)
Fixpoint unwind_frames (fuel : nat) (sp : Z) : M unit :=
  match fuel with
  | O => ret tt
  | S fuel' =>
      frames <- gets stackframes ;;
      match back frames with
      | None => ret tt
      | Some stf =>
          fs <- lift_opt (funstart stf) ;;
          deffun <- code_at fs ;;
          bc <- gets bcf ;;
          (if decide (deffun >= 0) then
             nm <- lift_opt (zlookup (functions bc) deffun) ;;
             append_errmsg (nl +:+ "in function: " +:+ nm)
           else append_errmsg (nl +:+ "in block")) ;;;
          let fip := fs + 1 in
          nargs <- code_at fip ;;
          let fip := fip + 1 in
          let freevars := fip + nargs in
          let fip := fip + nargs in
          ndef <- code_at fip ;;
          let fip := fip + 1 in
          let fip := fip + ndef in
          let defvars := fip in
          nkeepvars <- code_at fip ;;
          let fip := fip + 1 in
          size <- gets (fun vm => String.length (errmsg vm)) ;;
          (if decide (Z.of_nat size < 10000) then
             dump_vars (Z.to_nat ndef) 0 ndef defvars ;;;
             dump_vars (Z.to_nat nargs) 0 nargs freevars
           else ret tt) ;;;
          let sp := sp - nkeepvars in
          sp <- while_dec ndef (fun n => unwind_vars n defvars sp) ;;
          sp <- while_dec nargs (fun n => unwind_vars n freevars sp) ;;
          modify (fun vm => set_stackframes (pop_back (stackframes vm)) vm) ;;;
          frames <- gets stackframes ;;
          let sp := match back frames with
                    | Some f => spstart f
                    | None => -1
                    end in
          unwind_frames fuel' sp
      end
  end.

(** [try { .. } catch (string &s) { .. }] *)
Definition try_catch {A} (body : M A) (handler : string -> M A) : M A :=
  fun vm =>
    match body vm with
    | Unwound (Thrown s) vm' =>
        if USE_EXCEPTION_HANDLING cfg then handler s vm'
        else Unwound (Thrown s) vm'
    | o => o
    end.

(** [VM::Error] *)
Definition Error (sp : Z) (err : string) : M Value :=
  ErrorBase cfg err ;;;
  try_catch
    (sp <- dump_stack (Z.to_nat (sp + 1)) sp ;;
     frames <- gets stackframes ;;
     unwind_frames (length frames) sp)
    (fun s => append_errmsg (nl +:+ "RECURSIVE ERROR:" +:+ nl +:+ s)) ;;;
  UnwindOnError cfg.

(** [VM::IDXErr] *)
Definition IDXErr (sp i n : Z) (v : Z) : M unit :=
  let sd := "index " +:+ pretty i +:+ " out of range " +:+ pretty n
            +:+ " of: " in
  match RefToString v with
  | Printed text => Error sp (sd +:+ text) ;;; ret tt
  | Raises err => SeriousError cfg err ;;; ret tt
  end.

End ErrorPath.


(** A computation that only appends to [errmsg] and never unwinds. *)
Definition appends {A} (m : M A) : Prop :=
  forall vm,
    match m vm with
    | Ret _ vm' => exists d, vm' = set_errmsg (errmsg vm +:+ d) vm
    | Unwound _ _ => False
    | Undef => True
    end.

(** Printing helpers that never raise. *)
Definition never_raises {A} (f : A -> PrintRes) : Prop :=
  forall a, exists text, f a = Printed text.
Definition never_raises2 {A B} (f : A -> B -> PrintRes) : Prop :=
  forall a b, exists text, f a b = Printed text.


(** Concrete helpers: hexadecimal shown as decimal, nothing taken for a
    heap pointer, a vector printed as "[1, 2, 3]", cells printed by their
    payload; and a cell printer that fails. *)
Definition ex_hex (z : Z) : string := pretty z.
Definition ex_in_alloc (z : Z) : bool := false.
Definition ex_RefToString (v : Z) : PrintRes := Printed "[1, 2, 3]".
Definition ex_ToString (x : Value) (ti : TypeInfo) : PrintRes :=
  Printed (pretty (any x)).
Definition ex_StructToString (ti : TypeInfo) (xs : list Value) : PrintRes :=
  Printed "{}".
Definition ex_ToString_failing (x : Value) (ti : TypeInfo) : PrintRes :=
  Raises "boom".

(** The VM of the running example inside the function, in TAIL trace mode
    with one traced instruction. *)
Definition ex_vm_traced : VM :=
  set_trace_ring_idx 1%nat
    (set_trace_output (("PUSHINT(1)" +:+ nl) :: replicate 49%nat "")
       (mkVM ex_tail_args (bcf ex_vm1) (stack ex_vm1) (stacksize ex_vm1)
          (maxstacksize ex_vm1) (stackframes ex_vm1) (vars ex_vm1)
          (errmsg ex_vm1) (error_has_occured ex_vm1) (trace_output ex_vm1)
          (trace_ring_idx ex_vm1) (is_worker ex_vm1) (tuple_space ex_vm1)
          (workers ex_vm1) (exit_steps ex_vm1))).

(** A computation that never unwinds. *)
Definition no_unwind {A} (m : M A) : Prop :=
  forall vm e vm', m vm <> Unwound e vm'.


(* ================================================================== *)
(** ** Workers and the tuple space *)

(** A queue of cell buffers per class; the mutex and the condition
    variable guarding it carry no data. *)
Record TupleType := { tuples : list (list Value) }.
Record TupleSpace := { tupletypes : list TupleType; alive : bool }.

(** Modelled from the spec: the [TupleSpace] constructor, declared
    outside vm.cpp, makes one empty queue per user-defined type; the
    space is alive until [TerminateWorkers] clears the flag. *)
Definition TupleSpace_new (numstructs : nat) : TupleSpace :=
  {| tupletypes := replicate numstructs {| tuples := [] |}; alive := true |}.

(** What a worker thread runs. *)
Inductive ThreadBody := RunEvalProgram.
Record Thread := { thr_vm : VM; thr_body : ThreadBody }.

(** The memory VMs share: tuple spaces by address, and the threads. *)
Record Process := {
  spaces : gmap tsaddr TupleSpace;
  threads : list Thread
}.

Definition World : Type := VM * Process.
Definition W (A : Type) : Type := ST World A.

Definition liftVM {A} (m : M A) : W A :=
  fun w =>
    match m w.1 with
    | Ret a vm' => Ret a (vm', w.2)
    | Unwound e vm' => Unwound e (vm', w.2)
    | Undef => Undef
    end.

(** A heap object: its type index and, for an [LObject], its cells. *)
Record RefObj := { tti : Z; elems : list Value }.

(** What a [WorkerRead] that has not returned is doing, or what it
    returned. *)
Inductive ReadResult :=
| Waiting
| Returned (o : option RefObj).

Section Workers.

Variable cfg : Build.
Variable to_string_hex : Z -> string.
Variable pointer_is_in_allocator : Z -> bool.
Variable RefToString : Z -> PrintRes.
Variable ToString : Value -> TypeInfo -> PrintRes.
Variable StructToString : TypeInfo -> list Value -> PrintRes.
(** [IsRefNil], declared outside vm.cpp. *)
Variable IsRefNil : ValueType -> bool.

(** [Error(sp, msg)] as a statement: control does not come back. *)
Definition raise_error {A} (sp : Z) (msg : string) : W A :=
  liftVM (Error cfg to_string_hex pointer_is_in_allocator RefToString
            ToString StructToString sp msg ;;; undef).

(** [new TupleSpace(n)] at an address not in use. *)
Definition new_TupleSpace (n : nat) : W tsaddr :=
  fun w =>
    let a := fresh (dom (spaces w.2)) in
    Ret a (w.1, {| spaces := <[a := TupleSpace_new n]> (spaces w.2);
                   threads := threads w.2 |}).

(** The VM a worker thread owns: a new VM on a copy of the parent's
    arguments with the program arguments dropped and tracing off. *)
Definition worker_vm (parent : VM) (a : tsaddr) : VM :=
  set_tuple_space (Some a)
    (set_is_worker true
       (VM_new {| static_bytecode := static_bytecode (vmargs parent);
                  programname := programname (vmargs parent);
                  program_args := [];
                  trace := OFF |})).

(** The loop of [StartWorkers], [n] rounds left. *)
Fixpoint spawn_workers (n : nat) (a : tsaddr) : W unit :=
  match n with
  | O => ret tt
  | S n' =>
      (fun w =>
         let th := {| thr_vm := worker_vm w.1 a;
                      thr_body := RunEvalProgram |} in
         Ret tt (set_workers (workers w.1 ++ [length (threads w.2)]) w.1,
                 {| spaces := spaces w.2;
                    threads := threads w.2 ++ [th] |})) ;;;
      spawn_workers n' a
  end.

(** [VM::StartWorkers] *)
Definition StartWorkers (sp numthreads : Z) : W unit :=
  fun w =>
    ((if is_worker w.1
      then raise_error sp "workers can't start more worker threads"
      else ret tt) ;;;
     (match tuple_space w.1 with
      | Some _ => raise_error sp "workers already running"
      | None => ret tt
      end) ;;;
     let numthreads := Z.min numthreads 256 in
     a <- new_TupleSpace (length (udts (bcf w.1))) ;;
     modify (fun w => (set_tuple_space (Some a) w.1, w.2)) ;;;
     spawn_workers (Z.to_nat numthreads) a) w.

(** The copy loop of [WorkerWrite], [n] fields left. *)
Fixpoint copy_fields (n : nat) (sp i : Z) (bc : BytecodeFile)
    (ti : TypeInfo) (st : RefObj) (buf : list Value) : W (list Value) :=
  match n with
  | O => ret buf
  | S n' =>
      et <- lift_opt (zlookup (elemtypes ti) i) ;;
      (if IsRefNil (t (GetTypeInfo bc et))
       then raise_error sp
              "thread write: only scalar class members supported for now"
       else ret tt) ;;;
      v <- lift_opt (zlookup (elems st) i) ;;
      copy_fields n' sp (i + 1) bc ti st (buf ++ [v])
  end.

Definition set_queue (a : tsaddr) (ts : TupleSpace) (idx : Z)
    (q : list (list Value)) (p : Process) : option Process :=
  match zstore (tupletypes ts) idx {| tuples := q |} with
  | Some tts =>
      Some {| spaces := <[a := {| tupletypes := tts; alive := alive ts |}]>
                          (spaces p);
              threads := threads p |}
  | None => None
  end.

(** [VM::WorkerWrite] *)
Definition WorkerWrite (sp : Z) (ref : option RefObj) : W unit :=
  fun w =>
    match tuple_space w.1 with
    | None => Ret tt w
    | Some a =>
        ((match ref with
          | None => raise_error sp "thread write: nil reference"
          | Some _ => ret tt
          end) ;;;
         st <- lift_opt ref ;;
         let ti := GetTypeInfo (bcf w.1) (tti st) in
         (if bool_decide (t ti = V_CLASS) then ret tt
          else raise_error sp "thread write: must be a class") ;;;
         buf <- copy_fields (Z.to_nat (len ti)) sp 0 (bcf w.1) ti st [] ;;
         fun w =>
           match spaces w.2 !! a with
           | Some ts =>
               match zlookup (tupletypes ts) (structidx ti) with
               | Some q =>
                   match set_queue a ts (structidx ti) (tuples q ++ [buf])
                           w.2 with
                   | Some p' => Ret tt (w.1, p')
                   | None => Undef
                   end
               | None => Undef
               end
           | None => Undef
           end) w
    end.

(** [VM::WorkerRead]. The wait on the condition variable is one step
    under the queue's lock: while its predicate is false the call stays
    [Waiting] and changes nothing. *)
Definition WorkerRead (sp : Z) (tti_ : Z) : W ReadResult :=
  fun w =>
    let ti := GetTypeInfo (bcf w.1) tti_ in
    ((if bool_decide (t ti = V_CLASS) then ret tt
      else raise_error sp "thread read: must be a class type") ;;;
     a <- lift_opt (tuple_space w.1) ;;
     ts <- lift_opt (spaces w.2 !! a) ;;
     q <- lift_opt (zlookup (tupletypes ts) (structidx ti)) ;;
     if alive ts && bool_decide (tuples q = []) then ret Waiting
     else
       match tuples q with
       | buf :: rest =>
           p' <- lift_opt (set_queue a ts (structidx ti) rest w.2) ;;
           modify (fun w => (w.1, p')) ;;;
           if decide (len ti <= Z.of_nat (length buf)) then
             ret (Returned
                    (Some {| tti := tti_;
                             elems := take (Z.to_nat (len ti)) buf |}))
           else undef
       | [] => ret (Returned None)
       end) w.

End Workers.

(* ================================================================== *)
(** ** The trace-building steps of [Error], whatever the helpers do *)

Section ErrorTracking.

Variable cfg : Build.
Variable RefToString : Z -> PrintRes.
Variable ToString : Value -> TypeInfo -> PrintRes.
Variable StructToString : TypeInfo -> list Value -> PrintRes.

(** The texts the printing helpers can raise. *)
Definition raised (s : string) : Prop :=
  (exists v, RefToString v = Raises s) \/
  (exists x ti, ToString x ti = Raises s) \/
  (exists ti xs, StructToString ti xs = Raises s).

(** The way [UnwindOnError] leaves from a state, by the build flags. *)
Definition exit_kind (vm : VM) : escape :=
  if VM_USE_LONGJMP cfg then LongJumped
  else if USE_EXCEPTION_HANDLING cfg then Thrown (errmsg vm)
       else Aborted.

(** What a returning step of the trace loops may change: the message
    grows at its end, the globals keep their number. *)
Definition trace_rel (vm vm' : VM) : Prop :=
  error_has_occured vm' = true /\
  (exists d, errmsg vm' = errmsg vm +:+ d) /\
  bcf vm' = bcf vm /\ stack vm' = stack vm /\
  stackframes vm' = stackframes vm /\
  length (vars vm') = length (vars vm).

(** A step run while an error is in flight: it returns having only
    extended the message, or it unwinds with a text a helper raised as
    the whole message. *)
Definition trace_step {A} (m : M A) : Prop :=
  forall vm, error_has_occured vm = true ->
    match m vm with
    | Ret _ vm' => trace_rel vm vm'
    | Unwound e vm' =>
        raised (errmsg vm') /\ e = exit_kind vm' /\
        error_has_occured vm' = true
    | Undef => True
    end.

End ErrorTracking.

(* ================================================================== *)
(** ** Ending the workers, and the program entry *)

(** The first half of [VM::TerminateWorkers]: [tuple_space->alive = false]
    (the [notify_all] that follows carries no data). *)
Definition stop_workers (a : tsaddr) : W unit :=
  fun w =>
    match spaces w.2 !! a with
    | Some ts =>
        Ret tt (w.1, {| spaces := <[a := {| tupletypes := tupletypes ts;
                                            alive := false |}]> (spaces w.2);
                        threads := threads w.2 |})
    | None => Undef
    end.

(** The second half, once every [join] has returned: [workers.clear()],
    [delete tuple_space], [tuple_space = nullptr]. *)
Definition reap_workers (a : tsaddr) : W unit :=
  modify (fun w =>
    (set_tuple_space None (set_workers [] w.1),
     {| spaces := delete a (spaces w.2); threads := threads w.2 |})).

(** [VM::TerminateWorkers]. Between the two halves the caller waits in
    [join] while the workers run to their end; they reach only their own
    VMs and the space that is deleted next. *)
Definition TerminateWorkers : W unit :=
  fun w =>
    if is_worker w.1 || negb (bool_decide (is_Some (tuple_space w.1)))
    then Ret tt w
    else (a <- lift_opt (tuple_space w.1) ;;
          stop_workers a ;;;
          reap_workers a) w.

Section Entry.

Variable cfg : Build.
(** [compiled_entry_point] (or [jit_entry]), defined outside vm.cpp. *)
Variable compiled_entry_point : Z -> M unit.

(** [VM::EvalProgram]: under [VM_USE_LONGJMP] a [longjmp] out of the
    program lands at the [setjmp], which resumes the normal error. *)
Definition EvalProgram : M unit :=
  fun vm =>
    match compiled_entry_point (-1) vm with
    | Unwound LongJumped vm' =>
        if VM_USE_LONGJMP cfg then THROW_OR_ABORT cfg (errmsg vm') vm'
        else Unwound LongJumped vm'
    | o => o
    end.

End Entry.

(** A program image with two classes: type 7 has two integer fields and
    the queue of [structidx] 1; type 8 has an integer and a string field. *)
Definition ex_class_image : BytecodeFile :=
  {| bytecode := bytecode ex_image;
     functions := functions ex_image;
     specidents := specidents ex_image;
     idents := idents ex_image;
     udts := udts ex_image;
     vtables := vtables ex_image;
     GetTypeInfo := fun i =>
       if decide (i = 7) then
         {| t := V_CLASS; structidx := 1; len := 2; elemtypes := [0; 0] |}
       else if decide (i = 8) then
         {| t := V_CLASS; structidx := 0; len := 2; elemtypes := [0; 9] |}
       else if decide (i = 9) then
         {| t := V_STRING; structidx := 0; len := 0; elemtypes := [] |}
       else {| t := V_INT; structidx := 0; len := 0; elemtypes := [] |} |}.

Definition ex_class_args : VMArgs :=
  {| static_bytecode := ex_class_image; programname := "ex";
     program_args := []; trace := OFF |}.

(** Integers and floats are the scalars of the example. *)
Definition ex_IsRefNil (vt : ValueType) : bool :=
  match vt with V_INT | V_FLOAT => false | _ => true end.

(** One tuple space at address 0, a VM that owns it and a worker on it. *)
Definition ex_process : Process :=
  {| spaces := <[0%nat := TupleSpace_new 2]> ∅; threads := [] |}.
Definition ex_writer : VM :=
  set_tuple_space (Some 0%nat) (VM_new ex_class_args).
Definition ex_reader : VM := worker_vm ex_writer 0%nat.
Definition ex_obj : RefObj :=
  {| tti := 7; elems := [int_Value 4; int_Value 5] |}.
Definition ex_obj_str : RefObj :=
  {| tti := 8; elems := [int_Value 4; {| any := 1000; type := V_STRING |}] |}.

(** [VM::FinalStackVarsCleanup]: the assertion is all a release build
    keeps of it. *)
Definition FinalStackVarsCleanup (cfg : Build) (sp : Z) : M unit :=
  fun vm =>
    VMASSERT cfg
      (bool_decide (sp = -1)
       && match stackframes vm with [] => true | _ => false end)
      "sp == stack - 1 && !stackframes.size()" vm.

(* ================================================================== *)
(** ** The order of the leak report *)

(** The two header fields of a [RefObj] that [_LeakSorter] reads. *)
Record RefHeader := { refc : Z; hdr_tti : Z }.

Definition _LeakSorter (a b : RefHeader) : bool :=
  if decide (refc a <> refc b) then bool_decide (refc a > refc b)
  else if decide (hdr_tti a <> hdr_tti b)
       then bool_decide (hdr_tti a > hdr_tti b)
       else false.

(* ================================================================== *)
(** ** Enum names *)

Record EnumVal := { ev_name : string; ev_val : Z }.
Record EnumDef := { enum_flags : bool; enum_vals : list EnumVal }.

(** The [lookup] lambda of [EnumName]: the name of the first value equal
    to [val] is appended to [sd]. *)
Fixpoint enum_lookup (vals : list EnumVal) (val : Z) (sd : string)
  : string * bool :=
  match vals with
  | [] => (sd, false)
  | v :: rest =>
      if decide (ev_val v = val) then (sd +:+ ev_name v, true)
      else enum_lookup rest val sd
  end.

(** [sd.resize(n)]: cut, or filled up with zero characters. *)
Definition string_resize (n : nat) (sd : string) : string :=
  string_of_list_ascii (resize n Ascii.zero (list_ascii_of_string sd)).

(** [1LL << i] as a signed 64-bit value, for [i] up to 63. *)
Definition shl1 (i : Z) : Z := if decide (i = 63) then - 2 ^ 63 else 2 ^ i.

(** The bit loop of [EnumName], [n] rounds left. *)
Fixpoint flag_names (n : nat) (i : Z) (vals : list EnumVal) (enum_val : Z)
    (start : nat) (sd : string) : string * bool :=
  match n with
  | O => (sd, true)
  | S n' =>
      let bit := Z.land enum_val (shl1 i) in
      if decide (bit <> 0) then
        let sd := if decide (String.length sd <> start) then sd +:+ "|"
                  else sd in
        let r := enum_lookup vals bit sd in
        if r.2 then flag_names n' (i + 1) vals enum_val start r.1
        else (string_resize start r.1, false)
      else flag_names n' (i + 1) vals enum_val start sd
  end.

Section Enums.

(** [HighZeroBits], declared outside vm.cpp. *)
Variable HighZeroBits : Z -> Z.
(** [bcf->enums()], a table the image record above does not carry. *)
Variable enums : list EnumDef.

(** [VM::EnumName(sd, enum_val, enumidx)]: the text and the result. *)
Definition EnumName (sd : string) (enum_val enumidx : Z)
  : option (string * bool) :=
  match zlookup enums enumidx with
  | Some enum_def =>
      if negb (enum_flags enum_def) || bool_decide (enum_val = 0)
      then Some (enum_lookup (enum_vals enum_def) enum_val sd)
      else
        let start := String.length sd in
        let upto := 64 - HighZeroBits enum_val in
        Some (flag_names (Z.to_nat upto) 0 (enum_vals enum_def) enum_val
                start sd)
  | None => None
  end.

(** [VM::LookupEnum] *)
Fixpoint lookup_name (vals : list EnumVal) (name : string) : option Z :=
  match vals with
  | [] => None
  | v :: rest =>
      if decide (ev_name v = name) then Some (ev_val v)
      else lookup_name rest name
  end.

Definition LookupEnum (name : string) (enumidx : Z) : option (option Z) :=
  match zlookup enums enumidx with
  | Some enum_def => Some (lookup_name (enum_vals enum_def) name)
  | None => None
  end.

End Enums.

(** An enum and a flags enum. *)
Definition ex_enums : list EnumDef :=
  [ {| enum_flags := false;
       enum_vals := [ {| ev_name := "red"; ev_val := 0 |};
                      {| ev_name := "green"; ev_val := 1 |};
                      {| ev_name := "blue"; ev_val := 2 |} ] |};
    {| enum_flags := true;
       enum_vals := [ {| ev_name := "r"; ev_val := 1 |};
                      {| ev_name := "w"; ev_val := 2 |};
                      {| ev_name := "x"; ev_val := 4 |} ] |} ].

(** Leading zero bits of a 64-bit value. *)
Definition ex_HighZeroBits (v : Z) : Z :=
  if decide (v = 0) then 64
  else if decide (v < 0) then 0 else 63 - Z.log2 v.

(* ================================================================== *)
(** ** Jump-table labels in the generated code *)

(** The loop of [IL_JUMP_TABLE_CASE_START] over the case values, [n]
    rounds left; [t] walks the table. *)
Fixpoint case_loop (n : nat) (code : list Z) (t i id : Z) (sd : string)
  : option (string * Z) :=
  match n with
  | O => Some (sd, t)
  | S n' =>
      match zlookup code t with
      | Some e =>
          let sd := if decide (e = id)
                    then sd +:+ "case " +:+ pretty i +:+ ":" else sd in
          case_loop n' code (t + 1) (i + 1) id sd
      | None => None
      end
  end.

(** What [ToCPP] appends at [IL_JUMP_TABLE_CASE_START] of block [id], for
    the innermost jump table, at offset [t] of the code. An [int]
    counter cannot pass a [maxi] of [INT_MAX]. *)
Definition emit_case_labels (code : list Z) (t id : Z) (sd : string)
  : option string :=
  match zlookup code t, zlookup code (t + 1) with
  | Some mini, Some maxi =>
      if decide (maxi < 2 ^ 31 - 1) then
        match case_loop (Z.to_nat (maxi - mini + 1)) code (t + 2) mini id sd
        with
        | Some (sd, t') =>
            match zlookup code t' with
            | Some d => Some (if decide (d = id) then sd +:+ "default:"
                              else sd)
            | None => None
            end
        | None => None
        end
      else None
  | _, _ => None
  end.

(** What the loops of [FunOut] keep: the image, the sizes of the two
    arrays, the frame list. *)
Definition exit_rel (vm vm' : VM) : Prop :=
  bcf vm' = bcf vm /\ length (stack vm') = length (stack vm) /\
  length (vars vm') = length (vars vm) /\
  stackframes vm' = stackframes vm.

(** A build that unwinds by [longjmp] (the WebAssembly configuration),
    with exceptions for the host. *)
Definition ex_cfg_longjmp : Build :=
  {| USE_EXCEPTION_HANDLING := true; VM_USE_LONGJMP := true;
     RTT_ENABLED := false; VMASSERT_ON := true |}.

(** ** Function entry, in the words of the specification *)

(** Each arg global, in header order, is swapped with the caller's cell
    in the slot of that argument; the slots count up from [s]. *)
Fixpoint swap_cells (l : list Z) (s : Z) (c : cells) : option cells :=
  match l with
  | [] => Some c
  | v :: l' =>
      match zlookup c.1 v, zlookup c.2 s with
      | Some g, Some a =>
          match zstore c.1 v a, zstore c.2 s g with
          | Some V', Some S' => swap_cells l' (s + 1) (V', S')
          | _, _ => None
          end
      | _, _ => None
      end
  end.

(** Each def global, in header order, is pushed on the stack and cleared
    to nil; the pushes fill the slots from [s] up. *)
Fixpoint save_cells (l : list Z) (s : Z) (c : cells) : option cells :=
  match l with
  | [] => Some c
  | v :: l' =>
      match zlookup c.1 v with
      | Some g =>
          match zstore c.2 s g, zstore c.1 v nil_Value with
          | Some S', Some V' => save_cells l' (s + 1) (V', S')
          | _, _ => None
          end
      | None => None
      end
  end.

(* ================================================================== *)
(** ** AOT translator: [ToCPP] as a whole *)

(** The double quote of the emitted text. *)
Definition dq : string := String (Ascii.ascii_of_nat 34) "".

(** The head of the output in C++ mode. *)
Definition cpp_prelude : string :=
  "#include " +:+ dq +:+ "lobster/stdafx.h" +:+ dq +:+ nl +:+
  "#include " +:+ dq +:+ "lobster/vmdata.h" +:+ dq +:+ nl +:+
  "#include " +:+ dq +:+ "lobster/vmops.h" +:+ dq +:+ nl +:+
  "#include " +:+ dq +:+ "lobster/compiler.h" +:+ dq +:+ nl +:+
  nl +:+
  "typedef lobster::Value Value;" +:+ nl +:+
  "typedef lobster::StackPtr StackPtr;" +:+ nl +:+
  "typedef lobster::VM &VMRef;" +:+ nl +:+
  "typedef lobster::fun_base_t fun_base_t;" +:+ nl +:+
  nl +:+
  "#if LOBSTER_ENGINE" +:+ nl +:+
  "    // FIXME: This makes SDL not modular, but without it it will miss the SDLMain indirection."
  +:+ nl +:+
  "    #include " +:+ dq +:+ "lobster/sdlincludes.h" +:+ dq +:+ nl +:+
  "    #include " +:+ dq +:+ "lobster/sdlinterface.h" +:+ dq +:+ nl +:+
  "    extern " +:+ dq +:+ "C" +:+ dq
  +:+ " StackPtr GLFrame(StackPtr sp, VMRef vm);" +:+ nl +:+
  "#endif" +:+ nl +:+
  nl.

(** The head of the output in plain-C mode: the cell type, the
    declarations of the opcode functions ([il_declarations], generated
    from the opcode tables of il.h) and of the runtime's entry points. *)
Definition c_prelude (rtt : bool) (il_declarations : string) : string :=
  "typedef struct {" +:+ nl +:+
  "    union {" +:+ nl +:+
  "        long long ival;" +:+ nl +:+
  "        double fval;" +:+ nl +:+
  "        void *rval;" +:+ nl +:+
  "    };" +:+ nl +:+
  (if rtt then "    int type;" +:+ nl else "") +:+
  "} Value;" +:+ nl +:+
  "typedef Value *StackPtr;" +:+ nl +:+
  "typedef void *VMRef;" +:+ nl +:+
  "typedef StackPtr(" +:+ "*fun_base_t)(VMRef, StackPtr);" +:+ nl +:+
  "#define Pop(sp) (" +:+ "*(sp)--)" +:+ nl +:+
  "#define Push(sp, V) (" +:+ "*++(sp) = (V))" +:+ nl +:+
  "#define TopM(sp, N) (" +:+ "*((sp) - (N)))" +:+ nl +:+
  nl +:+
  il_declarations +:+
  "extern fun_base_t GetNextCallTarget(VMRef);" +:+ nl +:+
  "extern void Entry(int);" +:+ nl +:+
  "extern StackPtr GLFrame(StackPtr, VMRef);" +:+ nl +:+
  "extern void SwapVars(VMRef, int, StackPtr, int);" +:+ nl +:+
  "extern void BackupVar(VMRef, int, Value *);" +:+ nl +:+
  "extern void NilVal(Value *);" +:+ nl +:+
  "extern void DecOwned(VMRef, int);" +:+ nl +:+
  "extern void DecVal(VMRef, Value);" +:+ nl +:+
  "extern void RestoreBackup(VMRef, int, Value);" +:+ nl +:+
  "extern StackPtr PopArg(VMRef, int, StackPtr);" +:+ nl +:+
  nl.

(** [bytecode_buffer]: its contents read as [int]s, and its size in
    bytes. *)
Record Buffer := { bytecode_ints : list Z; buffer_size : Z }.

(** The forward declaration emitted for the function at [id]. *)
Definition fun_declaration (id : Z) : string :=
  "static StackPtr fun_" +:+ pretty id +:+ "(VMRef, StackPtr);" +:+ nl.

(** The loop that prints [bytecodefb], sixteen numbers to a line; [i]
    is the index of the head of [l]. *)
Fixpoint emit_ints (l : list Z) (i : Z) (sd : string) : string :=
  match l with
  | [] => sd
  | x :: l' =>
      let sd := if decide (Z.land i 15 = 0) then sd +:+ nl +:+ " " else sd in
      emit_ints l' (i + 1) (sd +:+ " " +:+ pretty x +:+ ",")
  end.

Section Translator.

(** Of the host and the build. *)
Variable FLATBUFFERS_LITTLEENDIAN : bool.
Variable NDEBUG : bool.
Variable RTT : bool.
(** The opcode numbering of il.h. *)
Variable IL_JUMP IL_FUNSTART IL_MAX_OPS : Z.
(** [ParseOpAndGetArity(opc, ip, regso)] of disasm.h, as the position it
    leaves [ip] at: past the operands of the opcode. *)
Variable ParseOpAndGetArity : list Z -> Z -> Z -> Z.
Variable il_declarations : string.
(** What the second loop of [ToCPP], the translation of the function
    bodies, appends to the output; it has no exit of its own, and no
    text when it fails an assertion or runs off the image. *)
Variable function_bodies : bool -> BytecodeFile -> option string.

(** The first loop of [ToCPP]: one forward declaration per function, and
    the check of every opcode on the way.  It returns the error text of
    its early exit, or [starting_point]. *)
Fixpoint declare_functions (fuel : nat) (code : list Z)
    (starting_ip ip starting_point : Z) : ST string (string + Z) :=
  fun sd =>
    if decide (ip < Z.of_nat (length code)) then
      match fuel with
      | O => Undef
      | S fuel' =>
          match zlookup code ip with
          | None => Undef
          | Some opc =>
              let id := ip in
              let declared := bool_decide (opc = IL_FUNSTART \/ ip = starting_ip) in
              let sd := if declared then sd +:+ fun_declaration id else sd in
              let starting_point :=
                if declared then id else starting_point in
              if decide (opc < 0 \/ opc >= IL_MAX_OPS) then
                Ret (inl ("Corrupt bytecode: " +:+ pretty opc +:+ " at: "
                          +:+ pretty id)) sd
              else
                declare_functions fuel' code starting_ip
                  (ParseOpAndGetArity code opc (ip + 1)) starting_point sd
          end
      end
    else Ret (inr starting_point) sd.


(** The end of the output: the copy of the bytecode (C++ mode), the
    entry point, and [main] (C++ mode). *)
Definition emit_tail (cpp : bool) (buf : Buffer) (starting_point : Z)
    (sd : string) : string :=
  let sd :=
    if cpp then
      emit_ints (bytecode_ints buf) 0
        (sd +:+ nl +:+ "static const int bytecodefb[] = {")
      +:+ nl +:+ "};" +:+ nl +:+ nl
    else sd in
  let sd := if cpp then sd +:+ "extern " +:+ dq +:+ "C" +:+ dq +:+ " " else sd in
  let sd := sd +:+ "StackPtr compiled_entry_point(VMRef vm, StackPtr sp) {"
            +:+ nl in
  let sd := if cpp then sd else sd +:+ "    Entry(sizeof(Value));" +:+ nl in
  let sd := sd +:+ "    return fun_" +:+ pretty starting_point
            +:+ "(vm, sp);" +:+ nl +:+ "}" +:+ nl +:+ nl in
  if cpp then
    sd +:+ "int main(int argc, char *argv[]) {" +:+ nl
    +:+ "    // This is hard-coded to call compiled_entry_point()" +:+ nl
    +:+ "    return RunCompiledCodeMain(argc, argv, "
    +:+ "(uint8_t *)bytecodefb, " +:+ pretty (buffer_size buf)
    +:+ ", vtables);" +:+ nl +:+ "}" +:+ nl
  else sd.

(** [ToCPP]: the state is the output [sd], the result the error text,
    empty on success. *)
Definition ToCPP (cpp : bool) (bcf : BytecodeFile) (buf : Buffer)
  : ST string string :=
  fun sd =>
    if negb FLATBUFFERS_LITTLEENDIAN then
      Ret "native code gen requires little endian" sd
    else
      let code := bytecode bcf in
      let sd := sd +:+ (if cpp then cpp_prelude
                        else c_prelude RTT il_declarations) in
      if negb NDEBUG && negb (bool_decide (zlookup code 0 = Some IL_JUMP))
      then
        match zlookup code 0 with
        | Some _ => Unwound Aborted sd
        | None => Undef
        end
      else
        match zlookup code 2 with
        | None => Undef
        | Some start =>
            match declare_functions (length code) code start 3 (-1) sd with
            | Ret (inl err) sd => Ret err sd
            | Ret (inr starting_point) sd =>
                let sd := sd +:+ nl in
                match function_bodies cpp bcf with
                | None => Undef
                | Some bodies =>
                    let sd := sd +:+ bodies in
                    let sd := emit_vtables cpp bcf sd in
                    Ret "" (emit_tail cpp buf starting_point sd)
                end
            | Unwound e sd => Unwound e sd
            | Undef => Undef
            end
        end.

End Translator.


(** An opcode numbering with 200 opcodes, of which only [IL_JUMP] has an
    operand; an image whose code holds -1 where its first opcode is
    expected (out of range in any numbering, and met before any operand
    is parsed), and one whose opcodes are all in range. *)
Definition ex_IL_JUMP : Z := 1.
Definition ex_IL_FUNSTART : Z := 2.
Definition ex_IL_MAX_OPS : Z := 200.
Definition ex_Parse (code : list Z) (opc ip : Z) : Z :=
  if decide (opc = ex_IL_JUMP) then ip + 1 else ip.
Definition ex_bodies (cpp : bool) (bcf : BytecodeFile) : option string :=
  Some ("// bodies" +:+ nl).
Definition ex_corrupt_image : BytecodeFile :=
  {| bytecode := [1; 0; 3; -1];
     functions := functions ex_image;
     specidents := specidents ex_image;
     idents := idents ex_image;
     udts := udts ex_image;
     vtables := vtables ex_image;
     GetTypeInfo := GetTypeInfo ex_image |}.
Definition ex_good_image : BytecodeFile :=
  {| bytecode := [1; 0; 4; 2; 5; 7];
     functions := functions ex_image;
     specidents := specidents ex_image;
     idents := idents ex_image;
     udts := udts ex_image;
     vtables := vtables ex_image;
     GetTypeInfo := GetTypeInfo ex_image |}.
Definition ex_buffer : Buffer :=
  {| bytecode_ints := [1; 2; 3]; buffer_size := 12 |}.

(** The text an outcome of the translator leaves. *)
Definition text_of {A} (o : outcome string A) : string :=
  match o with Ret _ s => s | Unwound _ s => s | Undef => "" end.

(* ================================================================== *)
(** * Properties *)

(** ** Arrays at integer offsets *)

Lemma zlookup_Some {A} (l : list A) i a :
  zlookup l i = Some a <-> 0 <= i /\ l !! Z.to_nat i = Some a.
Proof.
  unfold zlookup. destruct (decide (0 <= i)); split.
  - done.
  - by intros [_ ?].
  - discriminate.
  - intros [? _]. lia.
Qed.

Lemma zlookup_lt {A} (l : list A) i a :
  zlookup l i = Some a -> 0 <= i < Z.of_nat (length l).
Proof.
  rewrite zlookup_Some. intros [? H%lookup_lt_Some]. lia.
Qed.

Lemma zlookup_of_nat {A} (l : list A) (k : nat) :
  zlookup l (Z.of_nat k) = l !! k.
Proof.
  unfold zlookup. rewrite decide_True by lia. by rewrite Nat2Z.id.
Qed.

Lemma zstore_Some {A} (l l' : list A) i a :
  zstore l i a = Some l' ->
  0 <= i < Z.of_nat (length l) /\ l' = <[Z.to_nat i := a]> l.
Proof.
  unfold zstore. destruct (decide _); intros [= <-]; auto.
Qed.

Lemma zstore_lookup_eq {A} (l l' : list A) i a :
  zstore l i a = Some l' -> zlookup l' i = Some a.
Proof.
  intros [Hi ->]%zstore_Some. apply zlookup_Some. split; [lia|].
  apply list_lookup_insert_eq. lia.
Qed.

Lemma zstore_lookup_ne {A} (l l' : list A) i j a :
  zstore l i a = Some l' -> j <> i -> zlookup l' j = zlookup l j.
Proof.
  intros [Hi ->]%zstore_Some Hne. unfold zlookup.
  destruct (decide (0 <= j)); [|done].
  apply list_lookup_insert_ne. lia.
Qed.

Lemma zstore_length {A} (l l' : list A) i a :
  zstore l i a = Some l' -> length l' = length l.
Proof. intros [_ ->]%zstore_Some. apply length_insert. Qed.

Lemma zstore_is_Some {A} (l : list A) i a :
  0 <= i < Z.of_nat (length l) -> is_Some (zstore l i a).
Proof. intros. unfold zstore. rewrite decide_True by done. eauto. Qed.

(** ** The monad *)

Lemma bind_Ret {S A B} (m : ST S A) (k : A -> ST S B) vm b vm' :
  bind m k vm = Ret b vm' <->
  exists a vm1, m vm = Ret a vm1 /\ k a vm1 = Ret b vm'.
Proof.
  unfold bind. destruct (m vm) as [a vm1| |]; split.
  - eauto.
  - intros (? & ? & [= -> ->] & ?). done.
  - discriminate.
  - intros (? & ? & ? & ?). discriminate.
  - discriminate.
  - intros (? & ? & ? & ?). discriminate.
Qed.

Lemma ret_Ret {S A} (a b : A) (vm vm' : S) :
  ret a vm = Ret b vm' <-> a = b /\ vm = vm'.
Proof. unfold ret. split; [intros [= -> ->]|intros [-> ->]]; done. Qed.

Lemma modify_Ret {S} (f : S -> S) u vm vm' :
  modify f vm = Ret u vm' <-> vm' = f vm.
Proof.
  unfold modify. destruct u. split; [intros [= <-]|intros ->]; done.
Qed.

Lemma lift_opt_Ret {S A} (o : option A) a (vm vm' : S) :
  lift_opt o vm = Ret a vm' <-> o = Some a /\ vm' = vm.
Proof.
  destruct o; simpl; unfold ret, undef; split.
  - by intros [= -> ->].
  - by intros [[= ->] ->].
  - discriminate.
  - intros [? _]. discriminate.
Qed.

Lemma code_at_Ret p z vm vm' :
  code_at p vm = Ret z vm' <->
  zlookup (bytecode (bcf vm)) p = Some z /\ vm' = vm.
Proof. apply lift_opt_Ret. Qed.

Lemma var_get_Ret i v vm vm' :
  var_get i vm = Ret v vm' <-> zlookup (vars vm) i = Some v /\ vm' = vm.
Proof. apply lift_opt_Ret. Qed.

Lemma stack_get_Ret j v vm vm' :
  stack_get j vm = Ret v vm' <-> zlookup (stack vm) j = Some v /\ vm' = vm.
Proof. apply lift_opt_Ret. Qed.

Lemma var_set_Ret i v u vm vm' :
  var_set i v vm = Ret u vm' <->
  exists l, zstore (vars vm) i v = Some l /\ vm' = set_vars l vm.
Proof.
  unfold var_set. destruct (zstore (vars vm) i v); split.
  - intros [= <-]. eauto.
  - intros (? & [= <-] & ->). by destruct u.
  - discriminate.
  - intros (? & ? & _). discriminate.
Qed.

Lemma stack_set_Ret j v u vm vm' :
  stack_set j v vm = Ret u vm' <->
  exists l, zstore (stack vm) j v = Some l /\ vm' = set_stack l vm.
Proof.
  unfold stack_set. destruct (zstore (stack vm) j v); split.
  - intros [= <-]. eauto.
  - intros (? & [= <-] & ->). by destruct u.
  - discriminate.
  - intros (? & ? & _). discriminate.
Qed.

Lemma Push_Ret sp v sp' vm vm' :
  Push sp v vm = Ret sp' vm' <->
  exists l, zstore (stack vm) (sp + 1) v = Some l /\
            vm' = set_stack l vm /\ sp' = sp + 1.
Proof.
  unfold Push. rewrite bind_Ret. split.
  - intros (u & vm1 & (l & Hl & ->)%stack_set_Ret & [<- <-]%ret_Ret). eauto.
  - intros (l & Hl & -> & ->). exists tt, (set_stack l vm). split.
    + apply stack_set_Ret. eauto.
    + done.
Qed.

Lemma Pop_Ret sp r vm vm' :
  Pop sp vm = Ret r vm' <->
  zlookup (stack vm) sp = Some r.1 /\ r.2 = sp - 1 /\ vm' = vm.
Proof.
  unfold Pop. rewrite bind_Ret. split.
  - intros (v & vm1 & [Hv ->]%stack_get_Ret & [<- <-]%ret_Ret). done.
  - intros (Hv & Hr & ->). exists r.1, vm. split.
    + by apply stack_get_Ret.
    + apply ret_Ret. split; [|done]. destruct r; simpl in *. by subst.
Qed.

Lemma log_step_Ret s u vm vm' :
  log_step s vm = Ret u vm' <->
  vm' = set_exit_steps (exit_steps vm ++ [s]) vm.
Proof. unfold log_step. by rewrite modify_Ret. Qed.

(** Splits a successful run of a sequence into its steps. *)
Ltac run_inv H :=
  repeat match type of H with
  | bind _ _ _ = Ret _ _ =>
      let a := fresh "a" in
      let vmx := fresh "vm" in
      let H1 := fresh "Hstep" in
      apply bind_Ret in H as (a & vmx & H1 & H);
      first
        [ apply code_at_Ret in H1 as [H1 ->]
        | apply var_get_Ret in H1 as [H1 ->]
        | apply stack_get_Ret in H1 as [H1 ->]
        | apply var_set_Ret in H1 as (? & H1 & ->)
        | apply stack_set_Ret in H1 as (? & H1 & ->)
        | apply Push_Ret in H1 as (? & H1 & -> & ->)
        | apply Pop_Ret in H1 as (H1 & ? & ->)
        | apply log_step_Ret in H1 as ->
        | apply modify_Ret in H1 as ->
        | idtac ]
  end.

(** ** Saving and restoring globals *)

Lemma saved_app l1 l2 c c' c'' :
  saved l1 c c' -> saved l2 c' c'' -> saved (l1 ++ l2) c c''.
Proof.
  induction 1 as [|v s l c0 c1 c2 Hstep Hrest IH]; simpl; [done|].
  intros H2. econstructor; eauto.
Qed.

Lemma saved_slot_other l c c' r :
  saved l c c' -> r ∉ l.*2 -> zlookup c'.2 r = zlookup c.2 r.
Proof.
  induction 1 as [|v s l c0 c1 c2 Hstep Hrest IH]; simpl; [done|].
  intros Hr. apply not_elem_of_cons in Hr as [Hne Hr].
  rewrite IH by done. destruct Hstep as (_ & _ & _ & Hs & _). by apply Hs.
Qed.

Lemma saved_length l c c' :
  saved l c c' -> length c'.2 = length c.2.
Proof.
  induction 1 as [|v s l c0 c1 c2 Hstep Hrest IH]; [done|].
  rewrite IH. by destruct Hstep as (_ & _ & _ & _ & ?).
Qed.

Lemma restore_app l1 l2 S V :
  restore (l1 ++ l2) S V =
  match restore l1 S V with Some V' => restore l2 S V' | None => None end.
Proof.
  revert V. induction l1 as [|[v s] l1 IH]; intros V; simpl; [done|].
  destruct (zlookup S s); [|done]. destruct (zstore V v v0); [|done].
  apply IH.
Qed.

(** The stack discipline behind the identity: saves are undone last
    first, so every saved global gets back the value it had before the
    first save, whatever the globals hold in between. *)
Lemma saved_restore l c0 c1 S2 V2 V3 :
  saved l c0 c1 ->
  NoDup l.*2 ->
  (forall s, s ∈ l.*2 -> zlookup S2 s = zlookup c1.2 s) ->
  restore (rev l) S2 V2 = Some V3 ->
  forall v, v ∈ l.*1 -> zlookup V3 v = zlookup c0.1 v.
Proof.
  intros Hsaved. revert V2 V3.
  induction Hsaved as [|v s l c0 c1 c2 Hstep Hrest IH];
    intros V2 V3 Hnd Hagree Hres u Hu; simpl in *.
  { by apply elem_of_nil in Hu. }
  apply NoDup_cons in Hnd as [Hs Hnd].
  rewrite restore_app in Hres.
  destruct (restore (rev l) S2 V2) as [V'|] eqn:HV'; [|done].
  simpl in Hres.
  destruct (zlookup S2 s) as [x|] eqn:Hx; [|done].
  destruct (zstore V' v x) as [V''|] eqn:Hst; [|done].
  injection Hres as <-.
  destruct Hstep as (Hsome & Hslot & Hvars & _ & _).
  assert (Hxv : zlookup c0.1 v = Some x).
  { rewrite <- Hslot, <- (saved_slot_other l c1 c2 s Hrest Hs).
    rewrite <- Hagree by (apply elem_of_cons; by left). done. }
  destruct (decide (u = v)) as [->|Hne].
  - rewrite Hxv. eapply zstore_lookup_eq; eauto.
  - rewrite (zstore_lookup_ne _ _ _ _ _ Hst Hne).
    apply elem_of_cons in Hu as [?|Hu]; [done|].
    rewrite <- Hvars by done.
    eapply IH; eauto.
    intros r Hr. apply Hagree. apply elem_of_cons. by right.
Qed.

Lemma pair_slots_app l1 l2 s :
  pair_slots (l1 ++ l2) s =
  pair_slots l1 s ++ pair_slots l2 (s + Z.of_nat (length l1)).
Proof.
  revert s. induction l1 as [|x l1 IH]; intros s; simpl.
  - by rewrite Z.add_0_r.
  - rewrite IH. do 3 f_equal. lia.
Qed.

Lemma pair_slots_fst l s : (pair_slots l s).*1 = l.
Proof. revert s. induction l; intros; simpl; [done|]. by rewrite IHl. Qed.

Lemma pair_slots_snd l s :
  (pair_slots l s).*2 = seqZ s (Z.of_nat (length l)).
Proof.
  revert s. induction l as [|x l IH]; intros s; simpl length.
  - done.
  - rewrite seqZ_cons by lia. simpl. rewrite IH. do 2 f_equal; lia.
Qed.

Lemma cells_down_length S sp n : length (cells_down S sp n) = n.
Proof. revert sp. induction n; intros; simpl; [done|]. by rewrite IHn. Qed.

(** ** Headers in the code *)

Lemma zlookup_middle {A} (pre l post : list A) (k : nat) x :
  l !! k = Some x ->
  zlookup (pre ++ l ++ post) (Z.of_nat (length pre) + Z.of_nat k) = Some x.
Proof.
  intros Hk. replace (Z.of_nat (length pre) + Z.of_nat k)
    with (Z.of_nat (length pre + k)) by lia.
  rewrite zlookup_of_nat, lookup_app_r by lia.
  replace (length pre + k - length pre)%nat with k by lia.
  by apply lookup_app_l_Some.
Qed.

Section Header.

Variables (code : list Z) (ip : Z) (h : FunHeader).
Hypothesis Hh : header_at code ip h.

Let na := Z.of_nat (length (h_args h)).
Let nd := Z.of_nat (length (h_defs h)).

Lemma header_word (k : nat) x :
  encode_header h !! k = Some x -> zlookup code (ip + Z.of_nat k) = Some x.
Proof.
  destruct Hh as (pre & post & -> & ->). apply zlookup_middle.
Qed.

Lemma header_nargs : zlookup code (ip + 1) = Some na.
Proof. apply (header_word 1). done. Qed.

Lemma header_arg (k : nat) x :
  h_args h !! k = Some x -> zlookup code (ip + 2 + Z.of_nat k) = Some x.
Proof.
  intros Hk. replace (ip + 2 + Z.of_nat k) with (ip + Z.of_nat (2 + k)) by lia.
  apply header_word. unfold encode_header. simpl.
  by apply lookup_app_l_Some.
Qed.

Lemma header_ndef : zlookup code (ip + 2 + na) = Some nd.
Proof.
  replace (ip + 2 + na) with (ip + Z.of_nat (2 + length (h_args h)))
    by (unfold na; lia).
  apply header_word. unfold encode_header. simpl.
  rewrite lookup_app_r by lia. by rewrite Nat.sub_diag.
Qed.

Lemma header_def (k : nat) x :
  h_defs h !! k = Some x ->
  zlookup code (ip + 3 + na + Z.of_nat k) = Some x.
Proof.
  intros Hk. replace (ip + 3 + na + Z.of_nat k)
    with (ip + Z.of_nat (2 + (length (h_args h) + S k))) by (unfold na; lia).
  apply header_word. unfold encode_header. simpl.
  rewrite lookup_app_r by lia.
  match goal with |- _ !! ?i = _ => replace i with (S k) by lia end.
  simpl. by apply lookup_app_l_Some.
Qed.

Lemma header_nkeep : zlookup code (ip + 3 + na + nd) = Some (h_nkeep h).
Proof.
  replace (ip + 3 + na + nd)
    with (ip + Z.of_nat (2 + (length (h_args h) + S (length (h_defs h)))))
    by (unfold na, nd; lia).
  apply header_word. unfold encode_header. simpl.
  rewrite lookup_app_r by lia.
  match goal with |- _ !! ?i = _ =>
    replace i with (S (length (h_defs h))) by lia end.
  simpl. rewrite lookup_app_r by lia. by rewrite Nat.sub_diag.
Qed.

Lemma header_nowned :
  zlookup code (ip + 4 + na + nd) = Some (Z.of_nat (length (h_owned h))).
Proof.
  replace (ip + 4 + na + nd)
    with (ip + Z.of_nat (2 + (length (h_args h) + S (length (h_defs h) + 1))))
    by (unfold na, nd; lia).
  apply header_word. unfold encode_header. simpl.
  rewrite lookup_app_r by lia.
  match goal with |- _ !! ?i = _ =>
    replace i with (S (length (h_defs h) + 1)) by lia end.
  simpl. rewrite lookup_app_r by lia.
  match goal with |- _ !! ?i = _ => replace i with 1%nat by lia end.
  done.
Qed.

Lemma header_owned (k : nat) x :
  h_owned h !! k = Some x ->
  zlookup code (ip + 5 + na + nd + Z.of_nat k) = Some x.
Proof.
  intros Hk. replace (ip + 5 + na + nd + Z.of_nat k)
    with (ip + Z.of_nat (2 + (length (h_args h)
                              + S (length (h_defs h) + (2 + k)))))
    by (unfold na, nd; lia).
  apply header_word. unfold encode_header. simpl.
  rewrite lookup_app_r by lia.
  match goal with |- _ !! ?i = _ =>
    replace i with (S (length (h_defs h) + (2 + k))) by lia end.
  simpl. rewrite lookup_app_r by lia.
  match goal with |- _ !! ?i = _ => replace i with (S (S k)) by lia end.
  done.
Qed.

End Header.

(** ** The loops of function entry *)

Lemma VM_eta vm : set_stack (stack vm) (set_vars (vars vm) vm) = vm.
Proof. by destruct vm. Qed.

Lemma swap_args_saved l : forall ip sp nargs i vm vm' u,
  (forall (k : nat) x, l !! k = Some x ->
     zlookup (bytecode (bcf vm)) (ip + i + Z.of_nat k) = Some x) ->
  swap_args (length l) ip sp nargs i vm = Ret u vm' ->
  exists V S, vm' = set_stack S (set_vars V vm) /\
    saved (pair_slots l (sp - nargs + i + 1)) (vars vm, stack vm) (V, S).
Proof.
  induction l as [|x l IH]; intros ip sp nargs i vm vm' u Hcode H;
    simpl in H.
  - apply ret_Ret in H as [_ <-]. exists (vars vm), (stack vm).
    split; [by rewrite VM_eta|constructor].
  - run_inv H.
    pose proof (Hcode 0%nat x eq_refl) as H0.
    simpl in H0. rewrite Z.add_0_r, Hstep in H0. injection H0 as ->.
    apply IH in H as (V & S & -> & Hsaved).
    2:{ intros k y Hk. simpl.
        replace (ip + (i + 1) + Z.of_nat k) with (ip + i + Z.of_nat (S k))
          by lia.
        by apply Hcode. }
    exists V, S. split; [done|]. simpl.
    econstructor.
    2:{ replace (sp - nargs + i + 1 + 1) with (sp - nargs + (i + 1) + 1)
          by lia. exact Hsaved. }
    simpl in *. repeat split; simpl.
    + eauto.
    + rewrite Hstep0. eapply zstore_lookup_eq; eauto.
    + intros w Hw. eapply zstore_lookup_ne; eauto.
    + intros r Hr. eapply zstore_lookup_ne; eauto.
    + eapply zstore_length; eauto.
Qed.

Lemma backup_defs_saved l : forall ip sp vm vm' r,
  (forall (k : nat) x, l !! k = Some x ->
     zlookup (bytecode (bcf vm)) (ip + Z.of_nat k) = Some x) ->
  backup_defs (length l) ip sp vm = Ret r vm' ->
  r = (ip + Z.of_nat (length l), sp + Z.of_nat (length l)) /\
  exists V S, vm' = set_stack S (set_vars V vm) /\
    saved (pair_slots l (sp + 1)) (vars vm, stack vm) (V, S).
Proof.
  induction l as [|x l IH]; intros ip sp vm vm' r Hcode H; simpl in H.
  - apply ret_Ret in H as [<- <-]. split; [f_equal; simpl; lia|].
    exists (vars vm), (stack vm).
    split; [by rewrite VM_eta|constructor].
  - run_inv H.
    pose proof (Hcode 0%nat x eq_refl) as H0.
    simpl in H0. rewrite Z.add_0_r, Hstep in H0. injection H0 as ->.
    apply IH in H as (-> & V & S & -> & Hsaved).
    2:{ intros k y Hk. simpl.
        replace (ip + 1 + Z.of_nat k) with (ip + Z.of_nat (S k)) by lia.
        by apply Hcode. }
    split; [f_equal; simpl length; lia|].
    exists V, S. split; [done|]. simpl.
    econstructor; [|exact Hsaved].
    simpl in *. repeat split; simpl.
    + eauto.
    + rewrite Hstep0. eapply zstore_lookup_eq; eauto.
    + intros w Hw. eapply zstore_lookup_ne; eauto.
    + intros r Hr. eapply zstore_lookup_ne; eauto.
    + eapply zstore_length; eauto.
Qed.

Lemma push_keeps_spec n : forall sp vm sp' vm',
  push_keeps n sp vm = Ret sp' vm' ->
  sp' = sp + Z.of_nat n /\
  exists S, vm' = set_stack S vm /\
    length S = length (stack vm) /\
    forall j, j <= sp -> zlookup S j = zlookup (stack vm) j.
Proof.
  induction n as [|n IH]; intros sp vm sp' vm' H; simpl in H.
  - apply ret_Ret in H as [<- <-]. split; [lia|].
    exists (stack vm). split; [by destruct vm|done].
  - run_inv H. apply IH in H as (-> & S & -> & Hlen & Hlow).
    split; [lia|]. exists S. split; [done|]. split.
    + rewrite Hlen. simpl. eapply zstore_length; eauto.
    + intros j Hj. rewrite Hlow by lia. simpl.
      eapply zstore_lookup_ne; eauto. lia.
Qed.

(** ** Errors never return *)

Lemma UnwindOnError_not_Ret cfg {A} vm (a : A) vm' :
  UnwindOnError cfg vm <> Ret a vm'.
Proof.
  unfold UnwindOnError, THROW_OR_ABORT.
  destruct (VM_USE_LONGJMP cfg), (USE_EXCEPTION_HANDLING cfg); discriminate.
Qed.

Lemma UnwindOnError_state cfg {A} vm e vm' :
  @UnwindOnError cfg A vm = Unwound e vm' -> vm' = vm.
Proof.
  unfold UnwindOnError, THROW_OR_ABORT.
  destruct (VM_USE_LONGJMP cfg), (USE_EXCEPTION_HANDLING cfg);
    intros [= _ <-]; done.
Qed.

Lemma UnwindOnError_not_Undef cfg {A} vm : @UnwindOnError cfg A vm <> Undef.
Proof.
  unfold UnwindOnError, THROW_OR_ABORT.
  destruct (VM_USE_LONGJMP cfg), (USE_EXCEPTION_HANDLING cfg); discriminate.
Qed.

Lemma SeriousError_not_Ret cfg err vm v vm' :
  SeriousError cfg err vm <> Ret v vm'.
Proof.
  unfold SeriousError. intros H. apply bind_Ret in H as (u & vm1 & _ & H).
  by apply UnwindOnError_not_Ret in H.
Qed.

Lemma string_app_cons (x : ascii) (a b : string) :
  String x a +:+ b = String x (a +:+ b).
Proof. reflexivity. Qed.

Lemma string_app_nil_l (a : string) : "" +:+ a = a.
Proof. reflexivity. Qed.

Lemma string_app_nil_r (a : string) : a +:+ "" = a.
Proof. induction a; [done|]. by rewrite string_app_cons, IHa. Qed.

Lemma string_app_assoc (a b c : string) : (a +:+ b) +:+ c = a +:+ (b +:+ c).
Proof.
  induction a; [done|]. by rewrite !string_app_cons, IHa.
Qed.

Lemma ErrorBase_cases cfg err vm :
  match ErrorBase cfg err vm with
  | Ret _ vm' =>
      error_has_occured vm = false /\
      vm' = set_errmsg (errmsg vm +:+ "VM error: " +:+ err)
              (set_error_has_occured true vm)
  | Unwound _ vm' => error_state_only err vm vm'
  | Undef => (trace_ring_idx vm > length (trace_output vm))%nat
  end.
Proof.
  unfold ErrorBase. destruct (error_has_occured vm) eqn:Heo.
  - unfold bind, modify.
    destruct (UnwindOnError cfg (set_errmsg err vm)) as [a s|e s|] eqn:Hu.
    + by apply UnwindOnError_not_Ret in Hu.
    + apply UnwindOnError_state in Hu as ->. split; [|split].
      * by exists "".
      * done.
      * exists err, true. destruct vm; simpl in *; by subst.
    + by apply UnwindOnError_not_Undef in Hu.
  - destruct (decide _) as [[Ht Hne]|Hn]; [|done].
    simpl. destruct (decide _) as [Hle|Hgt]; [|lia].
    unfold bind, modify.
    match goal with |- context [UnwindOnError cfg ?s] =>
      destruct (UnwindOnError cfg s) as [a s'|e s'|] eqn:Hu end.
    + by apply UnwindOnError_not_Ret in Hu.
    + apply UnwindOnError_state in Hu as ->. split; [|split].
      * exists (errmsg vm +:+ ring_text (set_error_has_occured true vm)).
        simpl. by rewrite string_app_assoc.
      * done.
      * eexists _, true. done.
    + by apply UnwindOnError_not_Undef in Hu.
Qed.

Lemma SeriousError_cases cfg err vm :
  match SeriousError cfg err vm with
  | Ret _ _ => False
  | Unwound _ vm' => error_state_only err vm vm'
  | Undef => (trace_ring_idx vm > length (trace_output vm))%nat
  end.
Proof.
  unfold SeriousError, bind. pose proof (ErrorBase_cases cfg err vm) as HE.
  destruct (ErrorBase cfg err vm) as [u vm1|e vm1|]; [|done|done].
  destruct HE as [Heo ->].
  match goal with |- context [UnwindOnError cfg ?s] =>
    destruct (UnwindOnError cfg s) as [a s'|e s'|] eqn:Hu end.
  - by apply UnwindOnError_not_Ret in Hu.
  - apply UnwindOnError_state in Hu as ->. split; [|split].
    + exists (errmsg vm +:+ "VM error: "). simpl.
      by rewrite string_app_assoc.
    + done.
    + eexists _, true. done.
  - by apply UnwindOnError_not_Undef in Hu.
Qed.

(** ** Stack growth *)

Lemma t_memcpy_Some {A} (dst src l : list A) n :
  t_memcpy dst src n = Some l ->
  length l = length dst /\
  forall j, 0 <= j < n -> zlookup l j = zlookup src j.
Proof.
  unfold t_memcpy. destruct (decide _) as [(Hn & Hd)|]; [|done].
  intros [= <-]. split.
  - rewrite length_app, length_take, length_drop. lia.
  - intros j Hj. unfold zlookup. rewrite !decide_True by lia.
    rewrite lookup_app_l by (rewrite length_take; lia).
    apply lookup_take_lt. lia.
Qed.

Lemma grow_stack_Ret cfg sp vm sp' vm' :
  grow_stack cfg sp vm = Ret sp' vm' ->
  sp' = sp /\
  exists S z, vm' = set_stack S (set_stacksize z vm) /\
    (forall j, 0 <= j <= sp -> zlookup S j = zlookup (stack vm) j) /\
    if decide (sp > stacksize vm - STACKMARGIN)
    then stacksize vm < maxstacksize vm /\ z = stacksize vm * 2 /\
         length S = Z.to_nat (stacksize vm * 2)
    else z = stacksize vm /\ S = stack vm.
Proof.
  unfold grow_stack. destruct (decide (sp > _)) as [Hgt|Hle].
  - intros H. apply bind_Ret in H as (u & vm1 & Hw & H).
    unfold when in Hw. destruct (bool_decide _) eqn:Hb.
    + apply bind_Ret in Hw as (? & ? & Hs & _).
      by apply SeriousError_not_Ret in Hs.
    + apply ret_Ret in Hw as [_ <-].
      destruct (t_memcpy _ _ _) as [l|] eqn:Hl; [|done].
      injection H as <- <-. split; [done|].
      exists l, (stacksize vm * 2). split; [done|]. split.
      * intros j Hj. eapply t_memcpy_Some; eauto. lia.
      * apply bool_decide_eq_false in Hb. split; [lia|]. split; [done|].
        apply t_memcpy_Some in Hl as [-> _]. apply length_replicate.
  - intros [= <- <-]. split; [done|].
    exists (stack vm), (stacksize vm). split; [by destruct vm|done].
Qed.

(** ** Function entry, as a whole *)

Lemma pop_back_push_back {A} (l : list A) a : pop_back (push_back l a) = l.
Proof. apply removelast_last. Qed.

Lemma back_push_back {A} (l : list A) a : back (push_back l a) = Some a.
Proof. apply last_snoc. Qed.

Lemma set_back_frame_Ret f u vm vm' :
  set_back_frame f vm = Ret u vm' ->
  vm' = set_stackframes (push_back (pop_back (stackframes vm)) f) vm.
Proof.
  unfold set_back_frame. destruct (stackframes vm); [done|].
  by intros [= <-].
Qed.

Lemma FunIntro_inv cfg h ip sp vm sp1 vm1 :
  header_at (bytecode (bcf vm)) ip h ->
  FunIntro cfg sp ip vm = Ret sp1 vm1 ->
  exists Sg Sd,
    saved (pair_slots (h_args h) (sp - Z.of_nat (length (h_args h)) + 1)
           ++ pair_slots (h_defs h) (sp + 1))
      (vars vm, Sg) (vars vm1, Sd) /\
    (forall j, 0 <= j <= sp -> zlookup Sg j = zlookup (stack vm) j) /\
    (forall j, j <= sp + Z.of_nat (length (h_defs h)) ->
       zlookup (stack vm1) j = zlookup Sd j) /\
    sp1 = sp + Z.of_nat (length (h_defs h))
          + Z.of_nat (Z.to_nat (h_nkeep h)) /\
    bcf vm1 = bcf vm /\
    stackframes vm1 =
      push_back (stackframes vm) {| funstart := Some ip; spstart := sp1 |} /\
    length (stack vm1) = length Sg /\
    if decide (sp > stacksize vm - STACKMARGIN)
    then stacksize vm < maxstacksize vm /\
         stacksize vm1 = stacksize vm * 2 /\
         length Sg = Z.to_nat (stacksize vm * 2)
    else stacksize vm1 = stacksize vm /\ Sg = stack vm.
Proof.
  intros Hh H. unfold FunIntro in H.
  apply bind_Ret in H as (u & vmA & HA & H). apply modify_Ret in HA as ->.
  apply bind_Ret in H as (spg & vmg & Hg & H).
  apply grow_stack_Ret in Hg as (-> & Sg & z & -> & Hcopy & Hsize).
  apply bind_Ret in H as (n & ? & Hn & H). apply code_at_Ret in Hn as [Hn ->].
  simpl in Hn. rewrite (header_nargs _ _ _ Hh) in Hn. injection Hn as <-.
  apply bind_Ret in H as (? & vmS & Hs & H). rewrite Nat2Z.id in Hs.
  apply swap_args_saved in Hs as (V1 & S1 & -> & Hsv1).
  2:{ intros k0 y Hk0. simpl.
      replace (ip + 1 + 1 + 0 + Z.of_nat k0) with (ip + 2 + Z.of_nat k0) by lia.
      by apply (header_arg _ _ _ Hh). }
  apply bind_Ret in H as (nd & ? & Hn & H). apply code_at_Ret in Hn as [Hn ->].
  simpl in Hn.
  replace (ip + 1 + 1 + Z.of_nat (length (h_args h)))
    with (ip + 2 + Z.of_nat (length (h_args h))) in Hn by lia.
  rewrite (header_ndef _ _ _ Hh) in Hn. injection Hn as <-.
  apply bind_Ret in H as (r & vmD & Hd & H). rewrite Nat2Z.id in Hd.
  apply backup_defs_saved in Hd as (-> & V2 & S2 & -> & Hsv2).
  2:{ intros k0 y Hk0. simpl.
      replace (ip + 1 + 1 + Z.of_nat (length (h_args h)) + 1 + Z.of_nat k0)
        with (ip + 3 + Z.of_nat (length (h_args h)) + Z.of_nat k0) by lia.
      by apply (header_def _ _ _ Hh). }
  simpl in H.
  apply bind_Ret in H as (nk & ? & Hn & H). apply code_at_Ret in Hn as [Hn ->].
  simpl in Hn.
  replace (ip + 1 + 1 + Z.of_nat (length (h_args h)) + 1
           + Z.of_nat (length (h_defs h)))
    with (ip + 3 + Z.of_nat (length (h_args h))
          + Z.of_nat (length (h_defs h))) in Hn by lia.
  rewrite (header_nkeep _ _ _ Hh) in Hn. injection Hn as <-.
  apply bind_Ret in H as (spk & vmK & Hk & H).
  apply push_keeps_spec in Hk as (-> & S3 & -> & Hlen & Hlow).
  apply bind_Ret in H as (no & ? & Hn & H). apply code_at_Ret in Hn as [_ ->].
  apply bind_Ret in H as (? & vmF & Hf & H).
  apply set_back_frame_Ret in Hf as ->.
  apply ret_Ret in H as [<- <-]. simpl.
  exists Sg, S2. split; [|split; [|split; [|split; [|split; [|split; [|split]]]]]].
  - rewrite Z.add_0_r in Hsv1. simpl in Hsv1, Hsv2.
    eapply saved_app; [exact Hsv1|]. exact Hsv2.
  - exact Hcopy.
  - intros j Hj. by apply Hlow.
  - done.
  - done.
  - by rewrite pop_back_push_back.
  - rewrite Hlen. simpl.
    apply saved_length in Hsv1, Hsv2. simpl in Hsv1, Hsv2. congruence.
  - simpl in Hsize. exact Hsize.
Qed.

(** ** The loops of function exit *)

Lemma cell_Some S i v : zlookup S i = Some v -> cell S i = v.
Proof. unfold cell. by intros ->. Qed.

Lemma exit_steps_eta vm : set_exit_steps (exit_steps vm) vm = vm.
Proof. by destruct vm. Qed.

Lemma dec_keeps_spec n : forall sp vm sp' vm',
  dec_keeps n sp vm = Ret sp' vm' ->
  sp' = sp - Z.of_nat n /\
  vm' = set_exit_steps
          (exit_steps vm ++ (DecKeep <$> cells_down (stack vm) sp n)) vm.
Proof.
  induction n as [|n IH]; intros sp vm sp' vm' H; simpl in H.
  - apply ret_Ret in H as [<- <-]. split; [lia|].
    simpl. by rewrite app_nil_r, exit_steps_eta.
  - run_inv H. apply IH in H as (-> & ->). split; [lia|].
    simpl. rewrite (cell_Some _ _ _ Hstep), H0.
    by rewrite <- app_assoc.
Qed.

Lemma dec_owned_spec l : forall fip vm vm' u,
  (forall (k : nat) x, l !! k = Some x ->
     zlookup (bytecode (bcf vm)) (fip + Z.of_nat k) = Some x) ->
  dec_owned (length l) fip vm = Ret u vm' ->
  vm' = set_exit_steps
          (exit_steps vm ++ ((fun i => DecOwned i (cell (vars vm) i)) <$> l))
          vm.
Proof.
  induction l as [|x l IH]; intros fip vm vm' u Hcode H; simpl in H.
  - apply ret_Ret in H as [_ <-]. simpl.
    by rewrite app_nil_r, exit_steps_eta.
  - run_inv H.
    pose proof (Hcode 0%nat x eq_refl) as H0.
    simpl in H0. rewrite Z.add_0_r, Hstep in H0. injection H0 as ->.
    apply IH in H as ->.
    2:{ intros k y Hk. simpl.
        replace (fip + 1 + Z.of_nat k) with (fip + Z.of_nat (S k)) by lia.
        by apply Hcode. }
    simpl. rewrite (cell_Some _ _ _ Hstep0). by rewrite <- app_assoc.
Qed.

Lemma restores_snoc l x s S :
  restores (l ++ [x]) s S =
  RestoreVar x (cell S (s + Z.of_nat (length l))) :: restores l s S.
Proof.
  unfold restores. rewrite pair_slots_app, rev_app_distr. done.
Qed.

Lemma pop_vars_spec l : forall p sp vm sp' vm',
  (forall (k : nat) x, l !! k = Some x ->
     zlookup (bytecode (bcf vm)) (p - Z.of_nat (length l) + Z.of_nat k)
     = Some x) ->
  pop_vars (length l) p sp vm = Ret sp' vm' ->
  sp' = sp - Z.of_nat (length l) /\
  exists V,
    restore (rev (pair_slots l (sp - Z.of_nat (length l) + 1)))
      (stack vm) (vars vm) = Some V /\
    vm' = set_exit_steps
            (exit_steps vm
             ++ restores l (sp - Z.of_nat (length l) + 1) (stack vm))
            (set_vars V vm).
Proof.
  induction l as [|x l IH] using rev_ind;
    intros p sp vm sp' vm' Hcode H.
  - simpl in H. apply ret_Ret in H as [<- <-]. split; [simpl; lia|].
    exists (vars vm). split; [done|]. unfold restores. simpl.
    rewrite app_nil_r. by destruct vm.
  - rewrite length_app, Nat.add_1_r in *. simpl in H. run_inv H.
    pose proof (Hcode (length l) x) as H1.
    rewrite lookup_app_r, Nat.sub_diag in H1 by lia.
    specialize (H1 eq_refl).
    replace (p - Z.of_nat (S (length l)) + Z.of_nat (length l))
      with (p - 1) in H1 by lia.
    rewrite Hstep in H1. injection H1 as ->.
    apply IH in H as (-> & V & HV & ->).
    2:{ intros k y Hk. simpl.
        replace (p - 1 - Z.of_nat (length l) + Z.of_nat k)
          with (p - Z.of_nat (S (length l)) + Z.of_nat k) by lia.
        apply Hcode. by apply lookup_app_l_Some. }
    split; [lia|]. simpl in *.
    replace (a0.2 - Z.of_nat (length l) + 1)
      with (sp - Z.of_nat (S (length l)) + 1) in * by lia.
    exists V. split.
    + rewrite pair_slots_app, rev_app_distr. simpl.
      replace (sp - Z.of_nat (S (length l)) + 1 + Z.of_nat (length l))
        with sp by lia.
      by rewrite Hstep0, Hstep1.
    + rewrite restores_snoc.
      replace (sp - Z.of_nat (S (length l)) + 1 + Z.of_nat (length l))
        with sp by lia.
      rewrite (cell_Some _ _ _ Hstep0). by rewrite <- app_assoc.
Qed.

Lemma ts_memcpy_spec n : forall dst src vm vm' u,
  dst <= src ->
  ts_memcpy n dst src vm = Ret u vm' ->
  exists S, vm' = set_stack S vm /\
    (forall k, 0 <= k < Z.of_nat n ->
       zlookup S (dst + k) = zlookup (stack vm) (src + k)) /\
    (forall j, j < dst -> zlookup S j = zlookup (stack vm) j).
Proof.
  induction n as [|n IH]; intros dst src vm vm' u Hle H; simpl in H.
  - apply ret_Ret in H as [_ <-]. exists (stack vm).
    split; [by destruct vm|]. split; [intros; lia|done].
  - run_inv H. apply IH in H as (S & -> & Hcopy & Hlow); [|lia].
    exists S. split; [done|]. simpl in *. split.
    + intros k Hk. destruct (decide (k = 0)) as [->|Hk0].
      * rewrite !Z.add_0_r, Hlow by lia.
        rewrite Hstep. eapply zstore_lookup_eq; eauto.
      * replace (dst + k) with (dst + 1 + (k - 1)) by lia.
        rewrite Hcopy by lia.
        replace (src + 1 + (k - 1)) with (src + k) by lia.
        eapply zstore_lookup_ne; eauto. lia.
    + intros j Hj. rewrite Hlow by lia.
      eapply zstore_lookup_ne; eauto. lia.
Qed.

Lemma VMASSERT_Ret cfg b what u vm vm' :
  VMASSERT cfg b what vm = Ret u vm' ->
  vm' = vm /\ (VMASSERT_ON cfg = true -> b = true).
Proof.
  unfold VMASSERT, when, VMAssert. destruct (VMASSERT_ON cfg).
  - destruct b; simpl.
    + by intros [_ <-]%ret_Ret.
    + intros (? & ? & Hs & _)%bind_Ret. by apply SeriousError_not_Ret in Hs.
  - intros [_ <-]%ret_Ret. split; [done|discriminate].
Qed.

Lemma while_dec_length (l : list Z) body :
  while_dec (Z.of_nat (length l)) body = body (length l).
Proof.
  unfold while_dec. rewrite decide_True by lia. by rewrite Nat2Z.id.
Qed.

(** ** Function exit, as a whole *)

Lemma FunOut_inv cfg h ip sp nrv vm f sp' vm' :
  header_at (bytecode (bcf vm)) ip h ->
  back (stackframes vm) = Some f ->
  funstart f = Some ip ->
  FunOut cfg sp nrv vm = Ret sp' vm' ->
  let nk := Z.of_nat (Z.to_nat (h_nkeep h)) in
  let nd := Z.of_nat (length (h_defs h)) in
  let na := Z.of_nat (length (h_args h)) in
  let d := sp - nrv in
  restore (rev (pair_slots (h_args h) (d - nk - nd - na + 1)
                ++ pair_slots (h_defs h) (d - nk - nd + 1)))
    (stack vm) (vars vm) = Some (vars vm') /\
  exit_steps vm' =
    exit_steps vm ++ exit_order h (vars vm) (stack vm) d nrv /\
  stackframes vm' = pop_back (stackframes vm) /\
  sp' = d - nk - nd - na + nrv /\
  (VMASSERT_ON cfg = true -> d = spstart f) /\
  (forall k, 0 <= k < nrv ->
     zlookup (stack vm') (d - nk - nd - na + 1 + k)
     = zlookup (stack vm) (d + 1 + k)) /\
  (forall j, j <= d - nk - nd - na ->
     zlookup (stack vm') j = zlookup (stack vm) j).
Proof.
  intros Hh Hback Hfs H nk nd na d. unfold FunOut in H.
  apply bind_Ret in H as (stf & ? & Hb & H).
  apply lift_opt_Ret in Hb as [Hb ->]. rewrite Hback in Hb.
  injection Hb as <-.
  apply bind_Ret in H as (? & ? & Ha & H).
  apply VMASSERT_Ret in Ha as [-> Hassert].
  apply bind_Ret in H as (fip & ? & Hf & H).
  apply lift_opt_Ret in Hf as [Hf ->]. rewrite Hfs in Hf. injection Hf as <-.
  apply bind_Ret in H as (n & ? & Hn & H). apply code_at_Ret in Hn as [Hn ->].
  rewrite (header_nargs _ _ _ Hh) in Hn. injection Hn as <-.
  apply bind_Ret in H as (n & ? & Hn & H). apply code_at_Ret in Hn as [Hn ->].
  replace (ip + 1 + 1 + Z.of_nat (length (h_args h)))
    with (ip + 2 + Z.of_nat (length (h_args h))) in Hn by lia.
  rewrite (header_ndef _ _ _ Hh) in Hn. injection Hn as <-.
  apply bind_Ret in H as (n & ? & Hn & H). apply code_at_Ret in Hn as [Hn ->].
  replace (ip + 1 + 1 + Z.of_nat (length (h_args h)) + 1
           + Z.of_nat (length (h_defs h)))
    with (ip + 3 + Z.of_nat (length (h_args h))
          + Z.of_nat (length (h_defs h))) in Hn by lia.
  rewrite (header_nkeep _ _ _ Hh) in Hn. injection Hn as <-.
  apply bind_Ret in H as (spk & ? & Hk & H).
  apply dec_keeps_spec in Hk as (-> & ->).
  apply bind_Ret in H as (n & ? & Hn & H). apply code_at_Ret in Hn as [Hn ->].
  simpl in Hn.
  replace (ip + 1 + 1 + Z.of_nat (length (h_args h)) + 1
           + Z.of_nat (length (h_defs h)) + 1)
    with (ip + 4 + Z.of_nat (length (h_args h))
          + Z.of_nat (length (h_defs h))) in Hn by lia.
  rewrite (header_nowned _ _ _ Hh) in Hn. injection Hn as <-.
  apply bind_Ret in H as (? & ? & Ho & H). rewrite Nat2Z.id in Ho.
  apply dec_owned_spec in Ho as ->.
  2:{ intros k0 y Hk0. simpl.
      replace (ip + 1 + 1 + Z.of_nat (length (h_args h)) + 1
               + Z.of_nat (length (h_defs h)) + 1 + 1 + Z.of_nat k0)
        with (ip + 5 + Z.of_nat (length (h_args h))
              + Z.of_nat (length (h_defs h)) + Z.of_nat k0) by lia.
      by apply (header_owned _ _ _ Hh). }
  apply bind_Ret in H as (spd & ? & Hd & H). rewrite while_dec_length in Hd.
  apply pop_vars_spec in Hd as (-> & V1 & HV1 & ->).
  2:{ intros k0 y Hk0. simpl.
      replace (ip + 1 + 1 + Z.of_nat (length (h_args h)) + 1
               + Z.of_nat (length (h_defs h))
               - Z.of_nat (length (h_defs h)) + Z.of_nat k0)
        with (ip + 3 + Z.of_nat (length (h_args h)) + Z.of_nat k0) by lia.
      by apply (header_def _ _ _ Hh). }
  apply bind_Ret in H as (spa & ? & Hp & H). rewrite while_dec_length in Hp.
  apply pop_vars_spec in Hp as (-> & V2 & HV2 & ->).
  2:{ intros k0 y Hk0. simpl.
      replace (ip + 1 + 1 + Z.of_nat (length (h_args h))
               - Z.of_nat (length (h_args h)) + Z.of_nat k0)
        with (ip + 2 + Z.of_nat k0) by lia.
      by apply (header_arg _ _ _ Hh). }
  apply bind_Ret in H as (? & ? & Hm & H). apply modify_Ret in Hm as ->.
  apply bind_Ret in H as (? & ? & Hl & H). apply log_step_Ret in Hl as ->.
  apply bind_Ret in H as (? & ? & Hc & H).
  apply ts_memcpy_spec in Hc as (S3 & -> & Hcopy & Hlow); [|lia].
  apply bind_Ret in H as (? & ? & Hl & H). apply log_step_Ret in Hl as ->.
  apply ret_Ret in H as [<- <-]. simpl in *.
  fold nk nd na d in HV1, HV2, Hcopy, Hlow |- *.
  replace (d - nk - nd + 1) with (d - nk - nd + 1) in * by lia.
  split; [|split; [|split; [|split; [|split; [|split]]]]].
  - rewrite rev_app_distr, restore_app.
    replace (d - nk - nd - na + 1) with (d - nk - nd - na + 1) by lia.
    by rewrite HV1.
  - unfold exit_order. fold nk nd na. rewrite <- !app_assoc. done.
  - done.
  - lia.
  - intros Hon. specialize (Hassert Hon).
    by apply bool_decide_eq_true in Hassert.
  - intros k Hk. rewrite Hcopy by lia. done.
  - intros j Hj. apply Hlow. lia.
Qed.

(** ** Saved cells and their restore *)

Lemma restore_is_Some l S : forall V V',
  restore l S V = Some V' -> forall v, v ∈ l.*1 -> is_Some (zlookup V' v).
Proof.
  assert (Hkeep : forall l V V' v,
    restore l S V = Some V' -> is_Some (zlookup V v) ->
    is_Some (zlookup V' v)).
  { clear l. induction l as [|[u s] l IH]; intros V V' v H Hv; simpl in H.
    - by injection H as <-.
    - destruct (zlookup S s) as [x|]; [|done].
      destruct (zstore V u x) as [V1|] eqn:Hst; [|done].
      eapply IH; eauto.
      destruct (decide (v = u)) as [->|Hne].
      + erewrite zstore_lookup_eq; eauto.
      + erewrite zstore_lookup_ne; eauto. }
  induction l as [|[u s] l IH]; intros V V' H v Hv; simpl in *.
  - by apply elem_of_nil in Hv.
  - destruct (zlookup S s) as [x|]; [|done].
    destruct (zstore V u x) as [V1|] eqn:Hst; [|done].
    apply elem_of_cons in Hv as [->|Hv].
    + eapply Hkeep; eauto. erewrite zstore_lookup_eq; eauto.
    + eapply IH; eauto.
Qed.

Lemma elem_of_fst_rev (l : list (Z * Z)) v : v ∈ (rev l).*1 <-> v ∈ l.*1.
Proof.
  rewrite !list_elem_of_fmap. split; intros (p & -> & Hp); exists p;
    (split; [done|]); apply list_elem_of_In; apply list_elem_of_In in Hp.
  - by apply in_rev.
  - by apply in_rev in Hp.
Qed.

Lemma restore_other l S : forall V V',
  restore l S V = Some V' ->
  forall u, u ∉ l.*1 -> zlookup V' u = zlookup V u.
Proof.
  induction l as [|[v s] l IH]; intros V V' H u Hu; simpl in H.
  - by injection H as <-.
  - destruct (zlookup S s) as [x|]; [|done].
    destruct (zstore V v x) as [V1|] eqn:Hst; [|done].
    rewrite fmap_cons in Hu. apply not_elem_of_cons in Hu as [Hne Hu].
    rewrite (IH _ _ H u Hu). eapply zstore_lookup_ne; eauto.
Qed.

Lemma restore_last l S : forall V V',
  NoDup l.*1 -> restore l S V = Some V' ->
  forall v s, (v, s) ∈ l ->
    zlookup V' v = zlookup S s /\ is_Some (zlookup S s).
Proof.
  induction l as [|[u s0] l IH]; intros V V' Hnd H v s Hin; simpl in H.
  - by apply elem_of_nil in Hin.
  - destruct (zlookup S s0) as [x|] eqn:Hx; [|done].
    destruct (zstore V u x) as [V1|] eqn:Hst; [|done].
    rewrite fmap_cons in Hnd. apply NoDup_cons in Hnd as [Hu Hnd].
    apply elem_of_cons in Hin as [[= -> ->]|Hin].
    + rewrite Hx. split; [|eauto].
      rewrite (restore_other _ _ _ _ H u Hu).
      eapply zstore_lookup_eq; eauto.
    + eapply IH; eauto.
Qed.

Lemma pair_slots_elem l : forall s (k : nat) v,
  l !! k = Some v -> (v, s + Z.of_nat k) ∈ pair_slots l s.
Proof.
  induction l as [|x l IH]; intros s k v Hk; [done|].
  destruct k as [|k]; simpl in *.
  - injection Hk as ->. rewrite Z.add_0_r. left.
  - right. replace (s + Z.of_nat (Datatypes.S k))
      with (s + 1 + Z.of_nat k) by lia. apply (IH (s + 1)). exact Hk.
Qed.

Lemma returned_final_state {A} (o : outcome VM A) a d :
  returned o = Some a -> o = Ret a (final_state o d).
Proof. destruct o; simpl; intros [= <-]; done. Qed.

Lemma ex_header_at : header_at (bytecode (bcf ex_vm0)) 3 ex_header.
Proof. exists [11; 12; 13], [99]. done. Qed.

(** ** Function-exit order *)

(** C3. Function-exit order: a normal return through [FunOut] performs,
    in this order, one decrement per keep slot (popped top first), one
    decrement per owned global of the header, the restores of the def
    globals and then of the arg globals, each list last first, then
    discards the frame and moves the [nrv] return cells down to the
    caller's top of stack.  The decrements act on the heap, which the VM
    state does not hold, so they show as the entries of [exit_steps]; an
    owned global's entry carries the value the global held before any
    restore.  The restores show in [vars]: the globals after the return
    are those before it with each def global, last first, and then each
    arg global, last first, overwritten by the cell of its slot in the
    stack as it was before the return cells moved; no other global
    changes, and for a header that names no global twice each listed
    global holds exactly the cell of its slot.  The frame list loses its
    last frame, and the stack below the frame is untouched. *)
Theorem FunOut_epilogue_order cfg h ip sp nrv vm f sp' vm' :
  header_at (bytecode (bcf vm)) ip h ->
  back (stackframes vm) = Some f ->
  funstart f = Some ip ->
  FunOut cfg sp nrv vm = Ret sp' vm' ->
  exit_steps vm' =
    exit_steps vm ++ exit_order h (vars vm) (stack vm) (sp - nrv) nrv /\
  stackframes vm' = pop_back (stackframes vm) /\
  sp' = sp - Z.of_nat (Z.to_nat (h_nkeep h)) - Z.of_nat (length (h_defs h))
        - Z.of_nat (length (h_args h)) /\
  (forall k, 0 <= k < nrv ->
     zlookup (stack vm') (sp' - nrv + 1 + k)
     = zlookup (stack vm) (sp - nrv + 1 + k)) /\
  restore (rev (pair_slots (h_args h) (sp' - nrv + 1)
                ++ pair_slots (h_defs h)
                     (sp' - nrv + Z.of_nat (length (h_args h)) + 1)))
    (stack vm) (vars vm) = Some (vars vm') /\
  (forall u, u ∉ h_args h ++ h_defs h ->
     zlookup (vars vm') u = zlookup (vars vm) u) /\
  (NoDup (h_args h ++ h_defs h) ->
     (forall (k : nat) a, h_args h !! k = Some a ->
        exists x,
          zlookup (stack vm) (sp' - nrv + 1 + Z.of_nat k) = Some x /\
          zlookup (vars vm') a = Some x) /\
     (forall (k : nat) d, h_defs h !! k = Some d ->
        exists x,
          zlookup (stack vm)
            (sp' - nrv + Z.of_nat (length (h_args h)) + 1 + Z.of_nat k)
          = Some x /\
          zlookup (vars vm') d = Some x)) /\
  (forall j, j <= sp' - nrv -> zlookup (stack vm') j = zlookup (stack vm) j).
Proof.
  intros Hh Hback Hfs Hout.
  destruct (FunOut_inv _ _ _ _ _ _ _ _ _ Hh Hback Hfs Hout)
    as (Hres & Hsteps & Hfr & Hsp & _ & Hcopy & Hlow).
  assert (Hsp' : sp' = sp - Z.of_nat (Z.to_nat (h_nkeep h))
                       - Z.of_nat (length (h_defs h))
                       - Z.of_nat (length (h_args h))) by lia.
  replace (sp - nrv - Z.of_nat (Z.to_nat (h_nkeep h))
           - Z.of_nat (length (h_defs h)) - Z.of_nat (length (h_args h)) + 1)
    with (sp' - nrv + 1) in Hres by lia.
  replace (sp - nrv - Z.of_nat (Z.to_nat (h_nkeep h))
           - Z.of_nat (length (h_defs h)) + 1)
    with (sp' - nrv + Z.of_nat (length (h_args h)) + 1) in Hres by lia.
  set (l := pair_slots (h_args h) (sp' - nrv + 1)
            ++ pair_slots (h_defs h)
                 (sp' - nrv + Z.of_nat (length (h_args h)) + 1)) in *.
  assert (Hfst : (rev l).*1 ≡ₚ h_args h ++ h_defs h).
  { rewrite rev_alt. change (rev_append l []) with (reverse l).
    rewrite fmap_reverse, reverse_Permutation. unfold l.
    by rewrite fmap_app, !pair_slots_fst. }
  split; [exact Hsteps|]. split; [exact Hfr|]. split; [exact Hsp'|].
  split. { intros k Hk. rewrite <- Hcopy by lia. f_equal. lia. }
  split; [exact Hres|]. split.
  { intros u Hu. apply (restore_other _ _ _ _ Hres). by rewrite Hfst. }
  split.
  2:{ intros j Hj. apply Hlow. lia. }
  intros Hnd.
  assert (Hcell : forall v s, (v, s) ∈ l ->
            exists x, zlookup (stack vm) s = Some x /\
                      zlookup (vars vm') v = Some x).
  { intros v s Hin.
    destruct (restore_last _ _ _ _ ltac:(by rewrite Hfst) Hres v s)
      as [E [x Hx]].
    - rewrite rev_alt. change (rev_append l []) with (reverse l).
      by apply elem_of_reverse.
    - exists x. by rewrite E. }
  split.
  - intros k a Hk. apply Hcell. unfold l. apply elem_of_app. left.
    by apply pair_slots_elem.
  - intros k d Hk. apply Hcell. unfold l. apply elem_of_app. right.
    by apply pair_slots_elem.
Qed.

Lemma ex_header_at_exit : header_at (bytecode (bcf ex_vm2)) 3 ex_header.
Proof. exists [11; 12; 13], [99]. split; vm_compute; reflexivity. Qed.

Lemma FunOut_epilogue_order_witness :
  exit_steps ex_vm3 =
    exit_steps ex_vm2
    ++ exit_order ex_header (vars ex_vm2) (stack ex_vm2) (4 - 1) 1 /\
  stackframes ex_vm3 = pop_back (stackframes ex_vm2) /\
  0 = 4 - Z.of_nat (Z.to_nat (h_nkeep ex_header))
        - Z.of_nat (length (h_defs ex_header))
        - Z.of_nat (length (h_args ex_header)) /\
  (forall k, 0 <= k < 1 ->
     zlookup (stack ex_vm3) (0 - 1 + 1 + k)
     = zlookup (stack ex_vm2) (4 - 1 + 1 + k)) /\
  restore (rev (pair_slots (h_args ex_header) (0 - 1 + 1)
                ++ pair_slots (h_defs ex_header)
                     (0 - 1 + Z.of_nat (length (h_args ex_header)) + 1)))
    (stack ex_vm2) (vars ex_vm2) = Some (vars ex_vm3) /\
  (forall u, u ∉ h_args ex_header ++ h_defs ex_header ->
     zlookup (vars ex_vm3) u = zlookup (vars ex_vm2) u) /\
  (NoDup (h_args ex_header ++ h_defs ex_header) ->
     (forall (k : nat) a, h_args ex_header !! k = Some a ->
        exists x,
          zlookup (stack ex_vm2) (0 - 1 + 1 + Z.of_nat k) = Some x /\
          zlookup (vars ex_vm3) a = Some x) /\
     (forall (k : nat) d, h_defs ex_header !! k = Some d ->
        exists x,
          zlookup (stack ex_vm2)
            (0 - 1 + Z.of_nat (length (h_args ex_header)) + 1 + Z.of_nat k)
          = Some x /\
          zlookup (vars ex_vm3) d = Some x)) /\
  (forall j, j <= 0 - 1 -> zlookup (stack ex_vm3) j = zlookup (stack ex_vm2) j).
Proof.
  apply (FunOut_epilogue_order ex_cfg ex_header 3 4 1 ex_vm2
           {| funstart := Some 3; spstart := 3 |} 0 ex_vm3).
  - apply ex_header_at_exit.
  - vm_compute. reflexivity.
  - reflexivity.
  - apply returned_final_state. vm_compute. reflexivity.
Defined.

(** The globals of the concrete exit: the callee left 7, 8, 9 in globals
    1, 2, 3; the return puts back 11, 12, 13 from the frame's slots and
    leaves globals 0 and 4 alone. *)
Example ex_exit_vars :
  vars ex_vm2 = int_Value <$> [10; 7; 8; 9; 14] /\
  vars ex_vm3 = int_Value <$> [10; 11; 12; 13; 14].
Proof. split; vm_compute; reflexivity. Qed.

(** The steps of the concrete exit: the keep slot, the owned global with
    the value the callee left in it, then globals 3, 2, 1 in that order. *)
Example ex_exit_steps :
  exit_steps ex_vm3 =
  [DecKeep (int_Value 44); DecOwned 1 (int_Value 7);
   RestoreVar 3 (int_Value 13); RestoreVar 2 (int_Value 12);
   RestoreVar 1 (int_Value 11); PopFrame; MoveRets 1].
Proof. vm_compute. reflexivity. Qed.

(** ** Stack sizing *)

Lemma FunIntro_overflow cfg sp ip vm :
  sp > stacksize vm - STACKMARGIN ->
  stacksize vm >= maxstacksize vm ->
  match FunIntro cfg sp ip vm with
  | Ret _ _ => False
  | Unwound _ vm' =>
      stack vm' = stack vm /\ stacksize vm' = stacksize vm /\
      exists pre,
        errmsg vm' =
        pre +:+ "stack overflow! (use set_max_stack_size() if needed)"
  | Undef => (trace_ring_idx vm > length (trace_output vm))%nat
  end.
Proof.
  intros Hsp Hmax. unfold FunIntro, bind at 1, modify. unfold bind at 1.
  unfold grow_stack at 1. simpl stacksize. simpl maxstacksize.
  rewrite decide_True by done. unfold bind at 1. unfold bind at 1.
  unfold when. rewrite bool_decide_eq_true_2 by done. unfold bind at 1.
  match goal with |- context [SeriousError cfg ?e ?s] =>
    pose proof (SeriousError_cases cfg e s) as Hc;
    destruct (SeriousError cfg e s) as [a s'|e' s'|] end.
  - done.
  - destruct Hc as (Hpre & _ & m & b & ->). simpl. auto.
  - exact Hc.
Qed.

Lemma grow_stack_grows cfg sp vm :
  sp > stacksize vm - STACKMARGIN ->
  stacksize vm < maxstacksize vm ->
  0 <= sp + 1 <= Z.of_nat (length (stack vm)) ->
  sp + 1 <= stacksize vm * 2 ->
  grow_stack cfg sp vm =
  Ret sp (set_stack
            (take (Z.to_nat (sp + 1)) (stack vm)
             ++ replicate (Z.to_nat (stacksize vm * 2 - (sp + 1))) nil_Value)
            (set_stacksize (stacksize vm * 2) vm)).
Proof.
  intros Hsp Hmax Hlen Hfit. unfold grow_stack.
  rewrite decide_True by done. unfold bind at 1, when.
  rewrite bool_decide_eq_false_2 by lia. unfold ret.
  unfold t_memcpy. rewrite decide_True.
  2:{ rewrite length_replicate. lia. }
  rewrite drop_replicate. do 4 f_equal. lia.
Qed.

(** C2, as the code has it. The stack is created at VM construction with
    32K cells and a maximum of 512K. On function entry [FunIntro], when
    the depth is past [stacksize - 8K]: if the current size has already
    reached the maximum, a serious error with the stack-overflow text is
    raised and the stack is left as it was; otherwise the size is doubled
    (whatever that is against the maximum), the new buffer has the
    doubled length, and the cells up to [sp] are copied. Otherwise the
    stack keeps its size. *)
Theorem stack_sizing cfg :
  (forall a,
     stacksize (VM_new a) = 32 * 1024 /\
     length (stack (VM_new a)) = Z.to_nat (32 * 1024) /\
     maxstacksize (VM_new a) = 512 * 1024) /\
  (forall sp ip vm,
     sp > stacksize vm - 8 * 1024 ->
     stacksize vm >= maxstacksize vm ->
     match FunIntro cfg sp ip vm with
     | Ret _ _ => False
     | Unwound _ vm' =>
         stack vm' = stack vm /\ stacksize vm' = stacksize vm /\
         exists pre,
           errmsg vm' =
           pre +:+ "stack overflow! (use set_max_stack_size() if needed)"
     | Undef => (trace_ring_idx vm > length (trace_output vm))%nat
     end) /\
  (forall sp vm,
     sp > stacksize vm - 8 * 1024 ->
     stacksize vm < maxstacksize vm ->
     0 <= sp + 1 <= Z.of_nat (length (stack vm)) ->
     sp + 1 <= stacksize vm * 2 ->
     grow_stack cfg sp vm =
     Ret sp (set_stack
               (take (Z.to_nat (sp + 1)) (stack vm)
                ++ replicate (Z.to_nat (stacksize vm * 2 - (sp + 1)))
                     nil_Value)
               (set_stacksize (stacksize vm * 2) vm))) /\
  (forall h sp ip vm sp1 vm1,
     header_at (bytecode (bcf vm)) ip h ->
     FunIntro cfg sp ip vm = Ret sp1 vm1 ->
     if decide (sp > stacksize vm - 8 * 1024)
     then stacksize vm < maxstacksize vm /\
          stacksize vm1 = stacksize vm * 2 /\
          length (stack vm1) = Z.to_nat (stacksize vm * 2) /\
          forall j, 0 <= j <= sp - Z.of_nat (length (h_args h)) ->
            zlookup (stack vm1) j = zlookup (stack vm) j
     else stacksize vm1 = stacksize vm /\
          length (stack vm1) = length (stack vm)).
Proof.
  split; [|split; [|split]].
  - intros a. split; [done|]. split; [|done]. apply length_replicate.
  - apply FunIntro_overflow.
  - apply grow_stack_grows.
  - intros h sp ip vm sp1 vm1 Hh Hin.
    destruct (FunIntro_inv _ _ _ _ _ _ _ Hh Hin)
      as (Sg & Sd & Hsaved & Hcopy & Hlow & Hsp1 & _ & _ & Hlen & Hsize).
    change (8 * 1024) with STACKMARGIN.
    destruct (decide (sp > stacksize vm - STACKMARGIN)).
    + destruct Hsize as (Hlt & Hz & HSg). split; [done|].
      split; [done|]. split; [congruence|].
      intros j Hj. rewrite Hlow by lia.
      pose proof (saved_slot_other _ _ _ j Hsaved) as Ho. simpl in Ho.
      rewrite Ho; [apply Hcopy; lia|].
      rewrite fmap_app, !pair_slots_snd.
      intros [Hs|Hs]%elem_of_app; apply elem_of_seqZ in Hs; lia.
    + destruct Hsize as (Hz & ->). split; [done|]. done.
Qed.

Lemma ex_header_at_3mb : header_at (bytecode (bcf ex_vm_3mb)) 3 ex_header.
Proof. exists [11; 12; 13], [99]. split; vm_compute; reflexivity. Qed.

Lemma stack_sizing_witness :
  stacksize (final_state (FunIntro ex_cfg 262000 3 ex_vm_3mb) ex_vm0)
  = 512 * 1024 /\
  match FunIntro ex_cfg 524000 3 ex_vm_full with
  | Ret _ _ => False
  | Unwound _ vm' =>
      stack vm' = stack ex_vm_full /\ stacksize vm' = stacksize ex_vm_full /\
      exists pre,
        errmsg vm' =
        pre +:+ "stack overflow! (use set_max_stack_size() if needed)"
  | Undef =>
      (trace_ring_idx ex_vm_full > length (trace_output ex_vm_full))%nat
  end.
Proof.
  destruct (stack_sizing ex_cfg) as (_ & Hover & _ & Hgrow). split.
  - specialize (Hgrow ex_header 262000 3 ex_vm_3mb 262002
                  (final_state (FunIntro ex_cfg 262000 3 ex_vm_3mb) ex_vm0)
                  ex_header_at_3mb).
    rewrite decide_True in Hgrow by (vm_compute; reflexivity).
    destruct Hgrow as (_ & -> & _).
    + apply returned_final_state. vm_compute. reflexivity.
    + vm_compute. reflexivity.
  - apply Hover; vm_compute; congruence.
Defined.

(** The claim as worded fails: with the maximum set to 3 MB (384K cells)
    and the stack at 256K cells, doubling passes the maximum, and entry
    grows the stack to 512K cells all the same. *)
Lemma overflow_when_doubling_exceeds_fails :
  ~ overflow_when_doubling_exceeds ex_cfg.
Proof.
  intros H.
  eapply (H 262000 3 ex_vm_3mb).
  - vm_compute. reflexivity.
  - vm_compute. reflexivity.
  - apply (returned_final_state _ 262002 ex_vm0). vm_compute. reflexivity.
Qed.

(** ** Trace ring *)

Lemma ring_step {A} (out : list A) (i : nat) x R :
  (i < length out)%nat ->
  drop i out ++ take i out = R ->
  drop (S i) (<[i := x]> out) ++ take (S i) (<[i := x]> out)
  = drop 1 R ++ [x].
Proof.
  intros Hi <-.
  destruct (lookup_lt_is_Some_2 out i Hi) as [y Hy].
  pose proof (take_drop_middle out i y Hy) as Hsplit.
  assert (Hlen : length (take i out) = i) by (rewrite length_take; lia).
  revert Hsplit Hlen.
  generalize (take i out) (drop (S i) out). intros l1 l2 <- Hlen.
  rewrite insert_app_r_alt by lia.
  rewrite !drop_app_ge, !take_app_ge by lia. rewrite Hlen.
  replace (S i - i)%nat with 1%nat by lia. rewrite Nat.sub_diag.
  simpl. rewrite drop_0, take_0.
  rewrite (drop_app_ge l1) by lia. rewrite Hlen, Nat.sub_diag. simpl.
  by rewrite drop_0, <- app_assoc.
Qed.

Lemma trace_size_pos vm : (1 <= trace_size vm)%nat.
Proof. unfold trace_size. destruct (decide _); lia. Qed.

Lemma trace_call_step hist vm x :
  ring_inv hist vm ->
  exists vm',
    (slot <- TraceStream ;; append_slot slot x) vm = Ret tt vm' /\
    ring_inv (hist ++ [x]) vm' /\ vmargs vm' = vmargs vm.
Proof.
  pose proof (trace_size_pos vm) as Hpos.
  intros Hinv.
  set (out0 := if decide (length (trace_output vm) < trace_size vm)%nat
               then resize (trace_size vm) "" (trace_output vm)
               else trace_output vm).
  set (i0 := if decide (trace_ring_idx vm = trace_size vm) then 0%nat
             else trace_ring_idx vm).
  assert (Hfacts : length out0 = trace_size vm /\ (i0 < trace_size vm)%nat /\
            drop i0 out0 ++ take i0 out0
            = drop (length hist) (replicate (trace_size vm) "" ++ hist)).
  { destruct Hinv as [(Hout & Hidx & ->)|(Hlen & Hidx & Hring)].
    - unfold out0, i0. rewrite Hout, Hidx. simpl length.
      rewrite decide_True by lia. rewrite decide_False by lia.
      rewrite resize_nil, length_replicate. split; [done|]. split; [lia|].
      simpl. by rewrite drop_0, !app_nil_r.
    - assert (Hout0 : out0 = trace_output vm).
      { unfold out0. by rewrite decide_False by lia. }
      rewrite Hout0. clear Hout0. split; [done|].
      unfold ring_entries in Hring. unfold i0.
      destruct (decide (trace_ring_idx vm = trace_size vm)) as [Heq|Hne].
      + split; [lia|]. rewrite <- Hring, Heq, <- Hlen.
        by rewrite drop_all, firstn_all, drop_0, take_0, app_nil_r.
      + split; [lia|]. done. }
  destruct Hfacts as (Hlen0 & Hi0 & Hring0).
  exists (set_trace_output (<[i0 := x]> out0)
            (set_trace_ring_idx (S i0) vm)).
  split; [|split].
  - unfold bind, TraceStream. fold (trace_size vm). fold out0. fold i0.
    rewrite decide_True by lia. unfold append_slot. simpl.
    rewrite list_lookup_insert_eq by lia.
    rewrite list_insert_insert_eq. done.
  - right.
    match goal with |- context [trace_size ?s] =>
      change (trace_size s) with (trace_size vm) end.
    unfold ring_entries. simpl.
    rewrite length_insert. split; [done|].
    split; [lia|].
    rewrite (ring_step out0 i0 x _ ltac:(lia) Hring0).
    rewrite drop_drop, length_app. simpl length.
    rewrite (app_assoc _ hist [x]).
    rewrite (drop_app_le (_ ++ hist)).
    2:{ rewrite length_app, length_replicate.
        fold (trace_size vm). lia. }
    done.
  - done.
Qed.

Lemma trace_calls_inv texts : forall hist vm,
  ring_inv hist vm ->
  exists vm',
    trace_calls texts vm = Ret tt vm' /\
    ring_inv (hist ++ texts) vm' /\ vmargs vm' = vmargs vm.
Proof.
  induction texts as [|x texts IH]; intros hist vm Hinv; simpl.
  - exists vm. by rewrite app_nil_r.
  - destruct (trace_call_step hist vm x Hinv) as (vm1 & Hrun & Hinv1 & Ha1).
    destruct (IH (hist ++ [x]) vm1 Hinv1) as (vm2 & Hrun2 & Hinv2 & Ha2).
    exists vm2. split; [|split].
    + unfold bind in *.
      destruct (TraceStream vm) as [slot s| |]; [|done|done].
      destruct (append_slot slot x s) as [u s'| |]; [|done|done].
      injection Hrun as _ ->. exact Hrun2.
    + by rewrite <- app_assoc in Hinv2.
    + congruence.
Qed.

(** [CVM_Trace] is one such call: what it leaves in the slot is the text
    it appended piece by piece. *)
Lemma CVM_Trace_as_call cfg tsb sp op vm vm' :
  CVM_Trace cfg tsb sp op vm = Ret tt vm' ->
  exists text,
    (slot <- TraceStream ;; append_slot slot text) vm = Ret tt vm'.
Proof.
  unfold CVM_Trace. intros H.
  apply bind_Ret in H as (slot & vm1 & Hts & H).
  apply bind_Ret in H as (u1 & vm2 & Ha1 & H).
  apply bind_Ret in H as (r & vm3 & Hr & H).
  apply bind_Ret in H as (u2 & vm4 & Ha2 & H).
  apply bind_Ret in H as (tl & vm5 & Hg & H).
  unfold gets in Hg. injection Hg as <- <-.
  assert (Hvm3 : vm3 = vm2).
  { unfold rtt_text in Hr. destruct (RTT_ENABLED cfg).
    - destruct (decide (sp >= 0)).
      + run_inv Hr. destruct (decide (sp > 0)).
        * run_inv Hr. by apply ret_Ret in Hr as [_ <-].
        * by apply ret_Ret in Hr as [_ <-].
      + by apply ret_Ret in Hr as [_ <-].
    - by apply ret_Ret in Hr as [_ <-]. }
  subst vm3.
  unfold append_slot in Ha1.
  destruct (trace_output vm1 !! slot) as [s0|] eqn:Hs0; [|done].
  injection Ha1 as _ <-.
  unfold append_slot in Ha2. simpl in Ha2.
  assert (Hlt : (slot < length (trace_output vm1))%nat)
    by (eapply lookup_lt_Some; eauto).
  rewrite list_lookup_insert_eq in Ha2 by done.
  injection Ha2 as _ <-. simpl in H.
  rewrite list_insert_insert_eq in H.
  exists (op +:+ r +:+
          if bool_decide (trace (vmargs vm1) = TAIL) then nl else "").
  unfold bind. rewrite Hts. unfold append_slot. rewrite Hs0.
  destruct (bool_decide (trace (vmargs vm1) = TAIL)).
  - unfold append_slot in H. simpl in H.
    rewrite list_lookup_insert_eq in H by done.
    rewrite list_insert_insert_eq in H. rewrite <- H.
    by rewrite !string_app_assoc.
  - apply ret_Ret in H as [_ <-]. rewrite string_app_nil_r.
    by rewrite !string_app_assoc.
Qed.

Lemma drop_padded (n : nat) (texts : list string) :
  drop (length texts) (replicate n "" ++ texts) =
  if decide (length texts < n)%nat
  then replicate (n - length texts) "" ++ texts
  else drop (length texts - n) texts.
Proof.
  destruct (decide _) as [Hlt|Hge].
  - rewrite drop_app_le by (rewrite length_replicate; lia).
    by rewrite drop_replicate.
  - rewrite drop_app_ge by (rewrite length_replicate; lia).
    by rewrite length_replicate.
Qed.

(** C6. Trace ring bound: from the ring a new VM starts with, after any
    run of trace calls, in TAIL mode the ring holds at most 50 entries,
    its index stays within 50, the ring read from the index on is the
    last 50 texts (behind empty strings while fewer were traced), and a
    call made with the index at 50 takes slot 0; in ON mode the ring is
    the single last text. *)
Theorem trace_ring_bound texts vm :
  trace_output vm = [] ->
  trace_ring_idx vm = 0%nat ->
  exists vm',
    trace_calls texts vm = Ret tt vm' /\
    (trace (vmargs vm) = TAIL ->
       (length (trace_output vm') <= 50)%nat /\
       (trace_ring_idx vm' <= 50)%nat /\
       (texts <> [] -> (length texts < 50)%nat ->
          ring_entries vm' = replicate (50 - length texts) "" ++ texts) /\
       ((50 <= length texts)%nat ->
          ring_entries vm' = drop (length texts - 50) texts) /\
       (trace_ring_idx vm' = 50%nat ->
          exists vm'', TraceStream vm' = Ret 0%nat vm'' /\
                       trace_ring_idx vm'' = 1%nat)) /\
    (trace (vmargs vm) = ON ->
       forall x, last texts = Some x ->
         trace_output vm' = [x] /\ trace_ring_idx vm' = 1%nat).
Proof.
  intros Hout Hidx.
  destruct (trace_calls_inv texts [] vm) as (vm' & Hrun & Hinv & Hargs).
  { left. done. }
  exists vm'. split; [done|]. change ([] ++ texts) with texts in Hinv.
  unfold ring_inv in Hinv.
  assert (Hsz : trace_size vm' = trace_size vm).
  { unfold trace_size. by rewrite Hargs. }
  split.
  - intros Htail.
    assert (H50 : trace_size vm = 50%nat).
    { unfold trace_size. by rewrite decide_True. }
    rewrite Hsz, H50 in Hinv.
    destruct Hinv as [(Ho & Hi & ->)|(Hlen & Hi & Hring)].
    + rewrite Ho, Hi. simpl. split; [lia|]. split; [lia|].
      split; [done|]. split; [lia|]. intros [=].
    + rewrite drop_padded in Hring.
      split; [lia|]. split; [lia|]. split; [|split].
      * intros _ Hlt. by rewrite decide_True in Hring by done.
      * intros Hge. by rewrite decide_False in Hring by lia.
      * intros Hi50. unfold TraceStream. rewrite Hargs.
        rewrite (decide_True (P := trace (vmargs vm) = TAIL)) by done.
        cbn iota.
        rewrite (decide_False (P := (length (trace_output vm') < 50)%nat))
          by lia.
        rewrite (decide_True (P := trace_ring_idx vm' = 50%nat)) by done.
        rewrite decide_True by lia. eexists. split; [done|]. done.
  - intros Hon x Hlast.
    assert (H1 : trace_size vm = 1%nat).
    { unfold trace_size. rewrite decide_False; [done|]. by rewrite Hon. }
    rewrite Hsz, H1 in Hinv.
    destruct Hinv as [(_ & _ & ->)|(Hlen & Hi & Hring)]; [done|].
    assert (Hi1 : trace_ring_idx vm' = 1%nat) by lia.
    split; [|done].
    unfold ring_entries in Hring. rewrite Hi1 in Hring.
    rewrite drop_ge, take_ge in Hring by lia. rewrite app_nil_l in Hring.
    rewrite Hring. apply last_Some in Hlast as [l' ->].
    rewrite drop_padded, decide_False by (rewrite length_app; simpl; lia).
    rewrite length_app. simpl.
    replace (length l' + 1 - 1)%nat with (length l') by lia.
    by rewrite drop_app_length.
Qed.

Lemma trace_ring_bound_witness :
  exists vm',
    trace_calls ex_texts (VM_new ex_tail_args) = Ret tt vm' /\
    (length (trace_output vm') <= 50)%nat /\
    ring_entries vm' = drop (length ex_texts - 50) ex_texts.
Proof.
  destruct (trace_ring_bound ex_texts (VM_new ex_tail_args) eq_refl eq_refl)
    as (vm' & Hrun & Htail & _).
  exists vm'. split; [exact Hrun|].
  destruct (Htail eq_refl) as (Hlen & _ & _ & Hlast & _).
  split; [exact Hlen|]. apply Hlast.
  unfold ex_texts. rewrite length_fmap, length_seq. lia.
Defined.

(** After 52 calls the ring reads "2" .. "51", with the index at 2. *)
Example ex_ring_after_52 :
  let vm' := final_state (trace_calls ex_texts (VM_new ex_tail_args))
               (VM_new ex_tail_args) in
  ring_entries vm' = (fun n : nat => pretty n) <$> seq 2 50 /\
  trace_ring_idx vm' = 2%nat /\ length (trace_output vm') = 50%nat.
Proof. vm_compute. done. Qed.

(** ** AOT translator: the vtable array *)

Lemma concat_cons (x : string) (l : list string) :
  String.concat "" (x :: l) = x +:+ String.concat "" l.
Proof.
  destruct l as [|y l]; simpl.
  - by rewrite string_app_nil_r.
  - done.
Qed.



(** The array emitted for the vtable [3; -1; 3], in plain-C mode, and for
    an image without vtable entries. *)
Example ex_vtables_text :
  emit_vtables false ex_image "" =
    nl +:+ "extern  const fun_base_t vtables[] = {" +:+ nl +:+
    "    fun_3," +:+ nl +:+ "    0," +:+ nl +:+ "    fun_3," +:+ nl +:+
    "    0" +:+ nl +:+ "};" +:+ nl.
Proof. vm_compute. reflexivity. Qed.

(** ** The error path *)

Lemma set_errmsg_eta vm : set_errmsg (errmsg vm +:+ "") vm = vm.
Proof. rewrite string_app_nil_r. by destruct vm. Qed.

Lemma appends_ret {A} (a : A) : appends (ret a).
Proof. intros vm. exists "". by rewrite set_errmsg_eta. Qed.

Lemma appends_undef {A} : appends (@undef VM A).
Proof. intros vm. exact I. Qed.

Lemma appends_bind {A B} (m : M A) (k : A -> M B) :
  appends m -> (forall a, appends (k a)) -> appends (bind m k).
Proof.
  intros Hm Hk vm. unfold bind. specialize (Hm vm).
  destruct (m vm) as [a vm1| |]; [|done|done].
  destruct Hm as [d ->]. specialize (Hk a (set_errmsg (errmsg vm +:+ d) vm)).
  destruct (k a _) as [b vm2| |]; [|done|done].
  destruct Hk as [d2 ->]. exists (d +:+ d2). simpl.
  by rewrite string_app_assoc.
Qed.

Lemma appends_gets {A} (f : VM -> A) : appends (gets f).
Proof. intros vm. exists "". by rewrite set_errmsg_eta. Qed.

Lemma appends_lift_opt {A} (o : option A) : appends (lift_opt o).
Proof. destruct o; [apply appends_ret|apply appends_undef]. Qed.

Lemma appends_code_at p : appends (code_at p).
Proof.
  intros vm. unfold code_at.
  destruct (zlookup _ p); simpl; [|done]. exists "". by rewrite set_errmsg_eta.
Qed.

Lemma appends_var_get i : appends (var_get i).
Proof.
  intros vm. unfold var_get.
  destruct (zlookup _ i); simpl; [|done]. exists "". by rewrite set_errmsg_eta.
Qed.


Lemma appends_append_errmsg text : appends (append_errmsg text).
Proof. intros vm. by exists text. Qed.

Lemma appends_print cfg r text : r = Printed text -> appends (print cfg r).
Proof. intros ->. apply appends_append_errmsg. Qed.

Lemma appends_if {A} (b : bool) (m1 m2 : M A) :
  appends m1 -> appends m2 -> appends (if b then m1 else m2).
Proof. by destruct b. Qed.

Lemma appends_decide {A} P `{Decision P} (m1 m2 : M A) :
  appends m1 -> appends m2 -> appends (if decide P then m1 else m2).
Proof. by destruct (decide P). Qed.

Section ErrorFacts.

Variable cfg : Build.
Variable to_string_hex : Z -> string.
Variable pointer_is_in_allocator : Z -> bool.
Variable RefToString : Z -> PrintRes.
Variable ToString : Value -> TypeInfo -> PrintRes.
Variable StructToString : TypeInfo -> list Value -> PrintRes.

Hypothesis HRef : never_raises RefToString.
Hypothesis HToString : never_raises2 ToString.
Hypothesis HStruct : never_raises2 StructToString.

Lemma DumpVar_appends idx :
  appends (DumpVar cfg ToString StructToString idx).
Proof.
  unfold DumpVar.
  apply appends_bind; [apply appends_gets|intros bc].
  apply appends_bind; [apply appends_lift_opt|intros sid].
  apply appends_bind; [apply appends_lift_opt|intros id].
  apply appends_if; [apply appends_ret|].
  apply appends_bind; [apply appends_var_get|intros x].
  apply appends_if; [apply appends_ret|].
  apply appends_bind; [apply appends_append_errmsg|intros _].
  apply appends_if.
  - apply appends_bind; [apply appends_gets|intros V].
    apply appends_bind; [|intros _; apply appends_ret].
    destruct (HStruct (GetTypeInfo bc (typeidx sid))
                (take (Z.to_nat (len (GetTypeInfo bc (typeidx sid))))
                   (drop (Z.to_nat idx) V))) as [text Ht].
    by eapply appends_print.
  - apply appends_bind; [|intros _; apply appends_ret].
    destruct (HToString x (GetTypeInfo bc (typeidx sid))) as [text Ht].
    by eapply appends_print.
Qed.

Lemma dump_vars_appends fuel : forall j n p,
  appends (dump_vars cfg ToString StructToString fuel j n p).
Proof.
  induction fuel as [|fuel IH]; intros j n p; simpl.
  - apply appends_ret.
  - apply appends_decide; [|apply appends_ret].
    apply appends_bind; [apply appends_code_at|intros i].
    apply appends_bind; [apply DumpVar_appends|intros r].
    apply appends_decide; [apply appends_undef|apply IH].
Qed.


End ErrorFacts.

(** Stepping through a sequence. *)
Lemma bind_gets {A B} (f : VM -> A) (k : A -> M B) vm :
  bind (gets f) k vm = k (f vm) vm.
Proof. reflexivity. Qed.

Lemma bind_modify {B} (f : VM -> VM) (k : unit -> M B) vm :
  bind (modify f) k vm = k tt (f vm).
Proof. reflexivity. Qed.


Lemma bind_code_at {B} p (k : Z -> M B) vm :
  bind (code_at p) k vm =
  match zlookup (bytecode (bcf vm)) p with
  | Some z => k z vm
  | None => Undef
  end.
Proof. unfold bind, code_at. by destruct (zlookup _ p). Qed.

Lemma bind_lift_opt {A B} (o : option A) (k : A -> M B) vm :
  bind (lift_opt o) k vm =
  match o with Some a => k a vm | None => Undef end.
Proof. by destruct o. Qed.

Lemma bind_assoc {A B C} (m : M A) (k : A -> M B) (k' : B -> M C) vm :
  bind (bind m k) k' vm = bind m (fun a => bind (k a) k') vm.
Proof. unfold bind. by destruct (m vm). Qed.



Lemma back_Some_snoc {A} (l : list A) a :
  back l = Some a -> exists l', l = l' ++ [a].
Proof. unfold back. intros H. by apply last_Some in H. Qed.

Section UnwindFacts.

Variable cfg : Build.
Variable ToString : Value -> TypeInfo -> PrintRes.
Variable StructToString : TypeInfo -> list Value -> PrintRes.
Hypothesis HToString : never_raises2 ToString.
Hypothesis HStruct : never_raises2 StructToString.


End UnwindFacts.

Lemma bind_ret_Unwound {A} (m : M A) vm e vm' :
  bind m (fun _ => ret tt) vm = Unwound e vm' -> m vm = Unwound e vm'.
Proof.
  unfold bind, ret. destruct (m vm); intros H;
    first [discriminate H|by injection H as -> ->].
Qed.

Lemma ErrorBase_first cfg err vm :
  error_has_occured vm = false ->
  ~ (trace (vmargs vm) = TAIL /\ trace_output vm <> []) ->
  ErrorBase cfg err vm =
  Ret tt (set_errmsg (errmsg vm +:+ "VM error: " +:+ err)
            (set_error_has_occured true vm)).
Proof.
  intros Heo Htr. unfold ErrorBase. rewrite Heo.
  by rewrite decide_False.
Qed.


Lemma ex_RefToString_ok : never_raises ex_RefToString.
Proof. intros a. by eexists. Qed.
Lemma ex_ToString_ok : never_raises2 ex_ToString.
Proof. intros a b. by eexists. Qed.
Lemma ex_StructToString_ok : never_raises2 ex_StructToString.
Proof. intros a b. by eexists. Qed.

Lemma thrown_final_state (o : outcome VM unit) d s :
  match o with Unwound (Thrown x) _ => Some x | _ => None end = Some s ->
  o = Unwound (Thrown s) (final_state o d).
Proof. destruct o as [| [] |]; simpl; intros [= <-]; done. Qed.


(** The message of the concrete run: one frame of function "f", with its
    def and arg globals dumped. *)
Example ex_index_error_message :
  errmsg (final_state
            (IDXErr ex_cfg ex_hex ex_in_alloc ex_RefToString ex_ToString
               ex_StructToString 3 5 3 0 ex_vm1) ex_vm1) =
  "VM error: index 5 out of range 3 of: [1, 2, 3]" +:+ nl +:+
  "in function: f" +:+ nl +:+ "   x = 0" +:+ nl +:+ "   x = 101" +:+ nl +:+
  "   x = 100".
Proof. vm_compute. reflexivity. Qed.


Example ex_tail_trace_message :
  errmsg (final_state
            (IDXErr ex_cfg ex_hex ex_in_alloc ex_RefToString ex_ToString
               ex_StructToString 3 5 3 0 ex_vm_traced) ex_vm_traced) =
  "PUSHINT(1)" +:+ nl +:+ "index 5 out of range 3 of: [1, 2, 3]".
Proof. vm_compute. reflexivity. Qed.

(** ** Recursive errors *)

(** C8, on the code. An error raised by a printing helper while [Error]
    builds the trace of an index error (exception build): the message
    that leaves the VM is the nested message, "RECURSIVE ERROR:" and the
    nested message again. The original "VM error: index 5 out of range 3"
    text and the trace built so far are gone, and the frame is left on
    the frame list. *)
Theorem recursive_error_overwrites_original :
  exists vm',
    IDXErr ex_cfg ex_hex ex_in_alloc ex_RefToString ex_ToString_failing
      ex_StructToString 3 5 3 0 ex_vm1
    = Unwound
        (Thrown ("boom" +:+ nl +:+ "RECURSIVE ERROR:" +:+ nl +:+ "boom"))
        vm' /\
    errmsg vm' = "boom" +:+ nl +:+ "RECURSIVE ERROR:" +:+ nl +:+ "boom" /\
    String.prefix "VM error" (errmsg vm') = false /\
    stackframes vm' = stackframes ex_vm1.
Proof.
  exists (final_state
            (IDXErr ex_cfg ex_hex ex_in_alloc ex_RefToString
               ex_ToString_failing ex_StructToString 3 5 3 0 ex_vm1) ex_vm1).
  split; [|split; [|split]].
  - apply thrown_final_state. vm_compute. reflexivity.
  - vm_compute. reflexivity.
  - vm_compute. reflexivity.
  - vm_compute. reflexivity.
Qed.

(** ** Workers *)

Section WorkerFacts.

Variable cfg : Build.
Variable to_string_hex : Z -> string.
Variable pointer_is_in_allocator : Z -> bool.
Variable RefToString : Z -> PrintRes.
Variable ToString : Value -> TypeInfo -> PrintRes.
Variable StructToString : TypeInfo -> list Value -> PrintRes.
Variable IsRefNil : ValueType -> bool.

Abbreviation raise := (raise_error cfg to_string_hex pointer_is_in_allocator
                     RefToString ToString StructToString).

Lemma Error_not_Ret sp msg vm v vm' :
  Error cfg to_string_hex pointer_is_in_allocator RefToString ToString
    StructToString sp msg vm <> Ret v vm'.
Proof.
  unfold Error. intros H.
  apply bind_Ret in H as (? & ? & _ & H).
  apply bind_Ret in H as (? & ? & _ & H).
  by apply UnwindOnError_not_Ret in H.
Qed.

Lemma raise_error_not_Ret {A} sp msg w (a : A) w' :
  raise sp msg w <> Ret a w'.
Proof.
  unfold raise_error, liftVM, bind. intros H.
  destruct (Error _ _ _ _ _ _ _ _ _) as [v vm'| |] eqn:HE.
  - by apply Error_not_Ret in HE.
  - discriminate.
  - discriminate.
Qed.

(** A raised error is the whole outcome, whatever would follow. *)
Lemma raise_error_bind {A B} sp msg (k : A -> W B) w :
  bind (raise sp msg) k w = raise sp msg w.
Proof.
  unfold bind. pose proof (raise_error_not_Ret (A := A) sp msg w) as Hn.
  unfold raise_error, liftVM, bind in *.
  destruct (Error _ _ _ _ _ _ _ _ _) as [v vm'| |] eqn:HE; done.
Qed.

Lemma bind_lift_opt_W {A B} (o : option A) (k : A -> W B) w :
  bind (lift_opt o) k w = match o with Some a => k a w | None => Undef end.
Proof. by destruct o. Qed.

Lemma spawn_workers_spec n a : forall vm p,
  spawn_workers n a (vm, p) =
  Ret tt (set_workers
            (workers vm ++ seq (length (threads p)) n) vm,
          {| spaces := spaces p;
             threads := threads p
               ++ replicate n {| thr_vm := worker_vm vm a;
                                 thr_body := RunEvalProgram |} |}).
Proof.
  induction n as [|n IH]; intros vm p; simpl.
  - unfold ret. rewrite !app_nil_r. f_equal. f_equal; [by destruct vm|].
    by destruct p.
  - unfold bind. simpl. rewrite IH. simpl. f_equal. f_equal.
    + rewrite <- app_assoc. simpl. rewrite length_app. simpl.
      by rewrite Nat.add_1_r.
    + rewrite <- app_assoc. done.
Qed.


(** C10. [WorkerWrite] without a tuple space returns at once: nothing is
    queued, no error is raised, whatever the reference (nil, or not a
    class); an error of [WorkerWrite] therefore means a tuple space
    exists, and with one the nil and the non-class checks raise their
    errors through [Error]. *)
Theorem WorkerWrite_without_tuple_space sp ref vm p :
  (tuple_space vm = None ->
   WorkerWrite cfg to_string_hex pointer_is_in_allocator RefToString
     ToString StructToString IsRefNil sp ref (vm, p) = Ret tt (vm, p)) /\
  (forall e w',
     WorkerWrite cfg to_string_hex pointer_is_in_allocator RefToString
       ToString StructToString IsRefNil sp ref (vm, p) = Unwound e w' ->
     tuple_space vm <> None) /\
  (tuple_space vm <> None -> ref = None ->
   WorkerWrite cfg to_string_hex pointer_is_in_allocator RefToString
     ToString StructToString IsRefNil sp ref (vm, p)
   = raise sp "thread write: nil reference" (vm, p)) /\
  (forall st,
     tuple_space vm <> None -> ref = Some st ->
     t (GetTypeInfo (bcf vm) (tti st)) <> V_CLASS ->
     WorkerWrite cfg to_string_hex pointer_is_in_allocator RefToString
       ToString StructToString IsRefNil sp ref (vm, p)
     = raise sp "thread write: must be a class" (vm, p)).
Proof.
  split; [|split; [|split]].
  - intros Hts. unfold WorkerWrite. simpl. by rewrite Hts.
  - intros e w' H Hts. unfold WorkerWrite in H. simpl in H.
    rewrite Hts in H. discriminate.
  - intros Hts ->. unfold WorkerWrite. simpl.
    destruct (tuple_space vm) as [a|]; [|done].
    apply raise_error_bind.
  - intros st Hts -> Hcl. unfold WorkerWrite. simpl.
    destruct (tuple_space vm) as [a|]; [|done].
    unfold bind at 1. unfold ret at 1. unfold bind at 1. unfold ret at 1.
    rewrite bool_decide_eq_false_2 by done.
    apply raise_error_bind.
Qed.

(** C4. [WorkerRead], case by case.  On a type that is not a class it
    raises "thread read: must be a class type" through [Error].  On a
    class it reads [tuple_space] without testing it: in a VM that has no
    tuple space (workers never started, or terminated) the call
    dereferences the null pointer, where [WorkerWrite] returns; the same
    holds for a space that is not allocated and for a [structidx] past
    the queues of the space.  With the queue of the class's [structidx]
    in the VM's tuple space: while the space is alive and the queue empty
    the call waits and changes nothing; when the queue holds a buffer it
    takes the first one off the queue, leaving the rest, and returns a
    new object of the type holding the buffer's first [len] cells (a
    buffer shorter than [len] is read past its end); when the space is no
    longer alive and the queue is empty it returns nil and changes
    nothing. *)
Theorem WorkerRead_spec sp ty vm p :
  let ti := GetTypeInfo (bcf vm) ty in
  (t ti <> V_CLASS ->
   WorkerRead cfg to_string_hex pointer_is_in_allocator RefToString
     ToString StructToString sp ty (vm, p)
   = raise sp "thread read: must be a class type" (vm, p)) /\
  (t ti = V_CLASS -> tuple_space vm = None ->
   WorkerRead cfg to_string_hex pointer_is_in_allocator RefToString
     ToString StructToString sp ty (vm, p) = Undef) /\
  (forall a,
     t ti = V_CLASS -> tuple_space vm = Some a ->
     match spaces p !! a with
     | None =>
         WorkerRead cfg to_string_hex pointer_is_in_allocator RefToString
           ToString StructToString sp ty (vm, p) = Undef
     | Some ts =>
         match zlookup (tupletypes ts) (structidx ti) with
         | None =>
             WorkerRead cfg to_string_hex pointer_is_in_allocator
               RefToString ToString StructToString sp ty (vm, p) = Undef
         | Some q =>
             match tuples q with
             | [] =>
                 WorkerRead cfg to_string_hex pointer_is_in_allocator
                   RefToString ToString StructToString sp ty (vm, p)
                 = Ret (if alive ts then Waiting else Returned None) (vm, p)
             | buf :: rest =>
                 if decide (len ti <= Z.of_nat (length buf)) then
                   exists tts,
                     zstore (tupletypes ts) (structidx ti)
                       {| tuples := rest |} = Some tts /\
                     WorkerRead cfg to_string_hex pointer_is_in_allocator
                       RefToString ToString StructToString sp ty (vm, p)
                     = Ret (Returned
                              (Some {| tti := ty;
                                       elems := take (Z.to_nat (len ti))
                                                  buf |}))
                         (vm, {| spaces :=
                                   <[a := {| tupletypes := tts;
                                             alive := alive ts |}]>
                                     (spaces p);
                                 threads := threads p |})
                 else
                   WorkerRead cfg to_string_hex pointer_is_in_allocator
                     RefToString ToString StructToString sp ty (vm, p)
                   = Undef
             end
         end
     end).
Proof.
  intros ti. split; [|split].
  - intros Hcl. unfold WorkerRead. simpl. fold ti.
    rewrite bool_decide_eq_false_2 by done. apply raise_error_bind.
  - intros Hcl Hts. unfold WorkerRead. simpl. fold ti.
    rewrite bool_decide_eq_true_2 by done.
    unfold bind at 1. unfold ret at 1. by rewrite Hts.
  - intros a Hcl Hts.
    assert (Hrun :
      WorkerRead cfg to_string_hex pointer_is_in_allocator RefToString
        ToString StructToString sp ty (vm, p)
      = (ts <- lift_opt (spaces p !! a) ;;
         q <- lift_opt (zlookup (tupletypes ts) (structidx ti)) ;;
         if alive ts && bool_decide (tuples q = []) then ret Waiting
         else
           match tuples q with
           | buf :: rest =>
               p' <- lift_opt (set_queue a ts (structidx ti) rest p) ;;
               modify (fun w : World => (w.1, p')) ;;;
               if decide (len ti <= Z.of_nat (length buf)) then
                 ret (Returned
                        (Some {| tti := ty;
                                 elems := take (Z.to_nat (len ti)) buf |}))
               else undef
           | [] => ret (Returned None)
           end) (vm, p)).
    { unfold WorkerRead. simpl. fold ti.
      rewrite bool_decide_eq_true_2 by done.
      unfold bind at 1. unfold ret at 1.
      by rewrite Hts, bind_lift_opt_W. }
    rewrite Hrun. clear Hrun. rewrite bind_lift_opt_W.
    destruct (spaces p !! a) as [ts|]; [|done].
    rewrite bind_lift_opt_W.
    destruct (zlookup (tupletypes ts) (structidx ti)) as [q|] eqn:Hq; [|done].
    destruct (tuples q) as [|buf rest].
    + rewrite bool_decide_eq_true_2 by done. by destruct (alive ts).
    + rewrite bool_decide_eq_false_2 by done. rewrite andb_false_r.
      assert (Hidx : is_Some (zstore (tupletypes ts) (structidx ti)
                                {| tuples := rest |})).
      { apply zstore_is_Some. by apply zlookup_lt in Hq. }
      destruct Hidx as [tts Htts].
      unfold set_queue. rewrite Htts.
      rewrite bind_lift_opt_W. unfold bind, modify. simpl.
      destruct (decide (len ti <= Z.of_nat (length buf))); [|done].
      exists tts. done.
Qed.

End WorkerFacts.

(** A reader in a VM without a tuple space runs into the null pointer; a
    worker on an alive space with empty queues waits. *)
Lemma WorkerRead_spec_witness :
  WorkerRead ex_cfg ex_hex ex_in_alloc ex_RefToString ex_ToString
    ex_StructToString 0 7 (VM_new ex_class_args, ex_process) = Undef /\
  WorkerRead ex_cfg ex_hex ex_in_alloc ex_RefToString ex_ToString
    ex_StructToString 0 7 (ex_reader, ex_process)
  = Ret Waiting (ex_reader, ex_process).
Proof.
  split.
  - apply (WorkerRead_spec ex_cfg ex_hex ex_in_alloc ex_RefToString
             ex_ToString ex_StructToString 0 7 (VM_new ex_class_args)
             ex_process); reflexivity.
  - exact (proj2 (proj2 (WorkerRead_spec ex_cfg ex_hex ex_in_alloc
             ex_RefToString ex_ToString ex_StructToString 0 7 ex_reader
             ex_process)) 0%nat eq_refl eq_refl).
Defined.

(* ================================================================== *)
(** * Further properties of the code *)

(** ** Calls: balance, margin, assertion *)

(** X1. Stack balance of a call: a function entered through [FunIntro]
    at depth [sp] whose body balances the stack and which leaves through
    [FunOut] with [nrv] values ends at depth [sp - nargs + nrv], on the
    frame list it started from, with the callee's [nrv] top cells now on
    top of the caller's stack. *)
Theorem call_stack_balance cfg h ip sp vm sp1 vm1 sp2 nrv vm2 sp3 vm3 :
  header_at (bytecode (bcf vm)) ip h ->
  FunIntro cfg sp ip vm = Ret sp1 vm1 ->
  bcf vm2 = bcf vm1 ->
  stackframes vm2 = stackframes vm1 ->
  sp2 - nrv = sp1 ->
  FunOut cfg sp2 nrv vm2 = Ret sp3 vm3 ->
  sp3 = sp - Z.of_nat (length (h_args h)) + nrv /\
  stackframes vm3 = stackframes vm /\
  (forall k, 0 <= k < nrv ->
     zlookup (stack vm3) (sp - Z.of_nat (length (h_args h)) + 1 + k)
     = zlookup (stack vm2) (sp1 + 1 + k)) /\
  (forall j, j <= sp - Z.of_nat (length (h_args h)) ->
     zlookup (stack vm3) j = zlookup (stack vm2) j).
Proof.
  intros Hh Hin Hbcf Hfr Hbal Hout.
  destruct (FunIntro_inv _ _ _ _ _ _ _ Hh Hin)
    as (Sg & Sd & _ & _ & _ & Hsp1 & Hbcf1 & Hfr1 & _).
  assert (Hh2 : header_at (bytecode (bcf vm2)) ip h) by congruence.
  assert (Hback : back (stackframes vm2)
                  = Some {| funstart := Some ip; spstart := sp1 |}).
  { rewrite Hfr, Hfr1. apply back_push_back. }
  destruct (FunOut_inv _ _ _ _ _ _ _ _ _ Hh2 Hback eq_refl Hout)
    as (_ & _ & Hfr3 & Hsp3 & _ & Hcopy & Hlow).
  split; [lia|]. split.
  { rewrite Hfr3, Hfr, Hfr1. apply pop_back_push_back. }
  split.
  - intros k Hk. rewrite <- Hbal, <- Hcopy by lia. f_equal. lia.
  - intros j Hj. apply Hlow. lia.
Qed.

Lemma call_stack_balance_witness :
  0 = 1 - Z.of_nat (length (h_args ex_header)) + 1 /\
  stackframes ex_vm3 = stackframes ex_vm0 /\
  (forall k, 0 <= k < 1 ->
     zlookup (stack ex_vm3) (1 - Z.of_nat (length (h_args ex_header)) + 1 + k)
     = zlookup (stack ex_vm2) (3 + 1 + k)) /\
  (forall j, j <= 1 - Z.of_nat (length (h_args ex_header)) ->
     zlookup (stack ex_vm3) j = zlookup (stack ex_vm2) j).
Proof.
  apply (call_stack_balance ex_cfg ex_header 3 1 ex_vm0 3 ex_vm1
           4 1 ex_vm2 0 ex_vm3).
  - apply ex_header_at.
  - apply returned_final_state. vm_compute. reflexivity.
  - vm_compute. reflexivity.
  - vm_compute. reflexivity.
  - reflexivity.
  - apply returned_final_state. vm_compute. reflexivity.
Defined.

(** X2. One doubling restores the margin: whenever the growth block of
    [FunIntro] returns, on a stack of at least [STACKMARGIN] cells with
    [sp] inside it, the depth is again at most [stacksize - STACKMARGIN]. *)
Theorem grow_stack_restores_margin cfg sp vm sp' vm' :
  grow_stack cfg sp vm = Ret sp' vm' ->
  sp < stacksize vm ->
  STACKMARGIN <= stacksize vm ->
  sp' <= stacksize vm' - STACKMARGIN /\ stacksize vm <= stacksize vm'.
Proof.
  intros H Hsp Hm.
  apply grow_stack_Ret in H as (-> & S & z & -> & _ & Hz). simpl.
  destruct (decide (sp > stacksize vm - STACKMARGIN)).
  - destruct Hz as (_ & -> & _). lia.
  - destruct Hz as (-> & _). lia.
Qed.

Lemma grow_stack_restores_margin_witness :
  262000 <= stacksize (final_state (grow_stack ex_cfg 262000 ex_vm_3mb)
                         ex_vm0) - STACKMARGIN /\
  stacksize ex_vm_3mb
  <= stacksize (final_state (grow_stack ex_cfg 262000 ex_vm_3mb) ex_vm0).
Proof.
  apply (grow_stack_restores_margin ex_cfg 262000 ex_vm_3mb 262000).
  - apply returned_final_state. vm_compute. reflexivity.
  - vm_compute. reflexivity.
  - vm_compute. congruence.
Defined.


(** ** Function entry: totality and the cells it leaves *)

Lemma zlookup_None {A} (l : list A) i :
  zlookup l i = None -> ~ (0 <= i < Z.of_nat (length l)).
Proof.
  unfold zlookup. destruct (decide (0 <= i)); [|lia].
  intros H%lookup_ge_None. lia.
Qed.

Lemma zstore_None {A} (l : list A) i a :
  zstore l i a = None -> ~ (0 <= i < Z.of_nat (length l)).
Proof. unfold zstore. by destruct (decide _). Qed.

Lemma bind_var_get {B} x (k : Value -> M B) vm :
  bind (var_get x) k vm =
  match zlookup (vars vm) x with Some g => k g vm | None => Undef end.
Proof. unfold bind, var_get. by destruct (zlookup _ x). Qed.

Lemma bind_stack_get {B} j (k : Value -> M B) vm :
  bind (stack_get j) k vm =
  match zlookup (stack vm) j with Some g => k g vm | None => Undef end.
Proof. unfold bind, stack_get. by destruct (zlookup _ j). Qed.

Lemma bind_var_set {B} x v (k : unit -> M B) vm :
  bind (var_set x v) k vm =
  match zstore (vars vm) x v with
  | Some l => k tt (set_vars l vm)
  | None => Undef
  end.
Proof. unfold bind, var_set. by destruct (zstore _ x v). Qed.

Lemma bind_stack_set {B} j v (k : unit -> M B) vm :
  bind (stack_set j v) k vm =
  match zstore (stack vm) j v with
  | Some l => k tt (set_stack l vm)
  | None => Undef
  end.
Proof. unfold bind, stack_set. by destruct (zstore _ j v). Qed.

Lemma bind_Push {B} sp v (k : Z -> M B) vm :
  bind (Push sp v) k vm =
  match zstore (stack vm) (sp + 1) v with
  | Some l => k (sp + 1) (set_stack l vm)
  | None => Undef
  end.
Proof.
  unfold Push. rewrite bind_assoc, bind_stack_set.
  by destruct (zstore _ _ v).
Qed.

Lemma set_stack_vars_twice S V S1 V1 vm :
  set_stack S (set_vars V (set_stack S1 (set_vars V1 vm)))
  = set_stack S (set_vars V vm).
Proof. by destruct vm. Qed.

Lemma swap_args_run l : forall ip sp nargs i vm,
  (forall (k : nat) x, l !! k = Some x ->
     zlookup (bytecode (bcf vm)) (ip + i + Z.of_nat k) = Some x) ->
  match swap_args (length l) ip sp nargs i vm with
  | Ret _ vm' =>
      exists V S, vm' = set_stack S (set_vars V vm) /\
        length V = length (vars vm) /\ length S = length (stack vm) /\
        (forall u, u ∉ l -> zlookup V u = zlookup (vars vm) u) /\
        (forall j, ~ (sp - nargs + i + 1 <= j
                      < sp - nargs + i + 1 + Z.of_nat (length l)) ->
           zlookup S j = zlookup (stack vm) j) /\
        (NoDup l -> forall (k : nat) x, l !! k = Some x ->
           zlookup V x = zlookup (stack vm) (sp - nargs + i + 1 + Z.of_nat k) /\
           zlookup S (sp - nargs + i + 1 + Z.of_nat k) = zlookup (vars vm) x /\
           is_Some (zlookup (vars vm) x) /\
           is_Some (zlookup (stack vm) (sp - nargs + i + 1 + Z.of_nat k)))
  | Unwound _ _ => False
  | Undef =>
      ~ ((forall x, x ∈ l -> 0 <= x < Z.of_nat (length (vars vm))) /\
         0 <= sp - nargs + i + 1 /\
         sp - nargs + i + 1 + Z.of_nat (length l)
         <= Z.of_nat (length (stack vm)))
  end.
Proof.
  induction l as [|x l IH]; intros ip sp nargs i vm Hcode;
    cbn [swap_args length].
  - exists (vars vm), (stack vm). rewrite VM_eta.
    repeat split; done.
  - pose proof (Hcode 0%nat x eq_refl) as H0. simpl in H0.
    rewrite Z.add_0_r in H0. rewrite bind_code_at, H0.
    rewrite bind_var_get. destruct (zlookup (vars vm) x) as [g|] eqn:Hg.
    2:{ intros (Hv & _). apply zlookup_None in Hg. apply Hg, Hv. left. }
    rewrite bind_stack_get.
    destruct (zlookup (stack vm) (sp - nargs + i + 1)) as [a|] eqn:Ha.
    2:{ intros (_ & Hb & Hl). apply zlookup_None in Ha. apply Ha.
        rewrite Nat2Z.inj_succ in Hl. lia. }
    rewrite bind_var_set. destruct (zstore (vars vm) x a) as [V1|] eqn:HV1.
    2:{ apply zstore_None in HV1. by apply zlookup_lt in Hg. }
    rewrite bind_stack_set. cbn [stack set_vars].
    destruct (zstore (stack vm) (sp - nargs + i + 1) g) as [S1|] eqn:HS1.
    2:{ apply zstore_None in HS1. by apply zlookup_lt in Ha. }
    set (vm1 := set_stack S1 (set_vars V1 vm)).
    assert (Hv1 : vars vm1 = V1) by (by destruct vm).
    assert (Hs1 : stack vm1 = S1) by (by destruct vm).
    specialize (IH ip sp nargs (i + 1) vm1).
    destruct (swap_args (length l) ip sp nargs (i + 1) vm1) as [u vm'| |].
    + destruct IH as (V & S & -> & HlV & HlS & HV & HS & Hnd).
      { intros k y Hk. replace (bcf vm1) with (bcf vm) by (by destruct vm).
        replace (ip + (i + 1) + Z.of_nat k)
          with (ip + i + Z.of_nat (Datatypes.S k)) by lia.
        by apply Hcode. }
      exists V, S. subst vm1. rewrite set_stack_vars_twice.
      rewrite Hv1 in *. rewrite Hs1 in *.
      split; [done|]. split.
      { rewrite HlV. eapply zstore_length; eauto. } split.
      { rewrite HlS. eapply zstore_length; eauto. } split.
      { intros u0 Hu. rewrite HV.
        - eapply zstore_lookup_ne; eauto. intros ->. apply Hu. left.
        - intros ?. apply Hu. by right. } split.
      { intros j Hj. rewrite Nat2Z.inj_succ in Hj. rewrite HS by lia.
        eapply zstore_lookup_ne; eauto. lia. }
      intros Hnodup k y Hk. apply NoDup_cons in Hnodup as [Hx Hnodup].
      destruct k as [|k]; simpl in Hk.
      * injection Hk as <-. rewrite Z.add_0_r. split; [|split; [|split]].
        -- rewrite (HV _ Hx), Ha. eapply zstore_lookup_eq; eauto.
        -- rewrite HS by lia. rewrite Hg. eapply zstore_lookup_eq; eauto.
        -- eauto.
        -- eauto.
      * destruct (Hnd Hnodup k y Hk) as (E1 & E2 & I1 & I2).
        assert (y <> x).
        { intros ->. apply Hx. by eapply list_elem_of_lookup_2. }
        replace (sp - nargs + i + 1 + Z.of_nat (Datatypes.S k))
          with (sp - nargs + (i + 1) + 1 + Z.of_nat k) by lia.
        rewrite (zstore_lookup_ne _ _ _ _ _ HV1) in E2, I1 by done.
        rewrite (zstore_lookup_ne _ _ _ _ _ HS1) in E1, I2 by lia.
        done.
    + apply IH. intros k y Hk.
      replace (bcf vm1) with (bcf vm) by (by destruct vm).
      replace (ip + (i + 1) + Z.of_nat k)
        with (ip + i + Z.of_nat (Datatypes.S k)) by lia.
      by apply Hcode.
    + intros (Hv & Hb & Hl). apply IH.
      { intros k y Hk. replace (bcf vm1) with (bcf vm) by (by destruct vm).
        replace (ip + (i + 1) + Z.of_nat k)
          with (ip + i + Z.of_nat (Datatypes.S k)) by lia.
        by apply Hcode. }
      rewrite Hv1, Hs1.
      rewrite (zstore_length _ _ _ _ HV1), (zstore_length _ _ _ _ HS1).
      rewrite Nat2Z.inj_succ in Hl.
      split; [|lia]. intros y Hy. apply Hv. by right.
Qed.

Lemma backup_defs_run l : forall ip sp vm,
  (forall (k : nat) x, l !! k = Some x ->
     zlookup (bytecode (bcf vm)) (ip + Z.of_nat k) = Some x) ->
  match backup_defs (length l) ip sp vm with
  | Ret r vm' =>
      r = (ip + Z.of_nat (length l), sp + Z.of_nat (length l)) /\
      exists V S, vm' = set_stack S (set_vars V vm) /\
        length V = length (vars vm) /\ length S = length (stack vm) /\
        (forall u, u ∉ l -> zlookup V u = zlookup (vars vm) u) /\
        (forall j, ~ (sp + 1 <= j < sp + 1 + Z.of_nat (length l)) ->
           zlookup S j = zlookup (stack vm) j) /\
        (forall x, x ∈ l -> zlookup V x = Some nil_Value) /\
        (NoDup l -> forall (k : nat) x, l !! k = Some x ->
           zlookup S (sp + 1 + Z.of_nat k) = zlookup (vars vm) x /\
           is_Some (zlookup (vars vm) x))
  | Unwound _ _ => False
  | Undef =>
      ~ ((forall x, x ∈ l -> 0 <= x < Z.of_nat (length (vars vm))) /\
         0 <= sp + 1 /\
         sp + 1 + Z.of_nat (length l) <= Z.of_nat (length (stack vm)))
  end.
Proof.
  induction l as [|x l IH]; intros ip sp vm Hcode; cbn [backup_defs length].
  - split; [unfold ret; f_equal; simpl; lia|].
    exists (vars vm), (stack vm). rewrite VM_eta.
    repeat split; try done. intros y Hy. by apply elem_of_nil in Hy.
  - pose proof (Hcode 0%nat x eq_refl) as H0. simpl in H0.
    rewrite Z.add_0_r in H0. rewrite bind_code_at, H0.
    rewrite bind_var_get. destruct (zlookup (vars vm) x) as [g|] eqn:Hg.
    2:{ intros (Hv & _). apply zlookup_None in Hg. apply Hg, Hv. left. }
    rewrite bind_Push.
    destruct (zstore (stack vm) (sp + 1) g) as [S1|] eqn:HS1.
    2:{ intros (_ & Hb & Hl). apply zstore_None in HS1. apply HS1.
        rewrite Nat2Z.inj_succ in Hl. lia. }
    rewrite bind_var_set. cbn [vars set_stack].
    destruct (zstore (vars vm) x nil_Value) as [V1|] eqn:HV1.
    2:{ apply zstore_None in HV1. by apply zlookup_lt in Hg. }
    set (vm1 := set_vars V1 (set_stack S1 vm)).
    assert (Hv1 : vars vm1 = V1) by (by destruct vm).
    assert (Hs1 : stack vm1 = S1) by (by destruct vm).
    assert (Hcode1 : forall (k : nat) y, l !! k = Some y ->
      zlookup (bytecode (bcf vm1)) (ip + 1 + Z.of_nat k) = Some y).
    { intros k y Hk. replace (bcf vm1) with (bcf vm) by (by destruct vm).
      replace (ip + 1 + Z.of_nat k)
        with (ip + Z.of_nat (Datatypes.S k)) by lia.
      by apply Hcode. }
    specialize (IH (ip + 1) (sp + 1) vm1 Hcode1).
    destruct (backup_defs (length l) (ip + 1) (sp + 1) vm1) as [r vm'| |].
    + destruct IH as (-> & V & S & -> & HlV & HlS & HV & HS & Hnil & Hnd).
      split; [f_equal; lia|].
      exists V, S. subst vm1.
      replace (set_stack S (set_vars V (set_vars V1 (set_stack S1 vm))))
        with (set_stack S (set_vars V vm)) by (by destruct vm).
      rewrite Hv1 in *. rewrite Hs1 in *.
      split; [done|]. split.
      { rewrite HlV. eapply zstore_length; eauto. } split.
      { rewrite HlS. eapply zstore_length; eauto. } split.
      { intros u0 Hu. rewrite HV.
        - eapply zstore_lookup_ne; eauto. intros ->. apply Hu. left.
        - intros ?. apply Hu. by right. } split.
      { intros j Hj. rewrite Nat2Z.inj_succ in Hj. rewrite HS by lia.
        eapply zstore_lookup_ne; eauto. lia. } split.
      { intros y Hy. destruct (decide (y ∈ l)) as [Hin|Hout].
        - by apply Hnil.
        - rewrite (HV _ Hout). apply elem_of_cons in Hy as [->|?]; [|done].
          eapply zstore_lookup_eq; eauto. }
      intros Hnodup k y Hk. apply NoDup_cons in Hnodup as [Hx Hnodup].
      destruct k as [|k]; simpl in Hk.
      * injection Hk as <-. rewrite Z.add_0_r. split; [|eauto].
        rewrite HS by lia. rewrite Hg. eapply zstore_lookup_eq; eauto.
      * destruct (Hnd Hnodup k y Hk) as [E2 I1].
        assert (y <> x).
        { intros ->. apply Hx. by eapply list_elem_of_lookup_2. }
        replace (sp + 1 + Z.of_nat (Datatypes.S k))
          with (sp + 1 + 1 + Z.of_nat k) by lia.
        rewrite (zstore_lookup_ne _ _ _ _ _ HV1) in E2, I1 by done.
        done.
    + done.
    + intros (Hv & Hb & Hl). apply IH.
      rewrite Hv1, Hs1.
      rewrite (zstore_length _ _ _ _ HV1), (zstore_length _ _ _ _ HS1).
      rewrite Nat2Z.inj_succ in Hl.
      split; [|lia]. intros y Hy. apply Hv. by right.
Qed.

Lemma push_keeps_run n : forall sp vm,
  match push_keeps n sp vm with
  | Ret sp' vm' =>
      sp' = sp + Z.of_nat n /\
      exists S, vm' = set_stack S vm /\ length S = length (stack vm) /\
        (forall j, ~ (sp + 1 <= j < sp + 1 + Z.of_nat n) ->
           zlookup S j = zlookup (stack vm) j) /\
        (forall j, sp + 1 <= j < sp + 1 + Z.of_nat n ->
           zlookup S j = Some nil_Value)
  | Unwound _ _ => False
  | Undef =>
      ~ (0 <= sp + 1 /\
         sp + 1 + Z.of_nat n <= Z.of_nat (length (stack vm)))
  end.
Proof.
  induction n as [|n IH]; intros sp vm; cbn [push_keeps].
  - split; [lia|]. exists (stack vm). split; [by destruct vm|].
    repeat split; try done. intros j Hj. lia.
  - rewrite bind_Push.
    destruct (zstore (stack vm) (sp + 1) nil_Value) as [S1|] eqn:HS1.
    2:{ intros (Hb & Hl). apply zstore_None in HS1. apply HS1. lia. }
    set (vm1 := set_stack S1 vm).
    assert (Hs1 : stack vm1 = S1) by (by destruct vm).
    specialize (IH (sp + 1) vm1).
    destruct (push_keeps n (sp + 1) vm1) as [r vm'| |].
    + destruct IH as (-> & S & -> & HlS & HS & Hnil).
      split; [lia|]. exists S. subst vm1.
      split; [by destruct vm|]. rewrite Hs1 in *. split.
      { rewrite HlS. eapply zstore_length; eauto. } split.
      { intros j Hj. rewrite HS by lia.
        eapply zstore_lookup_ne; eauto. lia. }
      intros j Hj. destruct (decide (j = sp + 1)) as [->|Hne].
      * rewrite HS by lia. eapply zstore_lookup_eq; eauto.
      * apply Hnil. lia.
    + done.
    + intros (Hb & Hl). apply IH. rewrite Hs1.
      rewrite (zstore_length _ _ _ _ HS1). lia.
Qed.

Lemma bind_case {S A B} (m : ST S A) (k : A -> ST S B) s :
  bind m k s =
  match m s with
  | Ret a s' => k a s'
  | Unwound e s' => Unwound e s'
  | Undef => Undef
  end.
Proof. reflexivity. Qed.

(** What a growth block that does not overflow does. *)
Lemma grow_stack_run cfg sp vm :
  stacksize vm < maxstacksize vm \/ sp <= stacksize vm - STACKMARGIN ->
  0 <= sp + 1 <= Z.of_nat (length (stack vm)) ->
  length (stack vm) = Z.to_nat (stacksize vm) ->
  STACKMARGIN <= stacksize vm ->
  exists S z, grow_stack cfg sp vm = Ret sp (set_stack S (set_stacksize z vm)) /\
    length S = Z.to_nat z /\ stacksize vm <= z /\ sp <= z - STACKMARGIN /\
    forall j, j <= sp -> zlookup S j = zlookup (stack vm) j.
Proof.
  intros Hno Hsp Hlen Hm. unfold grow_stack.
  destruct (decide (sp > stacksize vm - STACKMARGIN)) as [Hgt|Hle].
  - destruct Hno as [Hlt|?]; [|lia].
    rewrite bind_case. unfold when.
    rewrite bool_decide_eq_false_2 by lia. unfold ret at 1.
    destruct (t_memcpy (replicate (Z.to_nat (stacksize vm * 2)) nil_Value)
                (stack vm) (sp + 1)) as [l|] eqn:Hcp.
    + apply t_memcpy_Some in Hcp as Hl. destruct Hl as [Hl Hcopy].
      exists l, (stacksize vm * 2). split; [done|].
      rewrite Hl, length_replicate. unfold STACKMARGIN in *.
      split; [done|]. split; [lia|]. split; [lia|].
      intros j Hj. destruct (decide (0 <= j)).
      * apply Hcopy. lia.
      * unfold zlookup. by rewrite !decide_False by lia.
    + exfalso. unfold t_memcpy in Hcp.
      rewrite decide_True in Hcp; [done|].
      rewrite length_replicate. unfold STACKMARGIN in *. lia.
  - exists (stack vm), (stacksize vm). split.
    { f_equal. by destruct vm. }
    split; [done|]. split; [lia|]. split; [lia|done].
Qed.

(** X3. Function entry always succeeds inside the margin: with a stack
    buffer of [stacksize >= STACKMARGIN] cells, [sp] inside it, the
    arguments on the stack, the header's globals inside [vars], fewer than
    [STACKMARGIN] saved defaults and keep slots, and no overflow (the size
    is below the maximum, or the depth is within the margin), [FunIntro]
    returns the depth [sp + ndef + nkeepvars] and never runs off the
    buffer; the buffer still has [stacksize] cells, with the new depth
    inside it, and [vars] keeps its length. *)
Theorem FunIntro_returns cfg h ip sp vm :
  header_at (bytecode (bcf vm)) ip h ->
  length (stack vm) = Z.to_nat (stacksize vm) ->
  STACKMARGIN <= stacksize vm ->
  stacksize vm < maxstacksize vm \/ sp <= stacksize vm - STACKMARGIN ->
  Z.of_nat (length (h_args h)) <= sp + 1 ->
  sp < stacksize vm ->
  (forall x, x ∈ h_args h ++ h_defs h ->
     0 <= x < Z.of_nat (length (vars vm))) ->
  Z.of_nat (length (h_defs h)) + Z.of_nat (Z.to_nat (h_nkeep h))
    < STACKMARGIN ->
  exists vm1,
    FunIntro cfg sp ip vm
    = Ret (sp + Z.of_nat (length (h_defs h))
              + Z.of_nat (Z.to_nat (h_nkeep h))) vm1 /\
    length (stack vm1) = Z.to_nat (stacksize vm1) /\
    stacksize vm <= stacksize vm1 /\
    sp + Z.of_nat (length (h_defs h)) + Z.of_nat (Z.to_nat (h_nkeep h))
      < stacksize vm1 /\
    length (vars vm1) = length (vars vm).
Proof.
  intros Hh Hlen Hm Hno Hna Hsp Hv Hfit.
  unfold FunIntro. rewrite bind_modify. cbv zeta.
  set (vmA := set_stackframes _ vm).
  destruct (grow_stack_run cfg sp vmA)
    as (Sg & z & Hg & HlSg & Hz & Hmar & Hcopy).
  { done. } { simpl. lia. } { done. } { done. }
  rewrite bind_case, Hg. set (vmg := set_stack Sg (set_stacksize z vmA)).
  assert (Hbg : bcf vmg = bcf vm) by (by destruct vm).
  rewrite bind_code_at, Hbg, (header_nargs _ _ _ Hh), Nat2Z.id.
  rewrite bind_case.
  pose proof (swap_args_run (h_args h) (ip + 1 + 1) sp
                (Z.of_nat (length (h_args h))) 0 vmg) as Hs.
  destruct (swap_args _ _ _ _ _ vmg) as [u vms| |].
  2:{ exfalso. apply Hs. intros k x Hk. rewrite Hbg.
      replace (ip + 1 + 1 + 0 + Z.of_nat k) with (ip + 2 + Z.of_nat k) by lia.
      by apply (header_arg _ _ _ Hh). }
  2:{ exfalso. apply Hs.
      - intros k x Hk. rewrite Hbg.
        replace (ip + 1 + 1 + 0 + Z.of_nat k)
          with (ip + 2 + Z.of_nat k) by lia.
        by apply (header_arg _ _ _ Hh).
      - split; [|split].
        + intros x Hx. replace (vars vmg) with (vars vm) by (by destruct vm).
          apply Hv. apply elem_of_app. by left.
        + lia.
        + replace (stack vmg) with Sg by (by destruct vm).
          rewrite HlSg. unfold STACKMARGIN in *. lia. }
  destruct Hs as (Vs & Ss & -> & HlVs & HlSs & _).
  { intros k x Hk. rewrite Hbg.
    replace (ip + 1 + 1 + 0 + Z.of_nat k) with (ip + 2 + Z.of_nat k) by lia.
    by apply (header_arg _ _ _ Hh). }
  set (vms := set_stack Ss (set_vars Vs vmg)).
  assert (Hbs : bcf vms = bcf vm) by (by destruct vm).
  assert (HVs : vars vms = Vs) by (by destruct vm).
  assert (HSs : stack vms = Ss) by (by destruct vm).
  replace (vars vmg) with (vars vm) in HlVs by (by destruct vm).
  replace (stack vmg) with Sg in HlSs by (by destruct vm).
  rewrite bind_code_at, Hbs.
  replace (ip + 1 + 1 + Z.of_nat (length (h_args h)))
    with (ip + 2 + Z.of_nat (length (h_args h))) by lia.
  rewrite (header_ndef _ _ _ Hh), Nat2Z.id.
  rewrite bind_case.
  pose proof (backup_defs_run (h_defs h)
                (ip + 2 + Z.of_nat (length (h_args h)) + 1) sp vms) as Hd.
  assert (Hcd : forall (k : nat) x, h_defs h !! k = Some x ->
    zlookup (bytecode (bcf vms))
      (ip + 2 + Z.of_nat (length (h_args h)) + 1 + Z.of_nat k) = Some x).
  { intros k x Hk. rewrite Hbs.
    replace (ip + 2 + Z.of_nat (length (h_args h)) + 1 + Z.of_nat k)
      with (ip + 3 + Z.of_nat (length (h_args h)) + Z.of_nat k) by lia.
    by apply (header_def _ _ _ Hh). }
  specialize (Hd Hcd).
  destruct (backup_defs _ _ _ vms) as [r vmd| |].
  2:{ done. }
  2:{ exfalso. apply Hd. rewrite HVs, HSs, HlVs, HlSs, HlSg.
      split; [|split].
      - intros x Hx. apply Hv. apply elem_of_app. by right.
      - lia.
      - unfold STACKMARGIN in *. lia. }
  destruct Hd as (-> & Vd & Sd & -> & HlVd & HlSd & _).
  rewrite HVs in HlVd. rewrite HSs in HlSd.
  set (vmd := set_stack Sd (set_vars Vd vms)).
  assert (Hbd : bcf vmd = bcf vm) by (by destruct vm).
  assert (HSd : stack vmd = Sd) by (by destruct vm).
  cbn [fst snd].
  rewrite bind_code_at, Hbd.
  replace (ip + 2 + Z.of_nat (length (h_args h)) + 1
           + Z.of_nat (length (h_defs h)))
    with (ip + 3 + Z.of_nat (length (h_args h))
          + Z.of_nat (length (h_defs h))) by lia.
  rewrite (header_nkeep _ _ _ Hh).
  rewrite bind_case.
  pose proof (push_keeps_run (Z.to_nat (h_nkeep h))
                (sp + Z.of_nat (length (h_defs h))) vmd) as Hk.
  destruct (push_keeps _ _ vmd) as [spk vmk| |].
  2:{ done. }
  2:{ exfalso. apply Hk. rewrite HSd, HlSd, HlSs, HlSg.
      unfold STACKMARGIN in *. lia. }
  destruct Hk as (-> & Sk & -> & HlSk & _). rewrite HSd in HlSk.
  set (vmk := set_stack Sk vmd).
  assert (Hbk : bcf vmk = bcf vm) by (by destruct vm).
  rewrite bind_code_at, Hbk.
  replace (ip + 3 + Z.of_nat (length (h_args h))
           + Z.of_nat (length (h_defs h)) + 1)
    with (ip + 4 + Z.of_nat (length (h_args h))
          + Z.of_nat (length (h_defs h))) by lia.
  rewrite (header_nowned _ _ _ Hh).
  rewrite bind_case. unfold set_back_frame.
  replace (stackframes vmk)
    with (push_back (stackframes vm) {| funstart := None; spstart := 0 |})
    by (by destruct vm).
  unfold push_back at 1.
  destruct (stackframes vm ++ [_]) as [|f0 fs] eqn:Hfs.
  { by destruct (stackframes vm). }
  eexists. split; [reflexivity|]. simpl.
  rewrite HlSk, HlSd, HlSs, HlSg. split; [done|].
  split; [done|]. split; [unfold STACKMARGIN in *; lia|].
  by rewrite HlVd, HlVs.
Qed.

Lemma FunIntro_returns_witness :
  exists vm1,
    FunIntro ex_cfg 1 3 ex_vm0
    = Ret (1 + Z.of_nat (length (h_defs ex_header))
              + Z.of_nat (Z.to_nat (h_nkeep ex_header))) vm1 /\
    length (stack vm1) = Z.to_nat (stacksize vm1) /\
    stacksize ex_vm0 <= stacksize vm1 /\
    1 + Z.of_nat (length (h_defs ex_header))
      + Z.of_nat (Z.to_nat (h_nkeep ex_header)) < stacksize vm1 /\
    length (vars vm1) = length (vars ex_vm0).
Proof.
  apply (FunIntro_returns ex_cfg ex_header 3 1 ex_vm0).
  - apply ex_header_at.
  - change (length (<[0%nat := int_Value 100]>
                      (<[1%nat := int_Value 101]>
                         (replicate (Z.to_nat INITSTACKSIZE) nil_Value)))
            = Z.to_nat INITSTACKSIZE).
    rewrite !length_insert. apply length_replicate.
  - vm_compute. congruence.
  - right. vm_compute. congruence.
  - vm_compute. congruence.
  - vm_compute. reflexivity.
  - intros x Hx. simpl in Hx. rewrite !elem_of_cons, elem_of_nil in Hx.
    simpl. lia.
  - vm_compute. reflexivity.
Defined.

(** X4. The cells a function entry leaves, for a header that names no
    global twice: each argument global holds the argument the caller
    pushed and the argument's stack slot holds the global's old value;
    each default-saved global is nil and the slot pushed for it holds its
    old value; the keep slots above them are nil; no other global changes,
    and the caller's stack below the arguments is untouched. *)
Theorem FunIntro_entry_cells cfg h ip sp vm sp1 vm1 :
  header_at (bytecode (bcf vm)) ip h ->
  NoDup (h_args h ++ h_defs h) ->
  FunIntro cfg sp ip vm = Ret sp1 vm1 ->
  let na := Z.of_nat (length (h_args h)) in
  let nd := Z.of_nat (length (h_defs h)) in
  (forall (k : nat) a, h_args h !! k = Some a ->
     exists old arg,
       zlookup (vars vm) a = Some old /\
       zlookup (stack vm) (sp - na + 1 + Z.of_nat k) = Some arg /\
       zlookup (vars vm1) a = Some arg /\
       zlookup (stack vm1) (sp - na + 1 + Z.of_nat k) = Some old) /\
  (forall (k : nat) d, h_defs h !! k = Some d ->
     exists old,
       zlookup (vars vm) d = Some old /\
       zlookup (vars vm1) d = Some nil_Value /\
       zlookup (stack vm1) (sp + 1 + Z.of_nat k) = Some old) /\
  (forall j, sp + nd < j <= sp1 -> zlookup (stack vm1) j = Some nil_Value) /\
  (forall u, u ∉ h_args h ++ h_defs h ->
     zlookup (vars vm1) u = zlookup (vars vm) u) /\
  (forall j, j <= sp - na -> zlookup (stack vm1) j = zlookup (stack vm) j).
Proof.
  intros Hh Hnodup H na nd. unfold FunIntro in H.
  apply NoDup_app in Hnodup as (Hnda & Hdisj & Hndd).
  apply bind_Ret in H as (u & vmA & HA & H). apply modify_Ret in HA as ->.
  apply bind_Ret in H as (spg & vmg & Hg & H).
  apply grow_stack_Ret in Hg as (-> & Sg & z & -> & Hcopy & _).
  apply bind_Ret in H as (n & ? & Hn & H). apply code_at_Ret in Hn as [Hn ->].
  simpl in Hn. rewrite (header_nargs _ _ _ Hh) in Hn. injection Hn as <-.
  apply bind_Ret in H as (? & vms & Hs & H). rewrite Nat2Z.id in Hs.
  set (vmg := set_stack Sg _) in *.
  assert (Hbg : bcf vmg = bcf vm) by (by destruct vm).
  pose proof (swap_args_run (h_args h) (ip + 1 + 1) sp na 0 vmg) as Hrun.
  unfold na in Hrun at 1. rewrite Hs in Hrun.
  destruct Hrun as (Vs & Ss & -> & _ & _ & HVs & HSs & Hsw).
  { intros k y Hk. rewrite Hbg.
    replace (ip + 1 + 1 + 0 + Z.of_nat k) with (ip + 2 + Z.of_nat k) by lia.
    by apply (header_arg _ _ _ Hh). }
  specialize (Hsw Hnda).
  replace (vars vmg) with (vars vm) in * by (by destruct vm).
  replace (stack vmg) with Sg in * by (by destruct vm).
  set (vms := set_stack Ss (set_vars Vs vmg)) in *.
  assert (Hbs : bcf vms = bcf vm) by (by destruct vm).
  apply bind_Ret in H as (n & ? & Hn & H). apply code_at_Ret in Hn as [Hn ->].
  rewrite Hbs in Hn.
  replace (ip + 1 + 1 + Z.of_nat (length (h_args h)))
    with (ip + 2 + Z.of_nat (length (h_args h))) in * by lia.
  rewrite (header_ndef _ _ _ Hh) in Hn. injection Hn as <-.
  apply bind_Ret in H as (r & vmd & Hd & H). rewrite Nat2Z.id in Hd.
  pose proof (backup_defs_run (h_defs h)
                (ip + 2 + Z.of_nat (length (h_args h)) + 1) sp vms) as Hrun.
  rewrite Hd in Hrun.
  destruct Hrun as (-> & Vd & Sd & -> & _ & _ & HVd & HSd & Hnil & Hdf).
  { intros k y Hk. rewrite Hbs.
    replace (ip + 2 + Z.of_nat (length (h_args h)) + 1 + Z.of_nat k)
      with (ip + 3 + Z.of_nat (length (h_args h)) + Z.of_nat k) by lia.
    by apply (header_def _ _ _ Hh). }
  specialize (Hdf Hndd).
  replace (vars vms) with Vs in * by (by destruct vm).
  replace (stack vms) with Ss in * by (by destruct vm).
  set (vmd := set_stack Sd (set_vars Vd vms)) in *.
  cbn [fst snd] in H.
  apply bind_Ret in H as (nk & ? & Hn & H). apply code_at_Ret in Hn as [_ ->].
  apply bind_Ret in H as (spk & vmk & Hk & H).
  pose proof (push_keeps_run (Z.to_nat nk) (sp + Z.of_nat (length (h_defs h)))
                vmd) as Hrun.
  rewrite Hk in Hrun. destruct Hrun as (-> & Sk & -> & _ & HSk & Hknil).
  replace (stack vmd) with Sd in * by (by destruct vm).
  apply bind_Ret in H as (? & ? & Hn & H). apply code_at_Ret in Hn as [_ ->].
  apply bind_Ret in H as (? & vmf & Hf & H).
  apply set_back_frame_Ret in Hf as ->. apply ret_Ret in H as [<- <-].
  replace (vars (set_stackframes _ _)) with Vd by (by destruct vm).
  replace (stack (set_stackframes _ _)) with Sk by (by destruct vm).
  assert (Hlow : forall j, j <= sp -> zlookup Sg j = zlookup (stack vm) j).
  { intros j Hj. destruct (decide (0 <= j)).
    - rewrite Hcopy by lia. by destruct vm.
    - unfold zlookup. by rewrite !decide_False by lia. }
  split; [|split; [|split; [|split]]].
  - intros k a Hka. destruct (Hsw k a Hka) as (E1 & E2 & [old Hold] & [arg Harg]).
    assert (Hslot : sp - na + 0 + 1 + Z.of_nat k <= sp).
    { apply lookup_lt_Some in Hka. unfold na. lia. }
    replace (sp - na + 1 + Z.of_nat k)
      with (sp - na + 0 + 1 + Z.of_nat k) by lia.
    exists old, arg. rewrite <- Hlow by lia.
    split; [done|]. split; [done|]. split.
    + rewrite HVd, E1; [done|]. intros Hin.
      apply (Hdisj a); [by eapply list_elem_of_lookup_2|done].
    + rewrite HSk, HSd by lia. by rewrite E2.
  - intros k d Hkd. destruct (Hdf k d Hkd) as (E & [old Hold]).
    assert (Hd_in : d ∈ h_defs h) by (by eapply list_elem_of_lookup_2).
    assert (Hd_out : d ∉ h_args h) by (intros ?; by apply (Hdisj d)).
    rewrite (HVs _ Hd_out) in Hold, E.
    exists old. split; [done|]. split; [by apply Hnil|].
    apply lookup_lt_Some in Hkd.
    rewrite HSk by lia. by rewrite E.
  - intros j Hj. apply Hknil. unfold nd in Hj. lia.
  - intros u0 Hu. rewrite HVd, HVs; [done| |].
    + intros ?. apply Hu, elem_of_app. by left.
    + intros ?. apply Hu, elem_of_app. by right.
  - intros j Hj. unfold na in Hj.
    rewrite HSk, HSd, HSs by lia. apply Hlow. lia.
Qed.

Lemma FunIntro_entry_cells_witness :
  (forall (k : nat) a, h_args ex_header !! k = Some a ->
     exists old arg,
       zlookup (vars ex_vm0) a = Some old /\
       zlookup (stack ex_vm0)
         (1 - Z.of_nat (length (h_args ex_header)) + 1 + Z.of_nat k)
       = Some arg /\
       zlookup (vars ex_vm1) a = Some arg /\
       zlookup (stack ex_vm1)
         (1 - Z.of_nat (length (h_args ex_header)) + 1 + Z.of_nat k)
       = Some old) /\
  (forall (k : nat) d, h_defs ex_header !! k = Some d ->
     exists old,
       zlookup (vars ex_vm0) d = Some old /\
       zlookup (vars ex_vm1) d = Some nil_Value /\
       zlookup (stack ex_vm1) (1 + 1 + Z.of_nat k) = Some old) /\
  (forall j, 1 + Z.of_nat (length (h_defs ex_header)) < j <= 3 ->
     zlookup (stack ex_vm1) j = Some nil_Value) /\
  (forall u, u ∉ h_args ex_header ++ h_defs ex_header ->
     zlookup (vars ex_vm1) u = zlookup (vars ex_vm0) u) /\
  (forall j, j <= 1 - Z.of_nat (length (h_args ex_header)) ->
     zlookup (stack ex_vm1) j = zlookup (stack ex_vm0) j).
Proof.
  apply (FunIntro_entry_cells ex_cfg ex_header 3 1 ex_vm0 3 ex_vm1).
  - apply ex_header_at.
  - apply (bool_decide_unpack _). vm_compute. reflexivity.
  - apply returned_final_state. vm_compute. reflexivity.
Defined.

(** ** Serious errors and the exit assertion *)

(** X5. [SeriousError] never returns, and has one way out: the kind of
    escape is fixed by the build flags, and a thrown exception carries the
    VM's own [errmsg]. The first error of a VM appends to [errmsg] ("VM
    error: " and the text, or in tail-trace mode the ring and the text); an
    error raised when one has already occurred replaces [errmsg] by its
    text. The stack, the globals and the frames are left as they were. *)
Theorem SeriousError_single_exit cfg err vm :
  match SeriousError cfg err vm with
  | Ret _ _ => False
  | Unwound e vm' =>
      e = (if VM_USE_LONGJMP cfg then LongJumped
           else if USE_EXCEPTION_HANDLING cfg then Thrown (errmsg vm')
                else Aborted) /\
      error_has_occured vm' = true /\
      errmsg vm' =
        (if error_has_occured vm then err
         else if decide (trace (vmargs vm) = TAIL /\ trace_output vm <> [])
              then errmsg vm +:+ ring_text vm +:+ err
              else errmsg vm +:+ "VM error: " +:+ err) /\
      stack vm' = stack vm /\ vars vm' = vars vm /\
      stackframes vm' = stackframes vm
  | Undef => (trace_ring_idx vm > length (trace_output vm))%nat
  end.
Proof.
  unfold SeriousError, ErrorBase, bind, modify, UnwindOnError,
    THROW_OR_ABORT, ring_text, ring_entries.
  destruct vm; simpl.
  destruct error_has_occured0.
  - destruct (VM_USE_LONGJMP cfg), (USE_EXCEPTION_HANDLING cfg); done.
  - destruct (decide (trace _ = TAIL /\ _)) as [Ht|Ht]; simpl.
    + destruct (decide (_ <= _)%nat) as [Hr|Hr]; [|lia].
      destruct (VM_USE_LONGJMP cfg), (USE_EXCEPTION_HANDLING cfg); done.
    + destruct (VM_USE_LONGJMP cfg), (USE_EXCEPTION_HANDLING cfg); done.
Qed.

(** X6. The exit assertion: in a build with VM assertions on, [FunOut]
    reached at a depth that, after the return values, is not the depth the
    frame recorded at entry, raises the serious error "VM internal
    assertion failure: false" and does not return; no global is restored
    and no frame is popped. *)
Theorem FunOut_unbalanced_asserts cfg sp nrv vm f :
  VMASSERT_ON cfg = true ->
  back (stackframes vm) = Some f ->
  sp - nrv <> spstart f ->
  match FunOut cfg sp nrv vm with
  | Ret _ _ => False
  | Unwound _ vm' =>
      (exists pre,
         errmsg vm' = pre +:+ "VM internal assertion failure: false") /\
      stackframes vm' = stackframes vm /\ vars vm' = vars vm /\
      stack vm' = stack vm /\ exit_steps vm' = exit_steps vm
  | Undef => (trace_ring_idx vm > length (trace_output vm))%nat
  end.
Proof.
  intros Hon Hback Hne. unfold FunOut. cbv zeta.
  rewrite bind_case. rewrite Hback. unfold lift_opt, ret at 1.
  rewrite bind_case. unfold VMASSERT. rewrite Hon.
  rewrite bool_decide_eq_false_2 by done. unfold when, negb, VMAssert.
  rewrite bind_case.
  pose proof (SeriousError_cases cfg
                ("VM internal assertion failure: " +:+ "false") vm) as HS.
  destruct (SeriousError _ _ vm) as [? ?|e vm'|]; [done| |done].
  destruct HS as (Hpre & _ & m & b & ->). split; [exact Hpre|].
  by destruct vm.
Qed.

Lemma FunOut_unbalanced_asserts_witness :
  match FunOut ex_cfg 5 1 ex_vm2 with
  | Ret _ _ => False
  | Unwound _ vm' =>
      (exists pre,
         errmsg vm' = pre +:+ "VM internal assertion failure: false") /\
      stackframes vm' = stackframes ex_vm2 /\ vars vm' = vars ex_vm2 /\
      stack vm' = stack ex_vm2 /\ exit_steps vm' = exit_steps ex_vm2
  | Undef => (trace_ring_idx ex_vm2 > length (trace_output ex_vm2))%nat
  end.
Proof.
  apply (FunOut_unbalanced_asserts ex_cfg 5 1 ex_vm2
           {| funstart := Some 3; spstart := 3 |}).
  - reflexivity.
  - vm_compute. reflexivity.
  - vm_compute. congruence.
Defined.

(** ** The error path, with helpers that may raise *)

Section TrackFacts.

Variable cfg : Build.
Variable to_string_hex : Z -> string.
Variable pointer_is_in_allocator : Z -> bool.
Variable RefToString : Z -> PrintRes.
Variable ToString : Value -> TypeInfo -> PrintRes.
Variable StructToString : TypeInfo -> list Value -> PrintRes.

#[local] Abbreviation tstep := (trace_step cfg RefToString ToString StructToString).
#[local] Abbreviation raised' := (raised RefToString ToString StructToString).

Lemma trace_rel_refl vm : error_has_occured vm = true -> trace_rel vm vm.
Proof.
  intros H. split; [done|]. split; [|done].
  exists "". by rewrite string_app_nil_r.
Qed.

Lemma trace_rel_trans vm1 vm2 vm3 :
  trace_rel vm1 vm2 -> trace_rel vm2 vm3 -> trace_rel vm1 vm3.
Proof.
  intros (_ & [d1 H1] & Hb1 & Hs1 & Hf1 & Hv1)
         (He & [d2 H2] & Hb2 & Hs2 & Hf2 & Hv2).
  split; [done|]. split.
  { exists (d1 +:+ d2). by rewrite H2, H1, string_app_assoc. }
  repeat split; congruence.
Qed.

Lemma trace_step_ret {A} (a : A) : tstep (ret a).
Proof. intros vm H. by apply trace_rel_refl. Qed.

Lemma trace_step_undef {A} : tstep (@undef VM A).
Proof. intros vm H. exact I. Qed.

Lemma trace_step_bind {A B} (m : M A) (k : A -> M B) :
  tstep m -> (forall a, tstep (k a)) -> tstep (bind m k).
Proof.
  intros Hm Hk vm H. unfold bind. specialize (Hm vm H).
  destruct (m vm) as [a vm1|e vm1|]; [|done|done].
  assert (H1 : error_has_occured vm1 = true) by apply Hm.
  specialize (Hk a vm1 H1).
  destruct (k a vm1) as [b vm2|e vm2|]; [|done|done].
  by eapply trace_rel_trans.
Qed.

Lemma trace_step_gets {A} (f : VM -> A) : tstep (gets f).
Proof. intros vm H. by apply trace_rel_refl. Qed.

Lemma trace_step_lift_opt {A} (o : option A) : tstep (lift_opt o).
Proof. destruct o; [apply trace_step_ret|apply trace_step_undef]. Qed.

Lemma trace_step_code_at p : tstep (code_at p).
Proof.
  intros vm H. unfold code_at.
  destruct (zlookup _ p); simpl; [by apply trace_rel_refl|done].
Qed.

Lemma trace_step_var_get i : tstep (var_get i).
Proof.
  intros vm H. unfold var_get.
  destruct (zlookup _ i); simpl; [by apply trace_rel_refl|done].
Qed.

Lemma trace_step_stack_get i : tstep (stack_get i).
Proof.
  intros vm H. unfold stack_get.
  destruct (zlookup _ i); simpl; [by apply trace_rel_refl|done].
Qed.

Lemma trace_step_Pop sp : tstep (Pop sp).
Proof.
  unfold Pop. apply trace_step_bind; [apply trace_step_stack_get|].
  intros v. apply trace_step_ret.
Qed.

Lemma trace_step_var_set i v : tstep (var_set i v).
Proof.
  intros vm H. unfold var_set.
  destruct (zstore (vars vm) i v) as [l|] eqn:Hl; [|done].
  split; [by destruct vm|]. split.
  { exists "". rewrite string_app_nil_r. by destruct vm. }
  repeat split; try by destruct vm.
  replace (vars (set_vars l vm)) with l by (by destruct vm).
  by eapply zstore_length.
Qed.

Lemma trace_step_append_errmsg text : tstep (append_errmsg text).
Proof.
  intros vm H. unfold append_errmsg, modify.
  split; [by destruct vm|]. split; [|by destruct vm].
  exists text. by destruct vm.
Qed.

Lemma trace_step_print r :
  (forall s, r = Raises s -> raised' s) -> tstep (print cfg r).
Proof.
  intros Hr. destruct r as [text|err]; simpl.
  - apply trace_step_append_errmsg.
  - intros vm H. specialize (Hr err eq_refl).
    unfold bind, SeriousError, bind, ErrorBase. rewrite H.
    unfold bind, modify, UnwindOnError, THROW_OR_ABORT, exit_kind.
    destruct (VM_USE_LONGJMP cfg), (USE_EXCEPTION_HANDLING cfg);
      (split; [by destruct vm|split; by destruct vm]).
Qed.

Lemma trace_step_if {A} (b : bool) (m1 m2 : M A) :
  tstep m1 -> tstep m2 -> tstep (if b then m1 else m2).
Proof. by destruct b. Qed.

Lemma trace_step_decide {A} P `{Decision P} (m1 m2 : M A) :
  tstep m1 -> tstep m2 -> tstep (if decide P then m1 else m2).
Proof. by destruct (decide P). Qed.

Lemma DumpVar_trace_step idx :
  tstep (DumpVar cfg ToString StructToString idx).
Proof.
  unfold DumpVar.
  apply trace_step_bind; [apply trace_step_gets|intros bc].
  apply trace_step_bind; [apply trace_step_lift_opt|intros sid].
  apply trace_step_bind; [apply trace_step_lift_opt|intros id].
  apply trace_step_if; [apply trace_step_ret|].
  apply trace_step_bind; [apply trace_step_var_get|intros x].
  apply trace_step_if; [apply trace_step_ret|].
  apply trace_step_bind; [apply trace_step_append_errmsg|intros _].
  apply trace_step_if.
  - apply trace_step_bind; [apply trace_step_gets|intros V].
    apply trace_step_bind; [|intros _; apply trace_step_ret].
    apply trace_step_print. intros s Hs. right. right. eauto.
  - apply trace_step_bind; [|intros _; apply trace_step_ret].
    apply trace_step_print. intros s Hs. right. left. eauto.
Qed.

Lemma dump_vars_trace_step fuel : forall j n p,
  tstep (dump_vars cfg ToString StructToString fuel j n p).
Proof.
  induction fuel as [|fuel IH]; intros j n p; simpl.
  - apply trace_step_ret.
  - apply trace_step_decide; [|apply trace_step_ret].
    apply trace_step_bind; [apply trace_step_code_at|intros i].
    apply trace_step_bind; [apply DumpVar_trace_step|intros r].
    apply trace_step_decide; [apply trace_step_undef|apply IH].
Qed.

Lemma dump_stack_trace_step fuel : forall sp,
  tstep (dump_stack cfg to_string_hex pointer_is_in_allocator RefToString
           fuel sp).
Proof.
  induction fuel as [|fuel IH]; intros sp; simpl.
  - apply trace_step_ret.
  - apply trace_step_bind; [apply trace_step_gets|intros frames].
    apply trace_step_if; [|apply trace_step_ret].
    apply trace_step_bind; [apply trace_step_stack_get|intros top].
    apply trace_step_bind; [apply trace_step_append_errmsg|intros _].
    apply trace_step_bind; [|intros _; apply IH].
    apply trace_step_if; [|apply trace_step_ret].
    apply trace_step_bind; [apply trace_step_append_errmsg|intros _].
    apply trace_step_print. intros s Hs. left. eauto.
Qed.

Lemma unwind_vars_trace_step n : forall p sp, tstep (unwind_vars n p sp).
Proof.
  induction n as [|n IH]; intros p sp; simpl.
  - apply trace_step_ret.
  - apply trace_step_bind; [apply trace_step_code_at|intros i].
    apply trace_step_bind; [apply trace_step_Pop|intros r].
    apply trace_step_bind; [apply trace_step_var_set|intros _].
    apply IH.
Qed.

Lemma while_dec_trace_step n body :
  (forall k, tstep (body k)) -> tstep (while_dec n body).
Proof.
  intros Hb. unfold while_dec.
  apply trace_step_decide; [apply Hb|apply trace_step_undef].
Qed.

Lemma tstep_bind_post {A B} (m : M A) (k : A -> M B) vm
    (Q : outcome VM B -> Prop) :
  tstep m ->
  error_has_occured vm = true ->
  (forall e vm', raised' (errmsg vm') -> e = exit_kind cfg vm' ->
     error_has_occured vm' = true -> Q (Unwound e vm')) ->
  Q Undef ->
  (forall a vm1, trace_rel vm vm1 -> Q (k a vm1)) ->
  Q (bind m k vm).
Proof.
  intros Hm H HU Hundef Hk. unfold bind. specialize (Hm vm H).
  destruct (m vm) as [a vm1|e vm1|]; [by apply Hk| |exact Hundef].
  destruct Hm as (? & ? & ?). by apply HU.
Qed.

Ltac tstep_solve :=
  repeat first
    [ apply trace_step_ret
    | apply trace_step_undef
    | apply trace_step_gets
    | apply trace_step_lift_opt
    | apply trace_step_code_at
    | apply trace_step_append_errmsg
    | apply dump_vars_trace_step
    | apply unwind_vars_trace_step
    | apply while_dec_trace_step; intros ?
    | apply trace_step_decide
    | apply trace_step_bind; [|intros ?] ].

(** The second loop of [Error]: each round pops one frame. *)
Lemma unwind_frames_run fuel : forall sp vm,
  error_has_occured vm = true ->
  match unwind_frames cfg ToString StructToString fuel sp vm with
  | Ret _ vm' =>
      error_has_occured vm' = true /\
      (exists d, errmsg vm' = errmsg vm +:+ d) /\
      bcf vm' = bcf vm /\ stack vm' = stack vm /\
      length (vars vm') = length (vars vm) /\
      stackframes vm' =
        take (length (stackframes vm) - fuel) (stackframes vm)
  | Unwound e vm' =>
      raised' (errmsg vm') /\ e = exit_kind cfg vm' /\
      error_has_occured vm' = true
  | Undef => True
  end.
Proof.
  induction fuel as [|fuel IH]; intros sp vm Heo.
  { simpl. split; [done|]. split; [exists ""; by rewrite string_app_nil_r|].
    repeat split; try done. rewrite Nat.sub_0_r. by rewrite firstn_all. }
  simpl unwind_frames. rewrite bind_gets.
  destruct (back (stackframes vm)) as [stf|] eqn:Hback.
  2:{ simpl. split; [done|].
      split; [exists ""; by rewrite string_app_nil_r|].
      repeat split; try done.
      unfold back in Hback. apply last_None in Hback. by rewrite Hback. }
  apply back_Some_snoc in Hback as [F HF].
  match goal with |- match ?o with _ => _ end =>
    change ((fun o' => match o' with
             | Ret _ vm' =>
                 error_has_occured vm' = true /\
                 (exists d, errmsg vm' = errmsg vm +:+ d) /\
                 bcf vm' = bcf vm /\ stack vm' = stack vm /\
                 length (vars vm') = length (vars vm) /\
                 stackframes vm' =
                   take (length (stackframes vm) - S fuel) (stackframes vm)
             | Unwound e vm' =>
                 raised' (errmsg vm') /\ e = exit_kind cfg vm' /\
                 error_has_occured vm' = true
             | Undef => True
             end) o)
  end.
  set (Q := fun o' : outcome VM unit => _).
  assert (HQU : forall e vm', raised' (errmsg vm') ->
                  e = exit_kind cfg vm' -> error_has_occured vm' = true ->
                  Q (Unwound e vm')) by done.
  assert (HQundef : Q Undef) by done.
  eapply tstep_bind_post; [tstep_solve|exact Heo|exact HQU|exact HQundef|].
  intros fs vm1 R1.
  eapply tstep_bind_post;
    [tstep_solve|apply R1|exact HQU|exact HQundef|].
  intros deffun vm2 R2. pose proof (trace_rel_trans _ _ _ R1 R2) as R12.
  rewrite bind_gets.
  eapply tstep_bind_post;
    [tstep_solve|apply R12|exact HQU|exact HQundef|].
  intros u3 vm3 R3. pose proof (trace_rel_trans _ _ _ R12 R3) as R13.
  eapply tstep_bind_post;
    [tstep_solve|apply R13|exact HQU|exact HQundef|].
  intros nargs vm4 R4. pose proof (trace_rel_trans _ _ _ R13 R4) as R14.
  eapply tstep_bind_post;
    [tstep_solve|apply R14|exact HQU|exact HQundef|].
  intros ndef vm5 R5. pose proof (trace_rel_trans _ _ _ R14 R5) as R15.
  eapply tstep_bind_post;
    [tstep_solve|apply R15|exact HQU|exact HQundef|].
  intros nkeepvars vm6 R6. pose proof (trace_rel_trans _ _ _ R15 R6) as R16.
  rewrite bind_gets.
  eapply tstep_bind_post;
    [tstep_solve|apply R16|exact HQU|exact HQundef|].
  intros u7 vm7 R7. pose proof (trace_rel_trans _ _ _ R16 R7) as R17.
  eapply tstep_bind_post;
    [tstep_solve|apply R17|exact HQU|exact HQundef|].
  intros sp8 vm8 R8. pose proof (trace_rel_trans _ _ _ R17 R8) as R18.
  eapply tstep_bind_post;
    [tstep_solve|apply R18|exact HQU|exact HQundef|].
  intros sp9 vm9 R9. pose proof (trace_rel_trans _ _ _ R18 R9) as R19.
  rewrite bind_modify, bind_gets.
  destruct R19 as (He9 & [d9 Hd9] & Hb9 & Hs9 & Hf9 & Hv9).
  match goal with |- Q (unwind_frames _ _ _ fuel ?s ?v) =>
    specialize (IH s v);
    destruct (unwind_frames cfg ToString StructToString fuel s v)
      as [u' vm'| |]
  end.
  - destruct IH as (He & [d Hd] & Hb & Hs & Hv & Hf); [by destruct vm9|].
    unfold Q.
    replace (errmsg (set_stackframes _ vm9)) with (errmsg vm9) in Hd
      by (by destruct vm9).
    replace (bcf (set_stackframes _ vm9)) with (bcf vm9) in Hb
      by (by destruct vm9).
    replace (stack (set_stackframes _ vm9)) with (stack vm9) in Hs
      by (by destruct vm9).
    replace (vars (set_stackframes _ vm9)) with (vars vm9) in Hv
      by (by destruct vm9).
    replace (stackframes (set_stackframes _ vm9))
      with (pop_back (stackframes vm9)) in Hf by (by destruct vm9).
    split; [done|]. split.
    { exists (d9 +:+ d). by rewrite Hd, Hd9, string_app_assoc. }
    split; [congruence|]. split; [congruence|]. split; [congruence|].
    rewrite Hf, Hf9, HF.
    change (F ++ [stf]) with (push_back F stf).
    rewrite pop_back_push_back. unfold push_back.
    rewrite length_app. simpl.
    replace (length F + 1 - S fuel)%nat with (length F - fuel)%nat by lia.
    rewrite take_app_le by lia. done.
  - unfold Q. apply IH. by destruct vm9.
  - done.
Qed.

(** The try block of [Error], run with the error flag set. *)
Lemma Error_body_run sp vm :
  error_has_occured vm = true ->
  match (sp' <- dump_stack cfg to_string_hex pointer_is_in_allocator
                  RefToString (Z.to_nat (sp + 1)) sp ;;
         frames <- gets stackframes ;;
         unwind_frames cfg ToString StructToString (length frames) sp') vm
  with
  | Ret _ vm' =>
      error_has_occured vm' = true /\
      (exists d, errmsg vm' = errmsg vm +:+ d) /\
      bcf vm' = bcf vm /\ stack vm' = stack vm /\
      length (vars vm') = length (vars vm) /\
      stackframes vm' = []
  | Unwound e vm' =>
      raised' (errmsg vm') /\ e = exit_kind cfg vm' /\
      error_has_occured vm' = true
  | Undef => True
  end.
Proof.
  intros Heo. rewrite bind_case.
  pose proof (dump_stack_trace_step (Z.to_nat (sp + 1)) sp vm Heo) as Hd.
  destruct (dump_stack _ _ _ _ _ _ vm) as [sp1 vm1| |]; [|done|done].
  destruct Hd as (He1 & [d1 Hd1] & Hb1 & Hs1 & Hf1 & Hv1).
  rewrite bind_gets.
  pose proof (unwind_frames_run (length (stackframes vm1)) sp1 vm1 He1)
    as Hu.
  destruct (unwind_frames _ _ _ _ _ vm1) as [u vm2| |]; [|done|done].
  destruct Hu as (He2 & [d2 Hd2] & Hb2 & Hs2 & Hv2 & Hf2).
  split; [done|]. split.
  { exists (d1 +:+ d2). by rewrite Hd2, Hd1, string_app_assoc. }
  split; [congruence|]. split; [congruence|]. split; [congruence|].
  by rewrite Hf2, Nat.sub_diag.
Qed.

Lemma UnwindOnError_exit {A} vm e vm' :
  @UnwindOnError cfg A vm = Unwound e vm' ->
  vm' = vm /\ e = exit_kind cfg vm.
Proof.
  unfold UnwindOnError, THROW_OR_ABORT, exit_kind.
  destruct (VM_USE_LONGJMP cfg), (USE_EXCEPTION_HANDLING cfg);
    intros [= <- <-]; done.
Qed.

(** Every escape from [Error] is the one [UnwindOnError] makes. *)
Lemma Error_exit sp err vm e vm' :
  Error cfg to_string_hex pointer_is_in_allocator RefToString ToString
    StructToString sp err vm = Unwound e vm' ->
  e = exit_kind cfg vm' /\ error_has_occured vm' = true.
Proof.
  intros H.
  unfold Error in H. rewrite bind_case in H.
  pose proof (ErrorBase_cases cfg err vm) as HE.
  destruct (ErrorBase cfg err vm) as [u vm1|e1 vm1|] eqn:HEB; [| |done].
  2:{ injection H as <- <-. destruct HE as (_ & Heo & _). split; [|done].
      unfold ErrorBase in HEB.
      destruct (error_has_occured vm).
      - rewrite bind_modify in HEB.
        by apply UnwindOnError_exit in HEB as [-> ->].
      - destruct (decide (_ /\ _)); [|done].
        destruct (decide (_ <= _)%nat); [|done].
        rewrite bind_modify in HEB.
        by apply UnwindOnError_exit in HEB as [-> ->]. }
  destruct HE as [Heo ->]. rewrite bind_case in H. unfold try_catch in H.
  match type of H with context [bind ?m ?k ?s] =>
    pose proof (Error_body_run sp s eq_refl) as Hb;
    destruct (bind m k s) as [u2 vm2|e2 vm2|]
  end; [| |done].
  - destruct Hb as (He2 & _).
    apply UnwindOnError_exit in H as [-> ->]. done.
  - destruct Hb as (Hr & He2 & Hflag). unfold exit_kind in He2.
    destruct (VM_USE_LONGJMP cfg) eqn:Hlj.
    { subst e2. injection H as <- <-. unfold exit_kind.
      by rewrite Hlj. }
    destruct (USE_EXCEPTION_HANDLING cfg) eqn:Hex.
    + subst e2. unfold append_errmsg, modify in H.
      apply UnwindOnError_exit in H as [-> ->]. split; [done|].
      by destruct vm2.
    + subst e2. injection H as <- <-. unfold exit_kind.
      by rewrite Hlj, Hex.
Qed.

(** X7. One way out of [Error]: it never returns, and however the trace
    building goes, and whether or not an error had already occurred, the
    escape from [Error] is the one the build flags fix: an exception it
    throws carries exactly the [errmsg] of the VM it leaves behind, whose
    error flag is set. *)
Theorem Error_escape_carries_errmsg sp err vm :
  match Error cfg to_string_hex pointer_is_in_allocator RefToString ToString
          StructToString sp err vm with
  | Ret _ _ => False
  | Unwound e vm' =>
      e = (if VM_USE_LONGJMP cfg then LongJumped
           else if USE_EXCEPTION_HANDLING cfg then Thrown (errmsg vm')
                else Aborted) /\
      error_has_occured vm' = true
  | Undef => True
  end.
Proof.
  destruct (Error _ _ _ _ _ _ sp err vm) as [v vm'|e vm'|] eqn:H.
  - unfold Error in H.
    apply bind_Ret in H as (? & ? & _ & H).
    apply bind_Ret in H as (? & ? & _ & H).
    by apply UnwindOnError_not_Ret in H.
  - by apply Error_exit in H.
  - done.
Qed.

(** X8. The two shapes of a first error's message in an exception build
    (no tail trace recorded): either the trace was built to its end, and
    the message is what was there, "VM error: ", the error text and the
    trace, with every frame popped and the stack cells untouched; or a
    printing helper raised a text [s] on the way, and the message is [s],
    a line "RECURSIVE ERROR:" and [s] again. *)
Theorem Error_message_shapes sp err vm e vm' :
  USE_EXCEPTION_HANDLING cfg = true ->
  VM_USE_LONGJMP cfg = false ->
  error_has_occured vm = false ->
  ~ (trace (vmargs vm) = TAIL /\ trace_output vm <> []) ->
  Error cfg to_string_hex pointer_is_in_allocator RefToString ToString
    StructToString sp err vm = Unwound e vm' ->
  (exists rest,
     errmsg vm' = errmsg vm +:+ "VM error: " +:+ err +:+ rest /\
     stackframes vm' = [] /\ stack vm' = stack vm /\
     length (vars vm') = length (vars vm)) \/
  (exists s,
     raised RefToString ToString StructToString s /\
     errmsg vm' = s +:+ nl +:+ "RECURSIVE ERROR:" +:+ nl +:+ s).
Proof.
  intros Hex Hlj Heo Htr H. unfold Error in H. rewrite bind_case in H.
  rewrite (ErrorBase_first _ _ _ Heo Htr) in H.
  rewrite bind_case in H. unfold try_catch in H.
  match type of H with context [bind ?m ?k ?s] =>
    pose proof (Error_body_run sp s eq_refl) as Hb;
    destruct (bind m k s) as [u2 vm2|e2 vm2|]
  end; [| |done].
  - destruct Hb as (_ & [d Hd] & _ & Hs & Hv & Hf).
    apply UnwindOnError_exit in H as [-> _]. left. exists d.
    split; [|by destruct vm].
    rewrite Hd. simpl. by rewrite !string_app_assoc.
  - destruct Hb as (Hr & He2 & _). unfold exit_kind in He2.
    rewrite Hlj, Hex in He2. subst e2. rewrite Hex in H.
    unfold append_errmsg, modify in H.
    apply UnwindOnError_exit in H as [-> _]. right.
    exists (errmsg vm2). split; [done|]. by destruct vm2.
Qed.

(** X9. With printing helpers that do not raise, a first error (no tail
    trace recorded) leaves no frame behind in any build: when [Error]
    unwinds, the frame list is empty, the stack cells are the ones the
    error found, the globals keep their number, and the message starts
    with what was there, "VM error: " and the error text. *)
Theorem Error_unwinds_all_frames sp err vm e vm' :
  never_raises RefToString ->
  never_raises2 ToString ->
  never_raises2 StructToString ->
  error_has_occured vm = false ->
  ~ (trace (vmargs vm) = TAIL /\ trace_output vm <> []) ->
  Error cfg to_string_hex pointer_is_in_allocator RefToString ToString
    StructToString sp err vm = Unwound e vm' ->
  stackframes vm' = [] /\ stack vm' = stack vm /\
  length (vars vm') = length (vars vm) /\ bcf vm' = bcf vm /\
  exists rest, errmsg vm' = errmsg vm +:+ "VM error: " +:+ err +:+ rest.
Proof.
  intros HRef HTo HSt Heo Htr H. unfold Error in H. rewrite bind_case in H.
  rewrite (ErrorBase_first _ _ _ Heo Htr) in H.
  rewrite bind_case in H. unfold try_catch in H.
  match type of H with context [bind ?m ?k ?s] =>
    pose proof (Error_body_run sp s eq_refl) as Hb;
    destruct (bind m k s) as [u2 vm2|e2 vm2|]
  end; [| |done].
  - destruct Hb as (_ & [d Hd] & Hbc & Hs & Hv & Hf).
    apply UnwindOnError_exit in H as [-> _].
    split; [done|]. split; [by destruct vm|]. split; [by destruct vm|].
    split; [by destruct vm|]. exists d.
    rewrite Hd. simpl. by rewrite !string_app_assoc.
  - exfalso. destruct Hb as (Hr & _).
    destruct Hr as [[v Hv]|[(x & ti & Hx)|(ti & xs & Hx)]].
    + destruct (HRef v) as [t Ht]. congruence.
    + destruct (HTo x ti) as [t Ht]. congruence.
    + destruct (HSt ti xs) as [t Ht]. congruence.
Qed.

End TrackFacts.

Lemma unwound_final_state {A} (o : outcome VM A) d e :
  match o with Unwound x _ => Some x | _ => None end = Some e ->
  o = Unwound e (final_state o d).
Proof. destruct o; simpl; intros [= <-]; done. Qed.

Lemma Error_message_shapes_witness :
  (exists rest,
     errmsg (final_state
       (Error ex_cfg ex_hex ex_in_alloc ex_RefToString ex_ToString_failing
          ex_StructToString 3 "oops" ex_vm1) ex_vm1)
     = errmsg ex_vm1 +:+ "VM error: " +:+ "oops" +:+ rest /\
     stackframes (final_state
       (Error ex_cfg ex_hex ex_in_alloc ex_RefToString ex_ToString_failing
          ex_StructToString 3 "oops" ex_vm1) ex_vm1) = [] /\
     stack (final_state
       (Error ex_cfg ex_hex ex_in_alloc ex_RefToString ex_ToString_failing
          ex_StructToString 3 "oops" ex_vm1) ex_vm1) = stack ex_vm1 /\
     length (vars (final_state
       (Error ex_cfg ex_hex ex_in_alloc ex_RefToString ex_ToString_failing
          ex_StructToString 3 "oops" ex_vm1) ex_vm1))
     = length (vars ex_vm1)) \/
  (exists s,
     raised ex_RefToString ex_ToString_failing ex_StructToString s /\
     errmsg (final_state
       (Error ex_cfg ex_hex ex_in_alloc ex_RefToString ex_ToString_failing
          ex_StructToString 3 "oops" ex_vm1) ex_vm1)
     = s +:+ nl +:+ "RECURSIVE ERROR:" +:+ nl +:+ s).
Proof.
  apply (Error_message_shapes ex_cfg ex_hex ex_in_alloc ex_RefToString
           ex_ToString_failing ex_StructToString 3 "oops" ex_vm1
           (Thrown ("boom" +:+ nl +:+ "RECURSIVE ERROR:" +:+ nl +:+ "boom"))).
  - reflexivity.
  - reflexivity.
  - vm_compute. reflexivity.
  - intros [Ht _]. vm_compute in Ht. discriminate.
  - apply unwound_final_state. vm_compute. reflexivity.
Defined.

Lemma Error_unwinds_all_frames_witness :
  stackframes (final_state
    (Error ex_cfg ex_hex ex_in_alloc ex_RefToString ex_ToString
       ex_StructToString 3 "oops" ex_vm1) ex_vm1) = [] /\
  stack (final_state
    (Error ex_cfg ex_hex ex_in_alloc ex_RefToString ex_ToString
       ex_StructToString 3 "oops" ex_vm1) ex_vm1) = stack ex_vm1 /\
  length (vars (final_state
    (Error ex_cfg ex_hex ex_in_alloc ex_RefToString ex_ToString
       ex_StructToString 3 "oops" ex_vm1) ex_vm1)) = length (vars ex_vm1) /\
  bcf (final_state
    (Error ex_cfg ex_hex ex_in_alloc ex_RefToString ex_ToString
       ex_StructToString 3 "oops" ex_vm1) ex_vm1) = bcf ex_vm1 /\
  exists rest,
    errmsg (final_state
      (Error ex_cfg ex_hex ex_in_alloc ex_RefToString ex_ToString
         ex_StructToString 3 "oops" ex_vm1) ex_vm1)
    = errmsg ex_vm1 +:+ "VM error: " +:+ "oops" +:+ rest.
Proof.
  apply (Error_unwinds_all_frames ex_cfg ex_hex ex_in_alloc ex_RefToString
           ex_ToString ex_StructToString 3 "oops" ex_vm1
           (Thrown ("VM error: oops" +:+ nl +:+ "in function: f" +:+ nl
                    +:+ "   x = 0" +:+ nl +:+ "   x = 101" +:+ nl
                    +:+ "   x = 100"))).
  - apply ex_RefToString_ok.
  - apply ex_ToString_ok.
  - apply ex_StructToString_ok.
  - vm_compute. reflexivity.
  - intros [Ht _]. vm_compute in Ht. discriminate.
  - apply unwound_final_state. vm_compute. reflexivity.
Defined.

(** ** An error in tail-trace mode *)

Lemma trace_call_frame x vm vm' :
  (slot <- TraceStream ;; append_slot slot x) vm = Ret tt vm' ->
  exists out idx, vm' = set_trace_ring_idx idx (set_trace_output out vm).
Proof.
  intros H. apply bind_Ret in H as (slot & vm1 & Hts & Ha).
  unfold TraceStream in Hts.
  destruct (decide (_ < length _)%nat); [|done].
  injection Hts as <- <-. unfold append_slot in Ha.
  destruct (trace_output _ !! _) as [sd|]; [|done].
  injection Ha as <-. eexists _, _. by destruct vm.
Qed.

Lemma trace_calls_frame texts : forall vm vm',
  trace_calls texts vm = Ret tt vm' ->
  exists out idx, vm' = set_trace_ring_idx idx (set_trace_output out vm).
Proof.
  induction texts as [|x texts IH]; intros vm vm' H; simpl in H.
  - injection H as <-. exists (trace_output vm), (trace_ring_idx vm).
    by destruct vm.
  - rewrite <- bind_assoc in H.
    apply bind_Ret in H as ([] & vm1 & H1 & H).
    apply trace_call_frame in H1 as (o1 & i1 & ->).
    apply IH in H as (o2 & i2 & ->). exists o2, i2. by destruct vm.
Qed.

Lemma concat_padded (k : nat) (texts : list string) :
  String.concat "" (replicate k "" ++ texts) = String.concat "" texts.
Proof.
  induction k as [|k IH]; [done|].
  change (replicate (S k) "" ++ texts) with ("" :: (replicate k "" ++ texts)).
  by rewrite concat_cons, IH.
Qed.

Section TailError.

Variable cfg : Build.
Variable to_string_hex : Z -> string.
Variable pointer_is_in_allocator : Z -> bool.
Variable RefToString : Z -> PrintRes.
Variable ToString : Value -> TypeInfo -> PrintRes.
Variable StructToString : TypeInfo -> list Value -> PrintRes.

(** X10. An error after traced instructions, in tail-trace mode: on a VM
    started with an empty ring, once the texts [texts] (at least one) have
    been traced, [Error] unwinds at once with the message made of what was
    there, the last fifty traced texts in the order they were traced, and
    the error text; there is no "VM error: " prefix and no stack trace, and
    no frame is popped. *)
Theorem tail_error_message texts sp err vm :
  trace (vmargs vm) = TAIL ->
  trace_output vm = [] ->
  trace_ring_idx vm = 0%nat ->
  error_has_occured vm = false ->
  texts <> [] ->
  exists vm1 e vm2,
    trace_calls texts vm = Ret tt vm1 /\
    Error cfg to_string_hex pointer_is_in_allocator RefToString ToString
      StructToString sp err vm1 = Unwound e vm2 /\
    errmsg vm2 =
      errmsg vm +:+ String.concat "" (drop (length texts - 50) texts)
      +:+ err /\
    stackframes vm2 = stackframes vm /\ vars vm2 = vars vm.
Proof.
  intros Htail Hout Hidx Heo Hne.
  destruct (trace_calls_inv texts [] vm) as (vm1 & Hrun & Hinv & Hargs).
  { by left. }
  change ([] ++ texts) with texts in Hinv.
  destruct (trace_calls_frame _ _ _ Hrun) as (out & idx & Hvm1).
  destruct Hinv as [(_ & _ & ->)|(Hlen & Hi & Hring)]; [done|].
  assert (Hsize : trace_size vm1 = 50%nat).
  { unfold trace_size. rewrite Hargs. by rewrite decide_True. }
  rewrite Hsize in *.
  assert (Htext : ring_text vm1
                  = String.concat "" (drop (length texts - 50) texts)).
  { unfold ring_text. rewrite Hring, drop_padded.
    destruct (decide (length texts < 50)%nat).
    - rewrite concat_padded.
      replace (length texts - 50)%nat with 0%nat by lia. by rewrite drop_0.
    - done. }
  assert (Hm1 : errmsg vm1 = errmsg vm) by (subst vm1; by destruct vm).
  assert (He1 : error_has_occured vm1 = false)
    by (subst vm1; by destruct vm).
  assert (Hf1 : stackframes vm1 = stackframes vm)
    by (subst vm1; by destruct vm).
  assert (Hv1 : vars vm1 = vars vm) by (subst vm1; by destruct vm).
  assert (HEB : exists e,
    ErrorBase cfg err vm1 =
    Unwound e (set_errmsg (errmsg vm1 +:+ ring_text vm1 +:+ err)
                 (set_error_has_occured true vm1))).
  { unfold ErrorBase. rewrite He1. cbv zeta.
    rewrite decide_True.
    2:{ split; [destruct vm1; simpl in *; congruence|].
        intros Hnil. destruct vm1; simpl in *. by rewrite Hnil in Hlen. }
    rewrite decide_True by (destruct vm1; simpl in *; lia).
    rewrite bind_modify. unfold UnwindOnError, THROW_OR_ABORT.
    replace (errmsg (set_error_has_occured true vm1)) with (errmsg vm1)
      by (by destruct vm1).
    replace (ring_text (set_error_has_occured true vm1)) with (ring_text vm1)
      by (by destruct vm1).
    destruct (VM_USE_LONGJMP cfg), (USE_EXCEPTION_HANDLING cfg);
      eexists; reflexivity. }
  destruct HEB as [e HEB].
  exists vm1, e. eexists. split; [done|]. split.
  { unfold Error. rewrite bind_case, HEB. reflexivity. }
  split; [|by destruct vm1].
  replace (errmsg (set_errmsg _ _))
    with (errmsg vm1 +:+ ring_text vm1 +:+ err) by (by destruct vm1).
  by rewrite Hm1, Htext.
Qed.

End TailError.

Lemma tail_error_message_witness :
  exists vm1 e vm2,
    trace_calls ex_texts (VM_new ex_tail_args) = Ret tt vm1 /\
    Error ex_cfg ex_hex ex_in_alloc ex_RefToString ex_ToString
      ex_StructToString (-1) "oops" vm1 = Unwound e vm2 /\
    errmsg vm2 =
      errmsg (VM_new ex_tail_args)
      +:+ String.concat "" (drop (length ex_texts - 50) ex_texts)
      +:+ "oops" /\
    stackframes vm2 = stackframes (VM_new ex_tail_args) /\
    vars vm2 = vars (VM_new ex_tail_args).
Proof.
  apply (tail_error_message ex_cfg ex_hex ex_in_alloc ex_RefToString
           ex_ToString ex_StructToString ex_texts (-1) "oops"
           (VM_new ex_tail_args)).
  - reflexivity.
  - reflexivity.
  - reflexivity.
  - reflexivity.
  - intros H. vm_compute in H. discriminate H.
Defined.

(** ** Workers: writes, reads and failures *)

Section WorkerMore.

Variable cfg : Build.
Variable to_string_hex : Z -> string.
Variable pointer_is_in_allocator : Z -> bool.
Variable RefToString : Z -> PrintRes.
Variable ToString : Value -> TypeInfo -> PrintRes.
Variable StructToString : TypeInfo -> list Value -> PrintRes.
Variable IsRefNil : ValueType -> bool.

Lemma bind_ret_W {A B} (a : A) (k : A -> W B) w : bind (ret a) k w = k a w.
Proof. reflexivity. Qed.

(** The copy loop over scalar fields that are there. *)
Lemma copy_fields_scalar n : forall sp i bc ti st buf w,
  0 <= i ->
  (forall j, i <= j < i + Z.of_nat n ->
     exists et, zlookup (elemtypes ti) j = Some et /\
                IsRefNil (t (GetTypeInfo bc et)) = false) ->
  i + Z.of_nat n <= Z.of_nat (length (elems st)) ->
  copy_fields cfg to_string_hex pointer_is_in_allocator RefToString ToString
    StructToString IsRefNil n sp i bc ti st buf w
  = Ret (buf ++ take n (drop (Z.to_nat i) (elems st))) w.
Proof.
  induction n as [|n IH]; intros sp i bc ti st buf w Hi Hsc Hlen.
  - simpl. by rewrite app_nil_r.
  - cbn [copy_fields]. destruct (Hsc i) as (et & Het & Hnil); [lia|].
    rewrite bind_lift_opt_W, Het, Hnil, bind_ret_W.
    destruct (zlookup (elems st) i) as [v|] eqn:Hv.
    2:{ apply zlookup_None in Hv. lia. }
    rewrite bind_lift_opt_W. rewrite IH; [| lia | |lia].
    2:{ intros j Hj. apply Hsc. lia. }
    f_equal. rewrite <- app_assoc. f_equal.
    apply zlookup_Some in Hv as [_ Hv].
    rewrite (drop_S _ _ _ Hv). simpl. do 2 f_equal. f_equal. lia.
Qed.

(** The copy loop stopped by the first field that is not a scalar. *)
Lemma copy_fields_nonscalar n : forall sp i i0 bc ti st buf w et0,
  0 <= i <= i0 -> i0 < i + Z.of_nat n ->
  (forall j, i <= j < i0 ->
     exists et, zlookup (elemtypes ti) j = Some et /\
                IsRefNil (t (GetTypeInfo bc et)) = false) ->
  i0 <= Z.of_nat (length (elems st)) ->
  zlookup (elemtypes ti) i0 = Some et0 ->
  IsRefNil (t (GetTypeInfo bc et0)) = true ->
  copy_fields cfg to_string_hex pointer_is_in_allocator RefToString ToString
    StructToString IsRefNil n sp i bc ti st buf w
  = (raise_error cfg to_string_hex pointer_is_in_allocator RefToString
       ToString StructToString) sp "thread write: only scalar class members supported for now" w.
Proof.
  induction n as [|n IH]; intros sp i i0 bc ti st buf w et0 Hi Hn Hsc Hlen
    Het0 Hnil0; [lia|].
  cbn [copy_fields]. destruct (decide (i = i0)) as [->|Hne].
  - rewrite bind_lift_opt_W, Het0, Hnil0. apply raise_error_bind.
  - destruct (Hsc i) as (et & Het & Hnil); [lia|].
    rewrite bind_lift_opt_W, Het, Hnil, bind_ret_W.
    destruct (zlookup (elems st) i) as [v|] eqn:Hv.
    2:{ apply zlookup_None in Hv. lia. }
    rewrite bind_lift_opt_W.
    apply (IH _ _ i0 _ _ _ _ _ et0); try done; try lia.
    intros j Hj. apply Hsc. lia.
Qed.

(** A failing copy loop leaves the shared memory alone. *)
Lemma raise_error_process {A} sp msg w e w' :
  @raise_error cfg to_string_hex pointer_is_in_allocator RefToString ToString
    StructToString A sp msg w = Unwound e w' -> w'.2 = w.2.
Proof.
  unfold raise_error, liftVM.
  destruct (bind _ _ w.1) as [? ?|? ?|]; [discriminate| |discriminate].
  by intros [= _ <-].
Qed.

Lemma copy_fields_process n : forall sp i bc ti st buf w,
  match copy_fields cfg to_string_hex pointer_is_in_allocator RefToString
          ToString StructToString IsRefNil n sp i bc ti st buf w with
  | Ret _ w' => w' = w
  | Unwound _ w' => w'.2 = w.2
  | Undef => True
  end.
Proof.
  induction n as [|n IH]; intros sp i bc ti st buf w; [done|].
  cbn [copy_fields]. rewrite bind_lift_opt_W.
  destruct (zlookup (elemtypes ti) i) as [et|]; [|done].
  destruct (IsRefNil _).
  - rewrite raise_error_bind.
    destruct (raise_error _ _ _ _ _ _ _ _ w) as [? ?|e w'|] eqn:Hr;
      [by apply raise_error_not_Ret in Hr| |done].
    by apply raise_error_process in Hr.
  - rewrite bind_ret_W, bind_lift_opt_W.
    destruct (zlookup (elems st) i) as [v|]; [|done]. apply IH.
Qed.

(** What a write of a class object with scalar fields does, as an
    equation. *)
Lemma WorkerWrite_run sp st vm p a ts q :
  let ti := GetTypeInfo (bcf vm) (tti st) in
  tuple_space vm = Some a ->
  spaces p !! a = Some ts ->
  t ti = V_CLASS ->
  zlookup (tupletypes ts) (structidx ti) = Some q ->
  0 <= len ti <= Z.of_nat (length (elems st)) ->
  (forall i, 0 <= i < len ti ->
     exists et, zlookup (elemtypes ti) i = Some et /\
                IsRefNil (t (GetTypeInfo (bcf vm) et)) = false) ->
  exists tts,
    zstore (tupletypes ts) (structidx ti)
      {| tuples := tuples q ++ [take (Z.to_nat (len ti)) (elems st)] |}
    = Some tts /\
    (WorkerWrite cfg to_string_hex pointer_is_in_allocator RefToString
       ToString StructToString IsRefNil) sp (Some st) (vm, p)
    = Ret tt (vm, {| spaces :=
                       <[a := {| tupletypes := tts; alive := alive ts |}]>
                         (spaces p);
                     threads := threads p |}).
Proof.
  intros ti Hts Hsp Hcl Hq Hlen Hsc.
  destruct (zstore_is_Some (tupletypes ts) (structidx ti)
              {| tuples := tuples q ++ [take (Z.to_nat (len ti)) (elems st)] |})
    as [tts Htts].
  { by apply zlookup_lt in Hq. }
  exists tts. split; [done|].
  unfold WorkerWrite. cbn [fst snd]. rewrite Hts.
  rewrite bind_ret_W, bind_lift_opt_W. fold ti.
  rewrite bool_decide_eq_true_2 by done. rewrite bind_ret_W.
  unfold bind.
  rewrite copy_fields_scalar; [|lia| |lia].
  2:{ intros j Hj. apply Hsc. lia. }
  cbn [fst snd]. rewrite Hsp, Hq. simpl. rewrite drop_0.
  unfold set_queue. by rewrite Htts.
Qed.

(** X11. A write enqueues a copy of the fields: on a VM with a tuple
    space, [WorkerWrite] of a class object all of whose [len] fields are
    scalars returns normally, having put one buffer with the object's
    first [len] cells at the back of the queue of the object's
    [structidx]; the other queues, the flag of the space, the other
    spaces, the threads and the VM itself are unchanged. *)
Theorem WorkerWrite_enqueues sp st vm p a ts q :
  let ti := GetTypeInfo (bcf vm) (tti st) in
  tuple_space vm = Some a ->
  spaces p !! a = Some ts ->
  t ti = V_CLASS ->
  zlookup (tupletypes ts) (structidx ti) = Some q ->
  0 <= len ti <= Z.of_nat (length (elems st)) ->
  (forall i, 0 <= i < len ti ->
     exists et, zlookup (elemtypes ti) i = Some et /\
                IsRefNil (t (GetTypeInfo (bcf vm) et)) = false) ->
  exists p' ts',
    (WorkerWrite cfg to_string_hex pointer_is_in_allocator RefToString
       ToString StructToString IsRefNil) sp (Some st) (vm, p) = Ret tt (vm, p') /\
    spaces p' !! a = Some ts' /\
    zlookup (tupletypes ts') (structidx ti)
    = Some {| tuples :=
                tuples q ++ [take (Z.to_nat (len ti)) (elems st)] |} /\
    (forall j, j <> structidx ti ->
       zlookup (tupletypes ts') j = zlookup (tupletypes ts) j) /\
    alive ts' = alive ts /\
    (forall b, b <> a -> spaces p' !! b = spaces p !! b) /\
    threads p' = threads p.
Proof.
  intros ti Hts Hsp Hcl Hq Hlen Hsc.
  destruct (WorkerWrite_run sp st vm p a ts q Hts Hsp Hcl Hq Hlen Hsc)
    as (tts & Htts & Hrun).
  eexists _, _. split; [exact Hrun|]. cbn [spaces threads].
  split; [apply lookup_insert_eq|]. cbn [tupletypes alive].
  split; [by eapply zstore_lookup_eq|].
  split; [intros j Hj; by eapply zstore_lookup_ne|].
  split; [done|]. split; [|done].
  intros b Hb. by apply lookup_insert_ne.
Qed.

(** X12. First in, first out, across VMs: after a write as above, a read
    of the same class by any VM that shares the tuple space and the
    program image returns an object made from the oldest buffer of the
    queue -- the written fields themselves when the queue was empty --
    and leaves the rest of the queue, the written buffer last. *)
Theorem WorkerWrite_then_WorkerRead sp sp2 st vm vm2 p a ts q b rest :
  let ti := GetTypeInfo (bcf vm) (tti st) in
  tuple_space vm = Some a ->
  spaces p !! a = Some ts ->
  t ti = V_CLASS ->
  zlookup (tupletypes ts) (structidx ti) = Some q ->
  0 <= len ti <= Z.of_nat (length (elems st)) ->
  (forall i, 0 <= i < len ti ->
     exists et, zlookup (elemtypes ti) i = Some et /\
                IsRefNil (t (GetTypeInfo (bcf vm) et)) = false) ->
  tuple_space vm2 = Some a ->
  bcf vm2 = bcf vm ->
  tuples q ++ [take (Z.to_nat (len ti)) (elems st)] = b :: rest ->
  len ti <= Z.of_nat (length b) ->
  exists p1 p2 ts2,
    (WorkerWrite cfg to_string_hex pointer_is_in_allocator RefToString
       ToString StructToString IsRefNil) sp (Some st) (vm, p) = Ret tt (vm, p1) /\
    (WorkerRead cfg to_string_hex pointer_is_in_allocator RefToString
       ToString StructToString) sp2 (tti st) (vm2, p1)
    = Ret (Returned (Some {| tti := tti st;
                             elems := take (Z.to_nat (len ti)) b |}))
        (vm2, p2) /\
    spaces p2 !! a = Some ts2 /\
    zlookup (tupletypes ts2) (structidx ti) = Some {| tuples := rest |} /\
    (tuples q = [] ->
       take (Z.to_nat (len ti)) b = take (Z.to_nat (len ti)) (elems st) /\
       rest = []).
Proof.
  intros ti Hts Hsp Hcl Hq Hlen Hsc Hts2 Hbcf HQ Hb.
  destruct (WorkerWrite_run sp st vm p a ts q Hts Hsp Hcl Hq Hlen Hsc)
    as (tts & Htts & Hrun).
  fold ti in Htts, Hrun. rewrite HQ in Htts.
  destruct (zstore_is_Some tts (structidx ti) {| tuples := rest |})
    as [tts2 Htts2].
  { rewrite (zstore_length _ _ _ _ Htts). by apply zlookup_lt in Hq. }
  eexists _, _, _. split; [exact Hrun|].
  split; [|split; [|split]].
  - unfold WorkerRead. cbn [fst snd]. rewrite Hbcf. fold ti.
    rewrite bool_decide_eq_true_2 by done. rewrite bind_ret_W.
    rewrite Hts2, bind_lift_opt_W. cbn [spaces].
    rewrite lookup_insert_eq, bind_lift_opt_W. cbn [tupletypes alive].
    rewrite (zstore_lookup_eq _ _ _ _ Htts), bind_lift_opt_W.
    cbn [tuples]. rewrite bool_decide_eq_false_2 by done.
    rewrite andb_false_r. unfold set_queue. cbn [tupletypes].
    rewrite Htts2, bind_lift_opt_W. unfold bind, modify.
    rewrite decide_True by done. reflexivity.
  - cbn [spaces]. apply lookup_insert_eq.
  - cbn [tupletypes]. by eapply zstore_lookup_eq.
  - intros Hnil. rewrite Hnil in HQ. simpl in HQ. injection HQ as <- <-.
    split; [|done]. by rewrite take_take, Nat.min_id.
Qed.

(** X13. A write that fails enqueues nothing, and a refused start starts
    nothing: whenever [WorkerWrite], [WorkerRead] or [StartWorkers]
    leaves by an error, the tuple spaces and the threads are exactly as
    before the call. *)
Theorem worker_errors_leave_process sp ref ty n vm p :
  (forall e w', (WorkerWrite cfg to_string_hex pointer_is_in_allocator RefToString
       ToString StructToString IsRefNil) sp ref (vm, p) = Unwound e w' -> w'.2 = p) /\
  (forall e w', (WorkerRead cfg to_string_hex pointer_is_in_allocator RefToString
       ToString StructToString) sp ty (vm, p) = Unwound e w' -> w'.2 = p) /\
  (forall e w', (StartWorkers cfg to_string_hex pointer_is_in_allocator RefToString
       ToString StructToString) sp n (vm, p) = Unwound e w' -> w'.2 = p).
Proof.
  split; [|split]; intros e w' H.
  - unfold WorkerWrite in H. cbn [fst snd] in H.
    destruct (tuple_space vm) as [a|]; [|done].
    destruct ref as [st|].
    2:{ rewrite raise_error_bind in H.
        by apply raise_error_process in H. }
    rewrite bind_ret_W, bind_lift_opt_W in H.
    destruct (bool_decide _).
    2:{ rewrite raise_error_bind in H.
        by apply raise_error_process in H. }
    rewrite bind_ret_W in H. unfold bind in H.
    match type of H with context [copy_fields _ _ _ _ _ _ _ ?n ?s ?i ?bc ?ti
                                    ?st ?buf ?w] =>
      pose proof (copy_fields_process n s i bc ti st buf w) as Hc;
      destruct (copy_fields cfg to_string_hex pointer_is_in_allocator
                  RefToString ToString StructToString IsRefNil n s i bc ti
                  st buf w) as [buf' w1|e1 w1|]
    end; [| |done].
    + subst w1. cbn [fst snd] in H.
      destruct (spaces p !! a) as [ts|]; [|done].
      destruct (zlookup _ _) as [q|]; [|done].
      by destruct (set_queue _ _ _ _ _).
    + injection H as <- <-. done.
  - unfold WorkerRead in H. cbn [fst snd] in H.
    destruct (bool_decide _).
    2:{ rewrite raise_error_bind in H.
        by apply raise_error_process in H. }
    rewrite bind_ret_W, bind_lift_opt_W in H.
    destruct (tuple_space vm) as [a|]; [|done].
    rewrite bind_lift_opt_W in H.
    destruct (spaces p !! a) as [ts|]; [|done].
    rewrite bind_lift_opt_W in H.
    destruct (zlookup _ _) as [q|]; [|done].
    destruct (alive ts && _); [done|].
    destruct (tuples q) as [|buf rest]; [done|].
    rewrite bind_lift_opt_W in H.
    destruct (set_queue _ _ _ _ _); [|done].
    unfold bind, modify in H. by destruct (decide _).
  - unfold StartWorkers in H. cbn [fst snd] in H.
    destruct (is_worker vm).
    { rewrite raise_error_bind in H. by apply raise_error_process in H. }
    rewrite bind_ret_W in H.
    destruct (tuple_space vm).
    { rewrite raise_error_bind in H. by apply raise_error_process in H. }
    rewrite bind_ret_W in H. unfold bind, new_TupleSpace, modify in H.
    cbn [fst snd] in H. by rewrite spawn_workers_spec in H.
Qed.

(** X14. The scalar restriction of [WorkerWrite]: on a VM with a tuple
    space, writing a class object whose field [i0] is the first one of a
    reference type raises "thread write: only scalar class members
    supported for now" through [Error], whatever the fields after it
    are. *)
Theorem WorkerWrite_nonscalar_field sp st vm p a i0 et0 :
  let ti := GetTypeInfo (bcf vm) (tti st) in
  tuple_space vm = Some a ->
  t ti = V_CLASS ->
  0 <= i0 < len ti ->
  i0 <= Z.of_nat (length (elems st)) ->
  (forall j, 0 <= j < i0 ->
     exists et, zlookup (elemtypes ti) j = Some et /\
                IsRefNil (t (GetTypeInfo (bcf vm) et)) = false) ->
  zlookup (elemtypes ti) i0 = Some et0 ->
  IsRefNil (t (GetTypeInfo (bcf vm) et0)) = true ->
  (WorkerWrite cfg to_string_hex pointer_is_in_allocator RefToString
       ToString StructToString IsRefNil) sp (Some st) (vm, p)
  = (raise_error cfg to_string_hex pointer_is_in_allocator RefToString
       ToString StructToString) sp "thread write: only scalar class members supported for now"
      (vm, p).
Proof.
  intros ti Hts Hcl Hi0 Hlen Hsc Het0 Hnil0.
  unfold WorkerWrite. cbn [fst snd]. rewrite Hts.
  rewrite bind_ret_W, bind_lift_opt_W. fold ti.
  rewrite bool_decide_eq_true_2 by done. rewrite bind_ret_W.
  unfold bind at 1.
  rewrite (copy_fields_nonscalar _ _ _ i0 _ _ _ _ _ et0); try done; try lia.
  unfold raise_error, liftVM, bind, undef. cbn [fst snd].
  by destruct (Error _ _ _ _ _ _ _ _ vm).
Qed.

End WorkerMore.

Lemma ex_scalar_fields i :
  0 <= i < len (GetTypeInfo (bcf ex_writer) (tti ex_obj)) ->
  exists et,
    zlookup (elemtypes (GetTypeInfo (bcf ex_writer) (tti ex_obj))) i = Some et
    /\ ex_IsRefNil (t (GetTypeInfo (bcf ex_writer) et)) = false.
Proof.
  intros Hi. change (0 <= i < 2) in Hi. exists 0.
  assert (i = 0 \/ i = 1) as [-> | ->] by lia; done.
Qed.

Lemma WorkerWrite_enqueues_witness :
  exists p' ts',
    WorkerWrite ex_cfg ex_hex ex_in_alloc ex_RefToString ex_ToString
      ex_StructToString ex_IsRefNil 0 (Some ex_obj) (ex_writer, ex_process)
    = Ret tt (ex_writer, p') /\
    spaces p' !! 0%nat = Some ts' /\
    zlookup (tupletypes ts')
      (structidx (GetTypeInfo (bcf ex_writer) (tti ex_obj)))
    = Some {| tuples :=
                tuples {| tuples := [] |}
                ++ [take (Z.to_nat (len (GetTypeInfo (bcf ex_writer)
                                           (tti ex_obj)))) (elems ex_obj)] |}
    /\
    (forall j, j <> structidx (GetTypeInfo (bcf ex_writer) (tti ex_obj)) ->
       zlookup (tupletypes ts') j
       = zlookup (tupletypes (TupleSpace_new 2)) j) /\
    alive ts' = alive (TupleSpace_new 2) /\
    (forall b, b <> 0%nat ->
       spaces p' !! b = spaces ex_process !! b) /\
    threads p' = threads ex_process.
Proof.
  apply (WorkerWrite_enqueues ex_cfg ex_hex ex_in_alloc ex_RefToString
           ex_ToString ex_StructToString ex_IsRefNil 0 ex_obj ex_writer
           ex_process 0%nat (TupleSpace_new 2) {| tuples := [] |}).
  - reflexivity.
  - apply lookup_insert_eq.
  - reflexivity.
  - reflexivity.
  - vm_compute. split; congruence.
  - apply ex_scalar_fields.
Defined.

Lemma WorkerWrite_then_WorkerRead_witness :
  exists p1 p2 ts2,
    WorkerWrite ex_cfg ex_hex ex_in_alloc ex_RefToString ex_ToString
      ex_StructToString ex_IsRefNil 0 (Some ex_obj) (ex_writer, ex_process)
    = Ret tt (ex_writer, p1) /\
    WorkerRead ex_cfg ex_hex ex_in_alloc ex_RefToString ex_ToString
      ex_StructToString 0 (tti ex_obj) (ex_reader, p1)
    = Ret (Returned
             (Some {| tti := tti ex_obj;
                      elems := take (Z.to_nat (len (GetTypeInfo
                                 (bcf ex_writer) (tti ex_obj))))
                                 [int_Value 4; int_Value 5] |}))
        (ex_reader, p2) /\
    spaces p2 !! 0%nat = Some ts2 /\
    zlookup (tupletypes ts2)
      (structidx (GetTypeInfo (bcf ex_writer) (tti ex_obj)))
    = Some {| tuples := [] |} /\
    (tuples {| tuples := [] |} = [] ->
       take (Z.to_nat (len (GetTypeInfo (bcf ex_writer) (tti ex_obj))))
         [int_Value 4; int_Value 5]
       = take (Z.to_nat (len (GetTypeInfo (bcf ex_writer) (tti ex_obj))))
           (elems ex_obj) /\
       [] = @nil (list Value)).
Proof.
  apply (WorkerWrite_then_WorkerRead ex_cfg ex_hex ex_in_alloc
           ex_RefToString ex_ToString ex_StructToString ex_IsRefNil 0 0
           ex_obj ex_writer ex_reader ex_process 0%nat (TupleSpace_new 2)
           {| tuples := [] |} [int_Value 4; int_Value 5] []).
  - reflexivity.
  - apply lookup_insert_eq.
  - reflexivity.
  - reflexivity.
  - vm_compute. split; congruence.
  - apply ex_scalar_fields.
  - reflexivity.
  - reflexivity.
  - reflexivity.
  - vm_compute. congruence.
Defined.

Lemma WorkerWrite_nonscalar_field_witness :
  WorkerWrite ex_cfg ex_hex ex_in_alloc ex_RefToString ex_ToString
    ex_StructToString ex_IsRefNil 0 (Some ex_obj_str) (ex_writer, ex_process)
  = raise_error ex_cfg ex_hex ex_in_alloc ex_RefToString ex_ToString
      ex_StructToString 0
      "thread write: only scalar class members supported for now"
      (ex_writer, ex_process).
Proof.
  apply (WorkerWrite_nonscalar_field ex_cfg ex_hex ex_in_alloc
           ex_RefToString ex_ToString ex_StructToString ex_IsRefNil 0
           ex_obj_str ex_writer ex_process 0%nat 1 9).
  - reflexivity.
  - reflexivity.
  - vm_compute. split; congruence.
  - vm_compute. congruence.
  - intros j Hj. exists 0. assert (j = 0) as -> by lia. done.
  - reflexivity.
  - reflexivity.
Defined.

(** ** Starting and ending the workers *)

Section WorkerLife.

Variable cfg : Build.
Variable to_string_hex : Z -> string.
Variable pointer_is_in_allocator : Z -> bool.
Variable RefToString : Z -> PrintRes.
Variable ToString : Value -> TypeInfo -> PrintRes.
Variable StructToString : TypeInfo -> list Value -> PrintRes.
Variable IsRefNil : ValueType -> bool.

Lemma StartWorkers_run sp n vm p :
  is_worker vm = false -> tuple_space vm = None ->
  let a := fresh (dom (spaces p)) in
  let k := Z.to_nat (Z.min n 256) in
  (StartWorkers cfg to_string_hex pointer_is_in_allocator RefToString
       ToString StructToString) sp n (vm, p)
  = Ret tt
      (set_workers (workers vm ++ seq (length (threads p)) k)
         (set_tuple_space (Some a) vm),
       {| spaces := <[a := TupleSpace_new (length (udts (bcf vm)))]>
                      (spaces p);
          threads := threads p
            ++ replicate k {| thr_vm := worker_vm vm a;
                              thr_body := RunEvalProgram |} |}).
Proof.
  intros Hw Hts a k. unfold StartWorkers. cbn [fst snd].
  rewrite Hw, Hts. unfold bind at 1. unfold ret at 1.
  unfold bind at 1. unfold ret at 1.
  unfold bind, new_TupleSpace, modify. cbn [fst snd].
  rewrite spawn_workers_spec. cbn [spaces threads]. f_equal.
Qed.

(** X15. Workers are started once, and only by the main VM: after a
    [StartWorkers] that succeeded, a second [StartWorkers] on the same VM
    raises "workers already running", every VM it started refuses
    [StartWorkers] with "workers can't start more worker threads", and
    every VM it started holds the address of the caller's new tuple
    space. *)
Theorem StartWorkers_once sp n vm p :
  is_worker vm = false ->
  tuple_space vm = None ->
  exists vm1 p1,
    (StartWorkers cfg to_string_hex pointer_is_in_allocator RefToString
       ToString StructToString) sp n (vm, p) = Ret tt (vm1, p1) /\
    is_Some (tuple_space vm1) /\
    (forall sp2 n2,
       (StartWorkers cfg to_string_hex pointer_is_in_allocator RefToString
       ToString StructToString) sp2 n2 (vm1, p1)
       = (raise_error cfg to_string_hex pointer_is_in_allocator RefToString
       ToString StructToString) sp2 "workers already running" (vm1, p1)) /\
    (forall th, th ∈ drop (length (threads p)) (threads p1) ->
       tuple_space (thr_vm th) = tuple_space vm1 /\
       forall sp2 n2 p2,
         (StartWorkers cfg to_string_hex pointer_is_in_allocator RefToString
       ToString StructToString) sp2 n2 (thr_vm th, p2)
         = (raise_error cfg to_string_hex pointer_is_in_allocator RefToString
       ToString StructToString) sp2 "workers can't start more worker threads"
             (thr_vm th, p2)).
Proof.
  intros Hw Hts. eexists _, _.
  split; [by apply StartWorkers_run|].
  split; [by destruct vm; eexists|]. split.
  - intros sp2 n2. unfold StartWorkers. cbn [fst snd].
    replace (is_worker (set_workers _ _)) with false by (by destruct vm).
    replace (tuple_space (set_workers _ _))
      with (Some (fresh (dom (spaces p)))) by (by destruct vm).
    rewrite bind_case. unfold ret at 1. apply raise_error_bind.
  - intros th Hth. cbn [threads] in Hth.
    rewrite drop_app_length in Hth.
    apply elem_of_replicate in Hth as [-> _]. cbn [thr_vm]. split.
    + by destruct vm.
    + intros sp2 n2 p2. unfold StartWorkers. cbn [fst snd].
      replace (is_worker (worker_vm vm _)) with true by done.
      apply raise_error_bind.
Qed.

(** X16. Ending the workers wakes the readers: a read of a class whose
    queue is empty waits as long as the tuple space is alive; once
    [TerminateWorkers] has cleared the flag, the same read returns nil,
    and a read of a queue that still holds a buffer keeps returning the
    oldest buffer. *)
Theorem stop_workers_wakes_readers sp ty rvm vm p a ts q :
  let ti := GetTypeInfo (bcf rvm) ty in
  t ti = V_CLASS ->
  tuple_space rvm = Some a ->
  spaces p !! a = Some ts ->
  alive ts = true ->
  zlookup (tupletypes ts) (structidx ti) = Some q ->
  exists p',
    stop_workers a (vm, p) = Ret tt (vm, p') /\
    (tuples q = [] ->
       WorkerRead cfg to_string_hex pointer_is_in_allocator RefToString
         ToString StructToString sp ty (rvm, p) = Ret Waiting (rvm, p) /\
       WorkerRead cfg to_string_hex pointer_is_in_allocator RefToString
         ToString StructToString sp ty (rvm, p')
       = Ret (Returned None) (rvm, p')) /\
    (forall buf rest,
       tuples q = buf :: rest -> len ti <= Z.of_nat (length buf) ->
       exists p'',
         WorkerRead cfg to_string_hex pointer_is_in_allocator RefToString
           ToString StructToString sp ty (rvm, p')
         = Ret (Returned (Some {| tti := ty;
                                  elems := take (Z.to_nat (len ti)) buf |}))
             (rvm, p'')).
Proof.
  intros ti Hcl Hts Hsp Hal Hq. eexists. split.
  { unfold stop_workers. cbn [fst snd]. by rewrite Hsp. }
  split.
  - intros Hnil. split.
    + unfold WorkerRead. cbn [fst snd]. fold ti.
      rewrite bool_decide_eq_true_2 by done. unfold bind at 1. unfold ret at 1.
      rewrite Hts, bind_lift_opt_W, Hsp, bind_lift_opt_W, Hq, bind_lift_opt_W.
      rewrite Hal, Hnil. done.
    + unfold WorkerRead. cbn [fst snd]. fold ti.
      rewrite bool_decide_eq_true_2 by done. unfold bind at 1. unfold ret at 1.
      rewrite Hts, bind_lift_opt_W. cbn [spaces].
      rewrite lookup_insert_eq, bind_lift_opt_W. cbn [tupletypes alive].
      rewrite Hq, bind_lift_opt_W. rewrite Hnil. done.
  - intros buf rest Hbuf Hlen.
    destruct (zstore_is_Some (tupletypes ts) (structidx ti)
                {| tuples := rest |}) as [tts Htts].
    { by apply zlookup_lt in Hq. }
    eexists. unfold WorkerRead. cbn [fst snd]. fold ti.
    rewrite bool_decide_eq_true_2 by done. unfold bind at 1. unfold ret at 1.
    rewrite Hts, bind_lift_opt_W. cbn [spaces].
    rewrite lookup_insert_eq, bind_lift_opt_W. cbn [tupletypes alive].
    rewrite Hq, bind_lift_opt_W. rewrite Hbuf. cbn [andb].
    unfold set_queue. cbn [tupletypes]. rewrite Htts, bind_lift_opt_W.
    unfold bind, modify. rewrite decide_True by done. reflexivity.
Qed.

(** X17. [TerminateWorkers] does nothing on a worker VM or without a
    tuple space; on the VM that started the workers it ends with no tuple
    space, no worker thread handles and the space freed, so that a second
    [TerminateWorkers] does nothing, a [WorkerWrite] returns without
    queueing, and [StartWorkers] may be called again. *)
Theorem TerminateWorkers_resets sp ref n vm p :
  (is_worker vm = true \/ tuple_space vm = None ->
   TerminateWorkers (vm, p) = Ret tt (vm, p)) /\
  (forall a ts,
     is_worker vm = false -> tuple_space vm = Some a ->
     spaces p !! a = Some ts ->
     exists vm1 p1,
       TerminateWorkers (vm, p) = Ret tt (vm1, p1) /\
       tuple_space vm1 = None /\ workers vm1 = [] /\
       spaces p1 !! a = None /\
       (forall b, b <> a -> spaces p1 !! b = spaces p !! b) /\
       TerminateWorkers (vm1, p1) = Ret tt (vm1, p1) /\
       WorkerWrite cfg to_string_hex pointer_is_in_allocator RefToString
         ToString StructToString IsRefNil sp ref (vm1, p1)
       = Ret tt (vm1, p1) /\
       exists w2, (StartWorkers cfg to_string_hex pointer_is_in_allocator RefToString
       ToString StructToString) sp n (vm1, p1) = Ret tt w2).
Proof.
  split.
  - intros [Hw|Hts]; unfold TerminateWorkers; cbn [fst snd].
    + by rewrite Hw.
    + rewrite Hts. by rewrite orb_true_r.
  - intros a ts Hw Hts Hsp.
    exists (set_tuple_space None (set_workers [] vm)),
      {| spaces := delete a (<[a := {| tupletypes := tupletypes ts;
                                       alive := false |}]> (spaces p));
         threads := threads p |}.
    assert (Hts1 : tuple_space (set_tuple_space None (set_workers [] vm))
                   = None) by (by destruct vm).
    assert (Hw1 : is_worker (set_tuple_space None (set_workers [] vm))
                  = false) by (by destruct vm).
    split.
    { unfold TerminateWorkers. cbn [fst snd]. rewrite Hw, Hts.
      rewrite bool_decide_eq_true_2 by eauto. cbn [negb orb].
      rewrite bind_lift_opt_W. unfold bind, stop_workers. cbn [fst snd].
      rewrite Hsp. unfold reap_workers, modify. cbn [fst snd spaces threads].
      reflexivity. }
    split; [done|]. split; [by destruct vm|].
    cbn [spaces]. split; [by rewrite lookup_delete_eq|].
    split.
    { intros b Hb. rewrite lookup_delete_ne by done.
      by rewrite lookup_insert_ne. }
    split.
    { unfold TerminateWorkers. cbn [fst snd]. rewrite Hts1.
      rewrite bool_decide_eq_false_2 by (intros [? ?]; done).
      by rewrite orb_true_r. }
    split.
    { unfold WorkerWrite. cbn [fst snd]. by rewrite Hts1. }
    eexists. by apply StartWorkers_run.
Qed.

End WorkerLife.

Lemma StartWorkers_once_witness :
  exists vm1 p1,
    StartWorkers ex_cfg ex_hex ex_in_alloc ex_RefToString ex_ToString
      ex_StructToString 0 3 (VM_new ex_class_args, ex_process)
    = Ret tt (vm1, p1) /\
    is_Some (tuple_space vm1) /\
    (forall sp2 n2,
       StartWorkers ex_cfg ex_hex ex_in_alloc ex_RefToString ex_ToString
         ex_StructToString sp2 n2 (vm1, p1)
       = raise_error ex_cfg ex_hex ex_in_alloc ex_RefToString ex_ToString
           ex_StructToString sp2 "workers already running" (vm1, p1)) /\
    (forall th, th ∈ drop (length (threads ex_process)) (threads p1) ->
       tuple_space (thr_vm th) = tuple_space vm1 /\
       forall sp2 n2 p2,
         StartWorkers ex_cfg ex_hex ex_in_alloc ex_RefToString ex_ToString
           ex_StructToString sp2 n2 (thr_vm th, p2)
         = raise_error ex_cfg ex_hex ex_in_alloc ex_RefToString ex_ToString
             ex_StructToString sp2 "workers can't start more worker threads"
             (thr_vm th, p2)).
Proof.
  apply (StartWorkers_once ex_cfg ex_hex ex_in_alloc ex_RefToString
           ex_ToString ex_StructToString 0 3 (VM_new ex_class_args)
           ex_process).
  - reflexivity.
  - reflexivity.
Defined.

Section EntryFacts.

Variable cfg : Build.

(** X18. [EvalProgram] never lets a [longjmp] out: for a program whose
    errors all leave through [UnwindOnError], an error ends [EvalProgram]
    by throwing the VM's [errmsg] in an exception build, and by aborting
    otherwise, whether or not the build unwinds by [longjmp]; a program
    that returns makes [EvalProgram] return in the state it left. *)
Theorem EvalProgram_rethrows (entry : Z -> M unit) vm :
  (forall sp s e s', entry sp s = Unwound e s' -> e = exit_kind cfg s') ->
  match EvalProgram cfg entry vm with
  | Ret _ vm' => entry (-1) vm = Ret tt vm'
  | Unwound e vm' =>
      e = (if USE_EXCEPTION_HANDLING cfg then Thrown (errmsg vm')
           else Aborted) /\
      exists e0, entry (-1) vm = Unwound e0 vm'
  | Undef => entry (-1) vm = Undef
  end.
Proof.
  intros Hent. unfold EvalProgram.
  destruct (entry (-1) vm) as [[] vm'|e vm'|] eqn:He; [done| |done].
  apply Hent in He as Hk. unfold exit_kind in Hk.
  destruct (VM_USE_LONGJMP cfg) eqn:Hlj.
  - subst e. unfold THROW_OR_ABORT.
    destruct (USE_EXCEPTION_HANDLING cfg); eauto.
  - destruct (USE_EXCEPTION_HANDLING cfg); subst e; eauto.
Qed.

End EntryFacts.

Lemma stop_workers_wakes_readers_witness :
  exists p',
    stop_workers 0%nat (ex_writer, ex_process) = Ret tt (ex_writer, p') /\
    (tuples {| tuples := [] |} = [] ->
       WorkerRead ex_cfg ex_hex ex_in_alloc ex_RefToString ex_ToString
         ex_StructToString 0 7 (ex_reader, ex_process)
       = Ret Waiting (ex_reader, ex_process) /\
       WorkerRead ex_cfg ex_hex ex_in_alloc ex_RefToString ex_ToString
         ex_StructToString 0 7 (ex_reader, p')
       = Ret (Returned None) (ex_reader, p')) /\
    (forall buf rest,
       tuples {| tuples := [] |} = buf :: rest ->
       len (GetTypeInfo (bcf ex_reader) 7) <= Z.of_nat (length buf) ->
       exists p'',
         WorkerRead ex_cfg ex_hex ex_in_alloc ex_RefToString ex_ToString
           ex_StructToString 0 7 (ex_reader, p')
         = Ret (Returned
                  (Some {| tti := 7;
                           elems := take (Z.to_nat (len (GetTypeInfo
                                      (bcf ex_reader) 7))) buf |}))
             (ex_reader, p'')).
Proof.
  apply (stop_workers_wakes_readers ex_cfg ex_hex ex_in_alloc ex_RefToString
           ex_ToString ex_StructToString 0 7 ex_reader ex_writer ex_process
           0%nat (TupleSpace_new 2) {| tuples := [] |}).
  - reflexivity.
  - reflexivity.
  - apply lookup_insert_eq.
  - reflexivity.
  - reflexivity.
Defined.

(** A program that fails at once with an index error, in a build that
    unwinds by [longjmp]. *)
Lemma ex_entry_exit sp s e s' :
  (IDXErr ex_cfg_longjmp ex_hex ex_in_alloc ex_RefToString ex_ToString
     ex_StructToString sp 5 3 0) s = Unwound e s' ->
  e = exit_kind ex_cfg_longjmp s'.
Proof.
  unfold IDXErr. simpl. intros H. apply bind_ret_Unwound in H.
  by apply Error_exit in H as [-> _].
Qed.

(** In the [longjmp] build the program leaves by [longjmp]; [EvalProgram]
    turns that into the exception carrying the message. *)
Lemma EvalProgram_rethrows_witness :
  (exists s1,
     IDXErr ex_cfg_longjmp ex_hex ex_in_alloc ex_RefToString ex_ToString
       ex_StructToString (-1) 5 3 0 ex_vm0 = Unwound LongJumped s1 /\
     EvalProgram ex_cfg_longjmp
       (fun sp => IDXErr ex_cfg_longjmp ex_hex ex_in_alloc ex_RefToString
                    ex_ToString ex_StructToString sp 5 3 0) ex_vm0
     = Unwound (Thrown "VM error: index 5 out of range 3 of: [1, 2, 3]")
         s1) /\
  match EvalProgram ex_cfg_longjmp
          (fun sp => IDXErr ex_cfg_longjmp ex_hex ex_in_alloc ex_RefToString
                       ex_ToString ex_StructToString sp 5 3 0) ex_vm0 with
  | Ret _ vm' =>
      IDXErr ex_cfg_longjmp ex_hex ex_in_alloc ex_RefToString ex_ToString
        ex_StructToString (-1) 5 3 0 ex_vm0 = Ret tt vm'
  | Unwound e vm' =>
      e = (if USE_EXCEPTION_HANDLING ex_cfg_longjmp then Thrown (errmsg vm')
           else Aborted) /\
      exists e0,
        IDXErr ex_cfg_longjmp ex_hex ex_in_alloc ex_RefToString ex_ToString
          ex_StructToString (-1) 5 3 0 ex_vm0 = Unwound e0 vm'
  | Undef =>
      IDXErr ex_cfg_longjmp ex_hex ex_in_alloc ex_RefToString ex_ToString
        ex_StructToString (-1) 5 3 0 ex_vm0 = Undef
  end.
Proof.
  split.
  - pose proof (unwound_final_state
      (IDXErr ex_cfg_longjmp ex_hex ex_in_alloc ex_RefToString ex_ToString
         ex_StructToString (-1) 5 3 0 ex_vm0) ex_vm0 LongJumped) as Hrun.
    eexists. split.
    + apply Hrun. vm_compute. reflexivity.
    + unfold EvalProgram. rewrite Hrun by (vm_compute; reflexivity).
      simpl VM_USE_LONGJMP. cbv iota. unfold THROW_OR_ABORT.
      simpl USE_EXCEPTION_HANDLING. cbv iota.
      f_equal; vm_compute; reflexivity.
  - apply (EvalProgram_rethrows ex_cfg_longjmp
             (fun sp => IDXErr ex_cfg_longjmp ex_hex ex_in_alloc
                          ex_RefToString ex_ToString ex_StructToString
                          sp 5 3 0) ex_vm0).
    intros sp s e s'. apply ex_entry_exit.
Defined.

(** ** The leak report order *)

(** X19. [_LeakSorter] is a strict order fit for [sort]: no object comes
    before itself, two objects never come before each other, the order is
    transitive, and two objects neither of which comes before the other
    have the same reference count and type; a higher reference count comes
    first, and among equal counts a higher type index. *)
Theorem LeakSorter_strict_order :
  (forall a, _LeakSorter a a = false) /\
  (forall a b, _LeakSorter a b = true -> _LeakSorter b a = false) /\
  (forall a b c,
     _LeakSorter a b = true -> _LeakSorter b c = true ->
     _LeakSorter a c = true) /\
  (forall a b,
     _LeakSorter a b = false -> _LeakSorter b a = false ->
     refc a = refc b /\ hdr_tti a = hdr_tti b) /\
  (forall a b,
     _LeakSorter a b = true <->
     refc a > refc b \/ (refc a = refc b /\ hdr_tti a > hdr_tti b)).
Proof.
  assert (Hiff : forall a b,
     _LeakSorter a b = true <->
     refc a > refc b \/ (refc a = refc b /\ hdr_tti a > hdr_tti b)).
  { intros a b. unfold _LeakSorter.
    destruct (decide (refc a <> refc b)).
    - rewrite bool_decide_eq_true. lia.
    - destruct (decide (hdr_tti a <> hdr_tti b)).
      + rewrite bool_decide_eq_true. lia.
      + split; [done|lia]. }
  assert (Hno : forall a b,
     _LeakSorter a b = false <->
     ~ (refc a > refc b \/ (refc a = refc b /\ hdr_tti a > hdr_tti b))).
  { intros a b. rewrite <- Hiff. by destruct (_LeakSorter a b). }
  split; [|split; [|split; [|split]]].
  - intros a. apply Hno. lia.
  - intros a b Hab. apply Hiff in Hab. apply Hno. lia.
  - intros a b c Hab Hbc. apply Hiff in Hab, Hbc. apply Hiff. lia.
  - intros a b Hab Hba. apply Hno in Hab, Hba. lia.
  - exact Hiff.
Qed.

(** ** Enum names *)

Lemma enum_lookup_app vals val sd :
  enum_lookup vals val sd
  = (sd +:+ (enum_lookup vals val "").1, (enum_lookup vals val "").2).
Proof.
  induction vals as [|v vals IH]; simpl.
  - by rewrite string_app_nil_r.
  - destruct (decide (ev_val v = val)); [done|exact IH].
Qed.

Lemma enum_lookup_false vals val sd sd' :
  enum_lookup vals val sd = (sd', false) -> sd' = sd.
Proof.
  induction vals as [|v vals IH]; simpl.
  - by intros [= <-].
  - destruct (decide (ev_val v = val)); [discriminate|exact IH].
Qed.

Lemma enum_lookup_true vals val sd sd' :
  enum_lookup vals val sd = (sd', true) ->
  exists pre v post,
    vals = pre ++ v :: post /\ ev_val v = val /\
    Forall (fun u => ev_val u <> val) pre /\ sd' = sd +:+ ev_name v.
Proof.
  induction vals as [|v vals IH]; simpl; [discriminate|].
  destruct (decide (ev_val v = val)) as [Hv|Hv].
  - intros [= <-]. exists [], v, vals. done.
  - intros H. destruct (IH H) as (pre & u & post & -> & Hu & Hpre & ->).
    exists (v :: pre), u, post. split; [done|]. split; [done|].
    split; [by constructor|done].
Qed.

Lemma lookup_name_first pre v post :
  Forall (fun u => ev_name u <> ev_name v) pre ->
  lookup_name (pre ++ v :: post) (ev_name v) = Some (ev_val v).
Proof.
  induction pre as [|u pre IH]; intros Hpre; simpl.
  - by rewrite decide_True.
  - apply Forall_cons in Hpre as [Hu Hpre].
    rewrite decide_False by done. by apply IH.
Qed.

Lemma enum_lookup_first pre v post sd :
  Forall (fun u => ev_val u <> ev_val v) pre ->
  enum_lookup (pre ++ v :: post) (ev_val v) sd = (sd +:+ ev_name v, true).
Proof.
  induction pre as [|u pre IH]; intros Hpre; simpl.
  - by rewrite decide_True.
  - apply Forall_cons in Hpre as [Hu Hpre].
    rewrite decide_False by done. by apply IH.
Qed.

Lemma lookup_name_Some vals name val :
  lookup_name vals name = Some val ->
  exists pre v post,
    vals = pre ++ v :: post /\ ev_name v = name /\ ev_val v = val /\
    Forall (fun u => ev_name u <> name) pre.
Proof.
  induction vals as [|v vals IH]; simpl; [discriminate|].
  destruct (decide (ev_name v = name)) as [Hv|Hv].
  - intros [= <-]. exists [], v, vals. done.
  - intros H. destruct (IH H) as (pre & u & post & -> & Hu & Hval & Hpre).
    exists (v :: pre), u, post. split; [done|]. split; [done|].
    split; [done|by constructor].
Qed.

Lemma list_ascii_app (a b : string) :
  list_ascii_of_string (a +:+ b)
  = list_ascii_of_string a ++ list_ascii_of_string b.
Proof.
  induction a as [|c a IH]; [done|].
  rewrite string_app_cons. simpl. by rewrite IH.
Qed.

Lemma list_ascii_length (a : string) :
  length (list_ascii_of_string a) = String.length a.
Proof. induction a as [|c a IH]; [done|]. simpl. by rewrite IH. Qed.

Lemma string_length_app (a b : string) :
  String.length (a +:+ b) = (String.length a + String.length b)%nat.
Proof.
  induction a as [|c a IH]; [done|].
  rewrite string_app_cons. simpl. by rewrite IH.
Qed.

(** Cutting back to the old length undoes what was appended. *)
Lemma string_resize_app (a b : string) :
  string_resize (String.length a) (a +:+ b) = a.
Proof.
  unfold string_resize. rewrite list_ascii_app, <- list_ascii_length.
  rewrite resize_app by done.
  apply string_of_list_ascii_of_string.
Qed.

Lemma flag_names_prefix n : forall i vals v (sd cur : string) r,
  (exists x, cur = sd +:+ x) ->
  flag_names n i vals v (String.length sd) cur = r ->
  if r.2 then exists x, r.1 = sd +:+ x else r.1 = sd.
Proof.
  induction n as [|n IH]; intros i vals v sd cur r [x ->] H; simpl in H.
  - subst r. simpl. eauto.
  - destruct (decide (Z.land v (shl1 i) <> 0)); [|by eapply IH; eauto].
    set (cur := if decide (_ <> _) then _ else _) in H.
    assert (Hcur : exists y, cur = sd +:+ y).
    { unfold cur. destruct (decide _); [|eauto].
      exists (x +:+ "|"). by rewrite string_app_assoc. }
    destruct Hcur as [y Hy]. rewrite Hy in H.
    rewrite enum_lookup_app in H. cbn [fst snd] in H.
    destruct (enum_lookup vals _ "").2.
    + eapply IH; [|exact H]. eexists. by rewrite string_app_assoc.
    + subst r. cbn [fst snd]. rewrite string_app_assoc.
      apply string_resize_app.
Qed.

Section EnumFacts.

Variable HighZeroBits : Z -> Z.
Variable enums : list EnumDef.

(** X20. [EnumName] writes a name or nothing: when it returns false --
    the value, or for a flags enum one of its bits, has no entry -- the
    text is exactly what it was, separators and the names already written
    taken back; when it returns true the old text is still at the front. *)
Theorem EnumName_failure_keeps_text sd v idx sd' ok :
  EnumName HighZeroBits enums sd v idx = Some (sd', ok) ->
  if ok then exists x, sd' = sd +:+ x else sd' = sd.
Proof.
  unfold EnumName. destruct (zlookup enums idx) as [def|]; [|done].
  destruct (negb _ || _).
  - intros [= H]. destruct ok.
    + apply enum_lookup_true in H as (? & u & ? & _ & _ & _ & ->). eauto.
    + by apply enum_lookup_false in H.
  - intros [= H].
    pose proof (flag_names_prefix _ _ _ _ sd sd _
                  (ex_intro _ "" (eq_sym (string_app_nil_r sd))) H) as Hp.
    exact Hp.
Qed.

(** X21. Names and values of a plain enum go back and forth: if no two
    entries share a name, the name [EnumName] writes for a value is one
    [LookupEnum] maps back to that value; if no two entries share a
    value, the value [LookupEnum] finds for a name is one [EnumName]
    writes that name for. *)
Theorem EnumName_LookupEnum_round_trip def idx :
  zlookup enums idx = Some def ->
  enum_flags def = false ->
  (NoDup (ev_name <$> enum_vals def) ->
   forall sd v sd',
     EnumName HighZeroBits enums sd v idx = Some (sd', true) ->
     exists n, sd' = sd +:+ n /\
               LookupEnum enums n idx = Some (Some v)) /\
  (NoDup (ev_val <$> enum_vals def) ->
   forall sd n v,
     LookupEnum enums n idx = Some (Some v) ->
     EnumName HighZeroBits enums sd v idx = Some (sd +:+ n, true)).
Proof.
  intros Hdef Hfl. split.
  - intros Hnd sd v sd' H. unfold EnumName in H. rewrite Hdef, Hfl in H.
    cbn [negb orb] in H. injection H as H.
    apply enum_lookup_true in H as (pre & u & post & Hvals & Hu & _ & ->).
    exists (ev_name u). split; [done|].
    unfold LookupEnum. rewrite Hdef, Hvals. rewrite <- Hu.
    rewrite lookup_name_first; [done|].
    rewrite Hvals, fmap_app, fmap_cons in Hnd.
    apply NoDup_app in Hnd as (_ & Hdis & _).
    apply Forall_forall. intros w Hw Heq.
    apply (Hdis (ev_name w)).
    + apply list_elem_of_fmap. eauto.
    + rewrite Heq. left.
  - intros Hnd sd n v H. unfold LookupEnum in H. rewrite Hdef in H.
    injection H as H.
    apply lookup_name_Some in H as (pre & u & post & Hvals & <- & <- & _).
    unfold EnumName. rewrite Hdef, Hfl. cbn [negb orb]. rewrite Hvals.
    rewrite enum_lookup_first; [done|].
    rewrite Hvals, fmap_app, fmap_cons in Hnd.
    apply NoDup_app in Hnd as (_ & Hdis & _).
    apply Forall_forall. intros w Hw Heq.
    apply (Hdis (ev_val w)).
    + apply list_elem_of_fmap. eauto.
    + rewrite Heq. left.
Qed.

End EnumFacts.

Lemma concat_sep_snoc (sep : string) (l : list string) (x : string) :
  l <> [] ->
  String.concat sep (l ++ [x]) = String.concat sep l +:+ sep +:+ x.
Proof.
  induction l as [|a l IH]; [done|]. intros _.
  destruct l as [|b l].
  - simpl. done.
  - change (String.concat sep ((a :: b :: l) ++ [x]))
      with (a +:+ sep +:+ String.concat sep ((b :: l) ++ [x])).
    rewrite IH by done.
    change (String.concat sep (a :: b :: l))
      with (a +:+ sep +:+ String.concat sep (b :: l)).
    by rewrite !string_app_assoc.
Qed.

Lemma concat_sep_length (sep : string) (l : list string) :
  l <> [] -> Forall (fun n => n <> "") l ->
  String.length (String.concat sep l) <> 0%nat.
Proof.
  destruct l as [|a l]; [done|]. intros _ Hl.
  apply Forall_cons in Hl as [Ha _].
  assert (String.length a <> 0%nat) by (by destruct a).
  destruct l as [|b l]; simpl; [done|].
  change (String.length (a +:+ sep +:+ String.concat sep (b :: l)) <> 0%nat).
  rewrite string_length_app. lia.
Qed.

Lemma land_bit v i :
  0 <= i -> Z.land v (2 ^ i) = if Z.testbit v i then 2 ^ i else 0.
Proof.
  intros Hi. apply Z.bits_inj'. intros j Hj.
  rewrite Z.land_spec, Z.pow2_bits_eqb by done.
  destruct (Z.eqb_spec i j) as [->|Hne].
  - rewrite andb_true_r. destruct (Z.testbit v j) eqn:E.
    + by rewrite Z.pow2_bits_eqb, Z.eqb_refl.
    + by rewrite Z.bits_0.
  - rewrite andb_false_r. destruct (Z.testbit v i).
    + rewrite Z.pow2_bits_eqb by done. symmetry. by apply Z.eqb_neq.
    + by rewrite Z.bits_0.
Qed.

Lemma flag_names_run n : forall i vals v sd cur done names,
  0 <= i -> i + Z.of_nat n <= 63 ->
  Forall2 (fun b nm => enum_lookup vals (2 ^ b) "" = (nm, true) /\ nm <> "")
    (filter (fun b => Z.testbit v b = true) (seqZ i (Z.of_nat n))) names ->
  cur = sd +:+ String.concat "|" done ->
  Forall (fun nm => nm <> "") done ->
  flag_names n i vals v (String.length sd) cur
  = (sd +:+ String.concat "|" (done ++ names), true).
Proof.
  induction n as [|n IH]; intros i vals v sd cur done names Hi Hn HF Hcur Hdone.
  - simpl in HF. apply Forall2_nil_inv_l in HF as ->.
    simpl. by rewrite app_nil_r, Hcur.
  - rewrite Nat2Z.inj_succ in HF. rewrite seqZ_cons in HF by lia.
    replace (Z.pred (Z.succ (Z.of_nat n))) with (Z.of_nat n) in HF by lia.
    rewrite filter_cons in HF.
    cbn [flag_names]. unfold shl1.
    rewrite (decide_False (P := i = 63)) by lia.
    rewrite land_bit by done.
    destruct (Z.testbit v i) eqn:Hbit.
    + rewrite decide_True in HF by done.
      apply Forall2_cons_inv_l in HF as (nm & names' & [Hnm Hne] & HF & ->).
      rewrite decide_True by (pose proof (Z.pow_pos_nonneg 2 i); lia).
      rewrite enum_lookup_app, Hnm. cbn [fst snd].
      destruct (decide (done = [])) as [->|Hd].
      * simpl in Hcur. rewrite string_app_nil_r in Hcur. subst cur.
        rewrite decide_False by lia.
        rewrite (IH (i + 1) vals v sd (sd +:+ nm) [nm] names');
          [done|lia|lia|by replace (i + 1) with (Z.succ i) by lia|done|].
        by constructor.
      * assert (String.length cur <> String.length sd).
        { rewrite Hcur, string_length_app.
          pose proof (concat_sep_length "|" done Hd Hdone). lia. }
        rewrite decide_True by done.
        rewrite (IH (i + 1) vals v sd ((cur +:+ "|") +:+ nm)
                   (done ++ [nm]) names');
          [by rewrite <- app_assoc|lia|lia
          |by replace (i + 1) with (Z.succ i) by lia| |].
        -- rewrite concat_sep_snoc by done. rewrite Hcur.
           by rewrite !string_app_assoc.
        -- apply Forall_app. split; [done|by constructor].
    + rewrite decide_False in HF by done.
      rewrite decide_False by lia.
      apply (IH (i + 1)); try done; try lia.
Qed.

Section EnumFlagFacts.

Variable HighZeroBits : Z -> Z.
Variable enums : list EnumDef.

(** X22. The text of a flags value: for a positive value of a flags enum
    all of whose set bits have an entry with a name, [EnumName] returns
    true and appends the names of the set bits, lowest bit first, with a
    bar between them. *)
Theorem EnumName_flags sd v idx def names :
  zlookup enums idx = Some def ->
  enum_flags def = true ->
  0 < v < 2 ^ 63 ->
  64 - HighZeroBits v = Z.log2 v + 1 ->
  Forall2 (fun b nm =>
             enum_lookup (enum_vals def) (2 ^ b) "" = (nm, true) /\ nm <> "")
    (filter (fun b => Z.testbit v b = true) (seqZ 0 (Z.log2 v + 1))) names ->
  EnumName HighZeroBits enums sd v idx
  = Some (sd +:+ String.concat "|" names, true).
Proof.
  intros Hdef Hfl Hv Hhz HF. unfold EnumName. rewrite Hdef, Hfl.
  rewrite bool_decide_eq_false_2 by lia. cbn [negb orb]. rewrite Hhz.
  assert (Hlog : Z.log2 v < 63).
  { apply Z.log2_lt_pow2; lia. }
  pose proof (Z.log2_nonneg v).
  rewrite (flag_names_run _ 0 _ v sd sd [] names); try done.
  - rewrite Z2Nat.id by lia. lia.
  - by rewrite Z2Nat.id by lia.
  - simpl. by rewrite string_app_nil_r.
Qed.

End EnumFlagFacts.

Lemma EnumName_failure_keeps_text_witness :
  if false then exists x, "f=" = "f=" +:+ x else "f=" = "f=".
Proof.
  apply (EnumName_failure_keeps_text ex_HighZeroBits ex_enums "f=" 9 1 "f="
           false).
  vm_compute. reflexivity.
Defined.

Lemma EnumName_LookupEnum_round_trip_witness :
  (NoDup (ev_name <$> [ {| ev_name := "red"; ev_val := 0 |};
                        {| ev_name := "green"; ev_val := 1 |};
                        {| ev_name := "blue"; ev_val := 2 |} ]) ->
   forall sd v sd',
     EnumName ex_HighZeroBits ex_enums sd v 0 = Some (sd', true) ->
     exists n, sd' = sd +:+ n /\
               LookupEnum ex_enums n 0 = Some (Some v)) /\
  (NoDup (ev_val <$> [ {| ev_name := "red"; ev_val := 0 |};
                       {| ev_name := "green"; ev_val := 1 |};
                       {| ev_name := "blue"; ev_val := 2 |} ]) ->
   forall sd n v,
     LookupEnum ex_enums n 0 = Some (Some v) ->
     EnumName ex_HighZeroBits ex_enums sd v 0 = Some (sd +:+ n, true)).
Proof.
  apply (EnumName_LookupEnum_round_trip ex_HighZeroBits ex_enums
           {| enum_flags := false;
              enum_vals := [ {| ev_name := "red"; ev_val := 0 |};
                             {| ev_name := "green"; ev_val := 1 |};
                             {| ev_name := "blue"; ev_val := 2 |} ] |} 0).
  - reflexivity.
  - reflexivity.
Defined.

Lemma EnumName_flags_witness :
  EnumName ex_HighZeroBits ex_enums "mode: " 5 1
  = Some ("mode: " +:+ String.concat "|" ["r"; "x"], true).
Proof.
  apply (EnumName_flags ex_HighZeroBits ex_enums "mode: " 5 1
           {| enum_flags := true;
              enum_vals := [ {| ev_name := "r"; ev_val := 1 |};
                             {| ev_name := "w"; ev_val := 2 |};
                             {| ev_name := "x"; ev_val := 4 |} ] |}
           ["r"; "x"]).
  - reflexivity.
  - reflexivity.
  - vm_compute. split; [reflexivity|reflexivity].
  - vm_compute. reflexivity.
  - change (filter (fun b => Z.testbit 5 b = true) (seqZ 0 (Z.log2 5 + 1)))
      with [0; 2].
    repeat constructor; done.
Defined.

(** ** The end of the program *)

(** X23. A balanced program passes the final check: when the top-level
    function is entered on an empty frame list with just its arguments on
    the stack, its body balances the stack, and it leaves through
    [FunOut], then once the return values are popped
    [FinalStackVarsCleanup] returns without an assertion failure, in any
    build. *)
Theorem FinalStackVarsCleanup_after_call cfg h ip vm sp1 vm1 sp2 nrv vm2
    sp3 vm3 :
  stackframes vm = [] ->
  header_at (bytecode (bcf vm)) ip h ->
  FunIntro cfg (Z.of_nat (length (h_args h)) - 1) ip vm = Ret sp1 vm1 ->
  bcf vm2 = bcf vm1 ->
  stackframes vm2 = stackframes vm1 ->
  sp2 - nrv = sp1 ->
  FunOut cfg sp2 nrv vm2 = Ret sp3 vm3 ->
  FinalStackVarsCleanup cfg (sp3 - nrv) vm3 = Ret tt vm3.
Proof.
  intros Hfr0 Hh Hin Hbcf Hfr Hbal Hout.
  destruct (FunIntro_inv _ _ _ _ _ _ _ Hh Hin)
    as (Sg & Sd & _ & _ & _ & Hsp1 & Hbcf1 & Hfr1 & _).
  assert (Hh2 : header_at (bytecode (bcf vm2)) ip h) by congruence.
  assert (Hback : back (stackframes vm2)
                  = Some {| funstart := Some ip; spstart := sp1 |}).
  { rewrite Hfr, Hfr1. apply back_push_back. }
  destruct (FunOut_inv _ _ _ _ _ _ _ _ _ Hh2 Hback eq_refl Hout)
    as (_ & _ & Hfr3 & Hsp3 & _).
  unfold FinalStackVarsCleanup.
  rewrite Hfr3, Hfr, Hfr1, pop_back_push_back, Hfr0.
  rewrite bool_decide_eq_true_2 by lia.
  unfold VMASSERT. by destruct (VMASSERT_ON cfg).
Qed.

Lemma FinalStackVarsCleanup_after_call_witness :
  FinalStackVarsCleanup ex_cfg (0 - 1) ex_vm3 = Ret tt ex_vm3.
Proof.
  apply (FinalStackVarsCleanup_after_call ex_cfg ex_header 3 ex_vm0 3 ex_vm1
           4 1 ex_vm2 0 ex_vm3).
  - reflexivity.
  - apply ex_header_at.
  - apply returned_final_state. vm_compute. reflexivity.
  - vm_compute. reflexivity.
  - vm_compute. reflexivity.
  - reflexivity.
  - apply returned_final_state. vm_compute. reflexivity.
Defined.

(** X24. What the final check refuses: with VM assertions on, a stack
    that is not empty or a frame left on the frame list makes
    [FinalStackVarsCleanup] raise the serious error "VM internal assertion
    failure: sp == stack - 1 && !stackframes.size()" instead of returning;
    with assertions off it returns whatever the state. *)
Theorem FinalStackVarsCleanup_refuses cfg sp vm :
  (VMASSERT_ON cfg = false ->
   FinalStackVarsCleanup cfg sp vm = Ret tt vm) /\
  (VMASSERT_ON cfg = true -> sp <> -1 \/ stackframes vm <> [] ->
   match FinalStackVarsCleanup cfg sp vm with
   | Ret _ _ => False
   | Unwound _ vm' =>
       (exists pre,
          errmsg vm' = pre +:+ "VM internal assertion failure: "
                       +:+ "sp == stack - 1 && !stackframes.size()") /\
       stackframes vm' = stackframes vm /\ stack vm' = stack vm
   | Undef => (trace_ring_idx vm > length (trace_output vm))%nat
   end).
Proof.
  unfold FinalStackVarsCleanup, VMASSERT. split.
  - by intros ->.
  - intros -> Hbad.
    assert (Htest : bool_decide (sp = -1)
                    && match stackframes vm with [] => true | _ => false end
                    = false).
    { destruct Hbad as [Hsp|Hfr].
      - by rewrite bool_decide_eq_false_2.
      - destruct (stackframes vm); [done|]. apply andb_false_r. }
    rewrite Htest. unfold when, negb, VMAssert. rewrite bind_case.
    pose proof (SeriousError_cases cfg
                  ("VM internal assertion failure: "
                   +:+ "sp == stack - 1 && !stackframes.size()") vm) as HS.
    destruct (SeriousError _ _ vm) as [? ?|e vm'|]; [done| |done].
    destruct HS as (Hpre & _ & m & b & ->). split; [|by destruct vm].
    destruct Hpre as [pre Hpre]. exists pre. exact Hpre.
Qed.

(** ** Jump-table labels in the generated code *)

Lemma case_loop_spec entries : forall code t i id sd,
  (forall (k : nat) e, entries !! k = Some e ->
     zlookup code (t + Z.of_nat k) = Some e) ->
  case_loop (length entries) code t i id sd
  = Some (sd +:+ String.concat ""
            ((fun p : Z * Z => "case " +:+ pretty p.1 +:+ ":")
               <$> filter (fun p : Z * Z => p.2 = id)
                     (zip (seqZ i (Z.of_nat (length entries))) entries)),
          t + Z.of_nat (length entries)).
Proof.
  induction entries as [|e entries IH]; intros code t i id sd Hcode.
  - simpl. rewrite string_app_nil_r. do 2 f_equal. lia.
  - cbn [case_loop length].
    pose proof (Hcode 0%nat e eq_refl) as H0. simpl in H0.
    rewrite Z.add_0_r in H0. rewrite H0.
    rewrite IH.
    2:{ intros k x Hk. replace (t + 1 + Z.of_nat k)
          with (t + Z.of_nat (S k)) by lia. by apply Hcode. }
    rewrite Nat2Z.inj_succ, (seqZ_cons i) by lia.
    replace (Z.pred (Z.succ (Z.of_nat (length entries))))
      with (Z.of_nat (length entries)) by lia.
    replace (Z.succ i) with (i + 1) by lia.
    cbn [zip zip_with]. rewrite filter_cons. cbn [snd].
    f_equal. f_equal; [|lia].
    destruct (decide (e = id)).
    + rewrite fmap_cons, concat_cons. cbn [fst].
      by rewrite !string_app_assoc.
    + done.
Qed.

(** X25. The labels of a jump-table block: for a table with low bound
    [mini], one target per case value and a default target, the text
    [ToCPP] writes at the case start of block [id] is one "case v:" for
    each value [v] whose target is [id], in rising order, followed by
    "default:" exactly when the default target is [id]. *)
Theorem emit_case_labels_spec code pre mini entries dflt post t id sd :
  code = pre ++ [mini; mini + Z.of_nat (length entries) - 1] ++ entries
             ++ [dflt] ++ post ->
  t = Z.of_nat (length pre) ->
  mini + Z.of_nat (length entries) - 1 < 2 ^ 31 - 1 ->
  emit_case_labels code t id sd
  = Some (sd +:+ String.concat ""
            ((fun p : Z * Z => "case " +:+ pretty p.1 +:+ ":")
               <$> filter (fun p : Z * Z => p.2 = id)
                     (zip (seqZ mini (Z.of_nat (length entries))) entries))
          +:+ (if decide (dflt = id) then "default:" else "")).
Proof.
  intros Hcode Ht Hmax.
  assert (Hat : forall (k : nat) x,
    ([mini; mini + Z.of_nat (length entries) - 1] ++ entries ++ [dflt])
      !! k = Some x -> zlookup code (t + Z.of_nat k) = Some x).
  { intros k x Hk. subst code t.
    rewrite (app_assoc _ entries), (app_assoc _ [dflt]).
    rewrite <- (app_assoc _ entries [dflt]).
    by apply zlookup_middle. }
  unfold emit_case_labels.
  pose proof (Hat 0%nat mini eq_refl) as H0. rewrite Z.add_0_r in H0.
  pose proof (Hat 1%nat _ eq_refl) as H1.
  change (Z.of_nat 1) with 1 in H1.
  rewrite H0, H1. rewrite decide_True by done.
  replace (Z.to_nat (mini + Z.of_nat (length entries) - 1 - mini + 1))
    with (length entries) by lia.
  rewrite case_loop_spec.
  2:{ intros k e Hk. replace (t + 2 + Z.of_nat k)
        with (t + Z.of_nat (2 + k)) by lia.
      apply Hat. simpl. by apply lookup_app_l_Some. }
  replace (t + 2 + Z.of_nat (length entries))
    with (t + Z.of_nat (2 + length entries)) by lia.
  rewrite (Hat _ dflt).
  2:{ simpl. rewrite lookup_app_r by lia. by rewrite Nat.sub_diag. }
  destruct (decide (dflt = id)).
  - by rewrite string_app_assoc.
  - by rewrite !string_app_nil_r.
Qed.

Lemma emit_case_labels_spec_witness :
  emit_case_labels ([7; 7] ++ [10; 12] ++ [40; 50; 40] ++ [50] ++ [9]) 2 40
    "    "
  = Some ("    " +:+ String.concat ""
            ((fun p : Z * Z => "case " +:+ pretty p.1 +:+ ":")
               <$> filter (fun p : Z * Z => p.2 = 40)
                     (zip (seqZ 10 3) [40; 50; 40]))
          +:+ (if decide (50 = 40) then "default:" else "")).
Proof.
  apply (emit_case_labels_spec
           ([7; 7] ++ [10; 12] ++ [40; 50; 40] ++ [50] ++ [9])
           [7; 7] 10 [40; 50; 40] 50 [9] 2 40 "    ").
  - reflexivity.
  - reflexivity.
  - vm_compute. reflexivity.
Defined.

(** The labels of the example: the cases 10 and 12 go to block 40. *)
Example ex_case_labels :
  emit_case_labels ([7; 7] ++ [10; 12] ++ [40; 50; 40] ++ [50] ++ [9]) 2 40
    "    "
  = Some "    case 10:case 12:".
Proof. vm_compute. reflexivity. Qed.

(** ** Function exit always succeeds on a well-formed frame *)

Lemma exit_rel_refl vm : exit_rel vm vm.
Proof. done. Qed.

Lemma exit_rel_trans vm1 vm2 vm3 :
  exit_rel vm1 vm2 -> exit_rel vm2 vm3 -> exit_rel vm1 vm3.
Proof.
  intros (? & ? & ? & ?) (? & ? & ? & ?). repeat split; congruence.
Qed.

Lemma zlookup_in_range {A} (l : list A) i :
  0 <= i < Z.of_nat (length l) -> exists a, zlookup l i = Some a.
Proof.
  intros Hi. destruct (zlookup l i) as [a|] eqn:H; [eauto|].
  by apply zlookup_None in H.
Qed.

Lemma bind_Pop {B} sp (k : Value * Z -> M B) vm :
  bind (Pop sp) k vm =
  match zlookup (stack vm) sp with
  | Some v => k (v, sp - 1) vm
  | None => Undef
  end.
Proof.
  unfold Pop. rewrite bind_assoc, bind_stack_get.
  by destruct (zlookup _ sp).
Qed.

Lemma bind_log_step {B} s (k : unit -> M B) vm :
  bind (log_step s) k vm = k tt (set_exit_steps (exit_steps vm ++ [s]) vm).
Proof. reflexivity. Qed.

Lemma dec_keeps_ok n : forall sp vm,
  0 <= sp - Z.of_nat n + 1 ->
  sp < Z.of_nat (length (stack vm)) ->
  exists vm', dec_keeps n sp vm = Ret (sp - Z.of_nat n) vm' /\
              exit_rel vm vm' /\ vars vm' = vars vm /\ stack vm' = stack vm.
Proof.
  induction n as [|n IH]; intros sp vm Hlo Hhi; cbn [dec_keeps].
  - exists vm. split; [unfold ret; f_equal; lia|done].
  - rewrite bind_Pop.
    destruct (zlookup_in_range (stack vm) sp) as [v ->]; [lia|].
    cbn [fst snd]. rewrite bind_log_step.
    set (vm1 := set_exit_steps _ vm).
    destruct (IH (sp - 1) vm1) as (vm' & Hrun & Hrel & Hv & Hs).
    { lia. } { replace (stack vm1) with (stack vm) by (by destruct vm). lia. }
    exists vm'. split.
    { rewrite Hrun. f_equal. lia. }
    split; [|split].
    + eapply exit_rel_trans; [|exact Hrel]. by destruct vm.
    + rewrite Hv. by destruct vm.
    + rewrite Hs. by destruct vm.
Qed.

Lemma dec_owned_ok l : forall fip vm,
  (forall (k : nat) x, l !! k = Some x ->
     zlookup (bytecode (bcf vm)) (fip + Z.of_nat k) = Some x) ->
  (forall x, x ∈ l -> 0 <= x < Z.of_nat (length (vars vm))) ->
  exists vm', dec_owned (length l) fip vm = Ret tt vm' /\
              exit_rel vm vm' /\ vars vm' = vars vm /\ stack vm' = stack vm.
Proof.
  induction l as [|x l IH]; intros fip vm Hcode Hin; cbn [dec_owned length].
  - by exists vm.
  - pose proof (Hcode 0%nat x eq_refl) as H0. simpl in H0.
    rewrite Z.add_0_r in H0. rewrite bind_code_at, H0, bind_var_get.
    destruct (zlookup_in_range (vars vm) x) as [v ->].
    { apply Hin. left. }
    rewrite bind_log_step. set (vm1 := set_exit_steps _ vm).
    destruct (IH (fip + 1) vm1) as (vm' & Hrun & Hrel & Hv & Hs).
    { intros k y Hk. replace (bcf vm1) with (bcf vm) by (by destruct vm).
      replace (fip + 1 + Z.of_nat k) with (fip + Z.of_nat (S k)) by lia.
      by apply Hcode. }
    { intros y Hy. replace (vars vm1) with (vars vm) by (by destruct vm).
      apply Hin. by right. }
    exists vm'. split; [done|]. split; [|split].
    + eapply exit_rel_trans; [|exact Hrel]. by destruct vm.
    + rewrite Hv. by destruct vm.
    + rewrite Hs. by destruct vm.
Qed.

Lemma pop_vars_ok l : forall p sp vm,
  (forall (k : nat) x, l !! k = Some x ->
     zlookup (bytecode (bcf vm)) (p - Z.of_nat (length l) + Z.of_nat k)
     = Some x) ->
  (forall x, x ∈ l -> 0 <= x < Z.of_nat (length (vars vm))) ->
  0 <= sp - Z.of_nat (length l) + 1 ->
  sp < Z.of_nat (length (stack vm)) ->
  exists vm', pop_vars (length l) p sp vm
              = Ret (sp - Z.of_nat (length l)) vm' /\
              exit_rel vm vm' /\ stack vm' = stack vm.
Proof.
  induction l as [|x l IH] using rev_ind; intros p sp vm Hcode Hin Hlo Hhi.
  - exists vm. split; [simpl; unfold ret; f_equal; lia|done].
  - rewrite length_app in *. simpl length in *.
    replace (length l + 1)%nat with (S (length l)) in * by lia.
    cbn [pop_vars].
    pose proof (Hcode (length l) x) as Hx.
    rewrite lookup_app_r, Nat.sub_diag in Hx by lia.
    specialize (Hx eq_refl).
    replace (p - Z.of_nat (S (length l)) + Z.of_nat (length l))
      with (p - 1) in Hx by lia.
    rewrite bind_code_at, Hx, bind_Pop.
    destruct (zlookup_in_range (stack vm) sp) as [v ->]; [lia|].
    cbn [fst snd]. rewrite bind_var_set.
    destruct (zstore_is_Some (vars vm) x v) as [V1 HV1].
    { apply Hin. apply elem_of_app. right. left. }
    rewrite HV1, bind_log_step.
    set (vm1 := set_exit_steps _ (set_vars V1 vm)).
    destruct (IH (p - 1) (sp - 1) vm1) as (vm' & Hrun & Hrel & Hs).
    { intros k y Hk. replace (bcf vm1) with (bcf vm) by (by destruct vm).
      replace (p - 1 - Z.of_nat (length l) + Z.of_nat k)
        with (p - Z.of_nat (S (length l)) + Z.of_nat k) by lia.
      apply Hcode. by apply lookup_app_l_Some. }
    { intros y Hy. replace (vars vm1) with V1 by (by destruct vm).
      rewrite (zstore_length _ _ _ _ HV1). apply Hin.
      apply elem_of_app. by left. }
    { lia. }
    { replace (stack vm1) with (stack vm) by (by destruct vm). lia. }
    exists vm'. split.
    { rewrite Hrun. f_equal. lia. }
    split.
    + eapply exit_rel_trans; [|exact Hrel].
      unfold exit_rel, vm1. destruct vm; simpl in *.
      repeat split; try done. by eapply zstore_length.
    + rewrite Hs. by destruct vm.
Qed.

Lemma ts_memcpy_ok n : forall dst src vm,
  0 <= dst -> dst + Z.of_nat n <= Z.of_nat (length (stack vm)) ->
  0 <= src -> src + Z.of_nat n <= Z.of_nat (length (stack vm)) ->
  exists vm', ts_memcpy n dst src vm = Ret tt vm' /\
              exit_rel vm vm' /\ vars vm' = vars vm.
Proof.
  induction n as [|n IH]; intros dst src vm Hd Hdn Hs Hsn; cbn [ts_memcpy].
  - by exists vm.
  - rewrite bind_stack_get.
    destruct (zlookup_in_range (stack vm) src) as [v ->]; [lia|].
    rewrite bind_stack_set.
    destruct (zstore_is_Some (stack vm) dst v) as [S1 HS1]; [lia|].
    rewrite HS1. set (vm1 := set_stack S1 vm).
    assert (Hl : length (stack vm1) = length (stack vm)).
    { replace (stack vm1) with S1 by (by destruct vm).
      by eapply zstore_length. }
    destruct (IH (dst + 1) (src + 1) vm1) as (vm' & Hrun & Hrel & Hv);
      try (rewrite Hl; lia); try lia.
    exists vm'. split; [done|]. split.
    + eapply exit_rel_trans; [|exact Hrel].
      unfold exit_rel. rewrite Hl. by destruct vm.
    + rewrite Hv. by destruct vm.
Qed.

(** X26. Function exit always succeeds on a well-formed frame: when the
    last frame was made for the function whose header is at [ip], the
    depth after the return values is the one the frame recorded (or
    assertions are off), the frame's cells -- keep slots, saved defaults,
    arguments -- lie inside the stack buffer, and the header's globals
    inside [vars], then [FunOut] returns the depth of the frame base plus
    [nrv], runs off neither array, pops exactly that frame, and keeps the
    sizes of the stack and of [vars]. *)
Theorem FunOut_returns cfg h ip sp nrv vm f :
  header_at (bytecode (bcf vm)) ip h ->
  back (stackframes vm) = Some f ->
  funstart f = Some ip ->
  (VMASSERT_ON cfg = true -> sp - nrv = spstart f) ->
  0 <= nrv ->
  sp < Z.of_nat (length (stack vm)) ->
  0 <= sp - nrv - Z.of_nat (Z.to_nat (h_nkeep h))
       - Z.of_nat (length (h_defs h)) - Z.of_nat (length (h_args h)) + 1 ->
  (forall x, x ∈ h_args h ++ h_defs h ++ h_owned h ->
     0 <= x < Z.of_nat (length (vars vm))) ->
  exists vm',
    FunOut cfg sp nrv vm
    = Ret (sp - nrv - Z.of_nat (Z.to_nat (h_nkeep h))
           - Z.of_nat (length (h_defs h)) - Z.of_nat (length (h_args h))
           + nrv) vm' /\
    stackframes vm' = pop_back (stackframes vm) /\
    length (stack vm') = length (stack vm) /\
    length (vars vm') = length (vars vm) /\
    bcf vm' = bcf vm.
Proof.
  intros Hh Hback Hfs Hassert Hnrv Hsp Hbase Hin.
  unfold FunOut. cbv zeta.
  rewrite bind_case, Hback. unfold lift_opt at 1, ret at 1.
  rewrite bind_case.
  assert (Ha : VMASSERT cfg (bool_decide (sp - nrv = spstart f)) "false" vm
               = Ret tt vm).
  { unfold VMASSERT. destruct (VMASSERT_ON cfg); [|done].
    by rewrite bool_decide_eq_true_2 by auto. }
  rewrite Ha, bind_lift_opt, Hfs.
  rewrite bind_code_at, (header_nargs _ _ _ Hh).
  rewrite bind_code_at.
  replace (ip + 1 + 1 + Z.of_nat (length (h_args h)))
    with (ip + 2 + Z.of_nat (length (h_args h))) by lia.
  rewrite (header_ndef _ _ _ Hh).
  rewrite bind_code_at.
  replace (ip + 2 + Z.of_nat (length (h_args h)) + 1
           + Z.of_nat (length (h_defs h)))
    with (ip + 3 + Z.of_nat (length (h_args h))
          + Z.of_nat (length (h_defs h))) by lia.
  rewrite (header_nkeep _ _ _ Hh).
  rewrite bind_case.
  destruct (dec_keeps_ok (Z.to_nat (h_nkeep h)) (sp - nrv) vm)
    as (vm1 & Hrun1 & R1 & Hv1 & Hs1); [lia|lia|].
  rewrite Hrun1.
  assert (Hb1 : bcf vm1 = bcf vm) by apply R1.
  rewrite bind_code_at, Hb1.
  replace (ip + 3 + Z.of_nat (length (h_args h))
           + Z.of_nat (length (h_defs h)) + 1)
    with (ip + 4 + Z.of_nat (length (h_args h))
          + Z.of_nat (length (h_defs h))) by lia.
  rewrite (header_nowned _ _ _ Hh), Nat2Z.id.
  rewrite bind_case.
  destruct (dec_owned_ok (h_owned h)
              (ip + 4 + Z.of_nat (length (h_args h))
               + Z.of_nat (length (h_defs h)) + 1) vm1)
    as (vm2 & Hrun2 & R2 & Hv2 & Hs2).
  { intros k y Hk. rewrite Hb1.
    replace (ip + 4 + Z.of_nat (length (h_args h))
             + Z.of_nat (length (h_defs h)) + 1 + Z.of_nat k)
      with (ip + 5 + Z.of_nat (length (h_args h))
            + Z.of_nat (length (h_defs h)) + Z.of_nat k) by lia.
    by apply (header_owned _ _ _ Hh). }
  { intros y Hy. rewrite Hv1. apply Hin. rewrite !elem_of_app. auto. }
  rewrite Hrun2.
  pose proof (exit_rel_trans _ _ _ R1 R2) as R12.
  rewrite bind_case, while_dec_length.
  destruct (pop_vars_ok (h_defs h)
              (ip + 3 + Z.of_nat (length (h_args h))
               + Z.of_nat (length (h_defs h)))
              (sp - nrv - Z.of_nat (Z.to_nat (h_nkeep h))) vm2)
    as (vm3 & Hrun3 & R3 & Hs3).
  { intros k y Hk. replace (bcf vm2) with (bcf vm) by (symmetry; apply R12).
    replace (ip + 3 + Z.of_nat (length (h_args h))
             + Z.of_nat (length (h_defs h))
             - Z.of_nat (length (h_defs h)) + Z.of_nat k)
      with (ip + 3 + Z.of_nat (length (h_args h)) + Z.of_nat k) by lia.
    by apply (header_def _ _ _ Hh). }
  { intros y Hy. rewrite Hv2, Hv1. apply Hin. rewrite !elem_of_app. auto. }
  { lia. }
  { rewrite Hs2, Hs1. lia. }
  rewrite Hrun3.
  pose proof (exit_rel_trans _ _ _ R12 R3) as R13.
  rewrite bind_case, while_dec_length.
  destruct (pop_vars_ok (h_args h)
              (ip + 2 + Z.of_nat (length (h_args h)))
              (sp - nrv - Z.of_nat (Z.to_nat (h_nkeep h))
               - Z.of_nat (length (h_defs h))) vm3)
    as (vm4 & Hrun4 & R4 & Hs4).
  { intros k y Hk. replace (bcf vm3) with (bcf vm) by (symmetry; apply R13).
    replace (ip + 2 + Z.of_nat (length (h_args h))
             - Z.of_nat (length (h_args h)) + Z.of_nat k)
      with (ip + 2 + Z.of_nat k) by lia.
    by apply (header_arg _ _ _ Hh). }
  { intros y Hy. destruct R13 as (_ & _ & -> & _). apply Hin.
    rewrite !elem_of_app. auto. }
  { lia. }
  { rewrite Hs3, Hs2, Hs1. lia. }
  rewrite Hrun4.
  pose proof (exit_rel_trans _ _ _ R13 R4) as R14.
  rewrite bind_modify, bind_log_step. rewrite bind_case.
  match goal with |- context [ts_memcpy ?n ?d ?s ?v] =>
    destruct (ts_memcpy_ok n d s v) as (vm5 & Hrun5 & R5 & Hv5)
  end.
  { lia. }
  { replace (length (stack (set_exit_steps _ _))) with (length (stack vm))
      by (destruct R14 as (_ & <- & _); by destruct vm4).
    lia. }
  { lia. }
  { replace (length (stack (set_exit_steps _ _))) with (length (stack vm))
      by (destruct R14 as (_ & <- & _); by destruct vm4).
    lia. }
  rewrite Hrun5, bind_log_step. unfold ret.
  eexists. split; [reflexivity|].
  destruct R14 as (Hb4 & Hl4 & Hlv4 & Hf4).
  destruct R5 as (Hb5 & Hl5 & Hlv5 & Hf5).
  split; [|split; [|split]].
  - replace (stackframes (set_exit_steps _ vm5)) with (stackframes vm5)
      by (by destruct vm5).
    rewrite Hf5. replace (stackframes (set_exit_steps _ _))
      with (pop_back (stackframes vm4)) by (by destruct vm4).
    by rewrite Hf4.
  - replace (stack (set_exit_steps _ vm5)) with (stack vm5)
      by (by destruct vm5).
    rewrite Hl5, <- Hl4. by destruct vm4.
  - replace (vars (set_exit_steps _ vm5)) with (vars vm5)
      by (by destruct vm5).
    rewrite Hlv5, <- Hlv4. by destruct vm4.
  - replace (bcf (set_exit_steps _ vm5)) with (bcf vm5) by (by destruct vm5).
    rewrite Hb5, <- Hb4. by destruct vm4.
Qed.

Lemma FunOut_returns_witness :
  exists vm',
    FunOut ex_cfg 4 1 ex_vm2
    = Ret (4 - 1 - Z.of_nat (Z.to_nat (h_nkeep ex_header))
           - Z.of_nat (length (h_defs ex_header))
           - Z.of_nat (length (h_args ex_header)) + 1) vm' /\
    stackframes vm' = pop_back (stackframes ex_vm2) /\
    length (stack vm') = length (stack ex_vm2) /\
    length (vars vm') = length (vars ex_vm2) /\
    bcf vm' = bcf ex_vm2.
Proof.
  apply (FunOut_returns ex_cfg ex_header 3 4 1 ex_vm2
           {| funstart := Some 3; spstart := 3 |}).
  - apply ex_header_at_exit.
  - vm_compute. reflexivity.
  - reflexivity.
  - intros _. reflexivity.
  - lia.
  - vm_compute. reflexivity.
  - vm_compute. congruence.
  - intros x Hx. simpl in Hx. rewrite !elem_of_cons, elem_of_nil in Hx.
    assert (length (vars ex_vm2) = 5%nat) as -> by reflexivity. lia.
Defined.

(** ** The error path restores the globals *)

Lemma unwind_vars_restore l : forall p sp vm sp' vm',
  (forall (k : nat) x, l !! k = Some x ->
     zlookup (bytecode (bcf vm)) (p - Z.of_nat (length l) + Z.of_nat k)
     = Some x) ->
  unwind_vars (length l) p sp vm = Ret sp' vm' ->
  sp' = sp - Z.of_nat (length l) /\
  exists V,
    restore (rev (pair_slots l (sp - Z.of_nat (length l) + 1)))
      (stack vm) (vars vm) = Some V /\
    vm' = set_vars V vm.
Proof.
  induction l as [|x l IH] using rev_ind;
    intros p sp vm sp' vm' Hcode H.
  - simpl in H. apply ret_Ret in H as [<- <-]. split; [simpl; lia|].
    exists (vars vm). split; [done|]. by destruct vm.
  - rewrite length_app, Nat.add_1_r in *. simpl in H. run_inv H.
    pose proof (Hcode (length l) x) as H1.
    rewrite lookup_app_r, Nat.sub_diag in H1 by lia.
    specialize (H1 eq_refl).
    replace (p - Z.of_nat (S (length l)) + Z.of_nat (length l))
      with (p - 1) in H1 by lia.
    rewrite Hstep in H1. injection H1 as ->.
    apply IH in H as (-> & V & HV & ->).
    2:{ intros k y Hk. simpl.
        replace (p - 1 - Z.of_nat (length l) + Z.of_nat k)
          with (p - Z.of_nat (S (length l)) + Z.of_nat k) by lia.
        apply Hcode. by apply lookup_app_l_Some. }
    split; [lia|]. simpl in *.
    replace (a0.2 - Z.of_nat (length l) + 1)
      with (sp - Z.of_nat (S (length l)) + 1) in * by lia.
    exists V. split; [|by destruct vm].
    rewrite pair_slots_app, rev_app_distr. simpl.
    replace (sp - Z.of_nat (S (length l)) + 1 + Z.of_nat (length l))
      with sp by lia.
    by rewrite Hstep0, Hstep1.
Qed.

Section ErrorRestore.

Variable cfg : Build.
Variable to_string_hex : Z -> string.
Variable pointer_is_in_allocator : Z -> bool.
Variable RefToString : Z -> PrintRes.
Variable ToString : Value -> TypeInfo -> PrintRes.
Variable StructToString : TypeInfo -> list Value -> PrintRes.

(** The first loop of [Error] stops at the depth the last frame
    recorded. *)
Lemma dump_stack_depth fuel : forall sp vm f sp' vm',
  never_raises RefToString ->
  back (stackframes vm) = Some f ->
  -1 <= spstart f <= sp ->
  sp - spstart f <= Z.of_nat fuel ->
  dump_stack cfg to_string_hex pointer_is_in_allocator RefToString fuel sp vm
  = Ret sp' vm' ->
  sp' = spstart f /\ exists d, vm' = set_errmsg (errmsg vm +:+ d) vm.
Proof.
  induction fuel as [|fuel IH]; intros sp vm f sp' vm' HRef Hback Hsp Hfuel H.
  - simpl in H. injection H as <- <-. split; [lia|].
    exists "". by rewrite set_errmsg_eta.
  - cbn [dump_stack] in H. rewrite bind_gets, Hback in H.
    destruct (decide (sp = spstart f)) as [->|Hne].
    + rewrite (bool_decide_eq_true_2 (spstart f = spstart f)) in H by done.
      cbn [negb] in H.
      rewrite andb_false_r in H. injection H as <- <-. split; [done|].
      exists "". by rewrite set_errmsg_eta.
    + rewrite (bool_decide_eq_false_2 (sp = spstart f)) in H by done.
      rewrite (bool_decide_eq_true_2 (sp >= 0)) in H by lia.
      cbn [negb andb] in H.
      rewrite bind_stack_get in H.
      destruct (zlookup (stack vm) sp) as [top|]; [|done].
      unfold append_errmsg at 1 in H. rewrite bind_modify in H.
      rewrite bind_case in H.
      match type of H with context [(if ?b then ?m1 else ?m2) ?s] =>
        assert (Hm : exists d, (if b then m1 else m2) s
                               = Ret tt (set_errmsg (errmsg s +:+ d) s))
      end.
      { destruct (pointer_is_in_allocator (any top)).
        - unfold append_errmsg at 1. rewrite bind_modify.
          destruct (HRef (any top)) as [text Ht]. rewrite Ht. simpl.
          unfold append_errmsg, modify. eexists (", maybe: " +:+ text).
          f_equal. destruct vm; simpl. by rewrite !string_app_assoc.
        - exists "". unfold ret. by rewrite set_errmsg_eta. }
      destruct Hm as [d Hm]. rewrite Hm in H.
      apply IH with (f := f) in H as [-> [d' ->]]; try done; try lia.
      split; [done|]. eexists. destruct vm; simpl.
      by rewrite !string_app_assoc.
Qed.

(** X27. Swap-restore on the error path: when the function entered
    through [FunIntro] on an empty frame list raises an error -- the
    first one of the VM, no tail trace recorded, the printing helpers not
    raising -- at or above the depth its frame recorded, with the code,
    the frame list and the slots of the saved globals as entry left them,
    then every global listed in the header's arg or def list holds, after
    [Error] has unwound, the cell it held before the call. *)
Theorem Error_restores_globals h ip sp vm sp1 vm1 spe err vm2 e vm3 :
  never_raises RefToString ->
  never_raises2 ToString ->
  never_raises2 StructToString ->
  stackframes vm = [] ->
  header_at (bytecode (bcf vm)) ip h ->
  0 <= h_nkeep h ->
  -1 <= sp ->
  FunIntro cfg sp ip vm = Ret sp1 vm1 ->
  bcf vm2 = bcf vm1 ->
  stackframes vm2 = stackframes vm1 ->
  (forall j, sp - Z.of_nat (length (h_args h)) < j
             <= sp + Z.of_nat (length (h_defs h)) ->
     zlookup (stack vm2) j = zlookup (stack vm1) j) ->
  error_has_occured vm2 = false ->
  ~ (trace (vmargs vm2) = TAIL /\ trace_output vm2 <> []) ->
  sp1 <= spe ->
  Error cfg to_string_hex pointer_is_in_allocator RefToString ToString
    StructToString spe err vm2 = Unwound e vm3 ->
  forall i, i ∈ h_args h ++ h_defs h ->
    exists v, zlookup (vars vm) i = Some v /\ zlookup (vars vm3) i = Some v.
Proof.
  intros HRef HTo HSt Hfr0 Hh Hnk Hsp Hin Hbcf Hfr Hbody Heo Htr Hspe H i Hi.
  destruct (FunIntro_inv _ _ _ _ _ _ _ Hh Hin)
    as (Sg & Sd & Hsaved & _ & Hlow & Hsp1 & Hbcf1 & Hfr1 & _).
  assert (Hh2 : header_at (bytecode (bcf vm2)) ip h) by congruence.
  rewrite Hfr0 in Hfr1. change (push_back [] ?x) with [x] in Hfr1.
  rewrite Hfr1 in Hfr.
  (* the error enters *)
  unfold Error in H. rewrite bind_case in H.
  rewrite (ErrorBase_first _ _ _ Heo Htr) in H.
  set (vmE := set_errmsg _ (set_error_has_occured true vm2)) in H.
  rewrite bind_case in H. unfold try_catch in H.
  pose proof (Error_body_run cfg to_string_hex pointer_is_in_allocator
                RefToString ToString StructToString spe vmE eq_refl) as Hb.
  destruct (bind _ _ vmE) as [u vmB|e2 vmB|] eqn:Hrun; [| |done].
  2:{ exfalso. destruct Hb as (Hr & _).
      destruct Hr as [[v Hv]|[(x & ti & Hx)|(ti & xs & Hx)]].
      - destruct (HRef v) as [t Ht]. congruence.
      - destruct (HTo x ti) as [t Ht]. congruence.
      - destruct (HSt ti xs) as [t Ht]. congruence. }
  clear Hb. apply UnwindOnError_state in H as ->.
  (* the cells above the frame *)
  apply bind_Ret in Hrun as (sp' & vmD & Hd & Hrun).
  apply (dump_stack_depth _ _ _ {| funstart := Some ip; spstart := sp1 |})
    in Hd as [-> [d HvmD]]; try done.
  2:{ replace (stackframes vmE) with (stackframes vm2) by (by destruct vm2).
      by rewrite Hfr. }
  2:{ simpl. lia. }
  2:{ simpl. lia. }
  simpl spstart in Hrun. rewrite bind_gets in Hrun.
  assert (HfD : stackframes vmD
                = [{| funstart := Some ip; spstart := sp1 |}]).
  { rewrite HvmD, <- Hfr. by destruct vm2. }
  assert (HbD : bcf vmD = bcf vm2) by (rewrite HvmD; by destruct vm2).
  assert (HsD : stack vmD = stack vm2) by (rewrite HvmD; by destruct vm2).
  assert (HvD : vars vmD = vars vm2) by (rewrite HvmD; by destruct vm2).
  rewrite HfD in Hrun. cbn [length unwind_frames] in Hrun.
  rewrite bind_gets, HfD in Hrun. cbn [back last] in Hrun.
  rewrite bind_lift_opt in Hrun. cbn [funstart] in Hrun.
  rewrite bind_code_at in Hrun.
  destruct (zlookup (bytecode (bcf vmD)) ip) as [deffun|]; [|done].
  rewrite bind_gets in Hrun.
  apply bind_Ret in Hrun as (u1 & vmL & HL & Hrun).
  assert (HvmL : exists d1, vmL = set_errmsg (errmsg vmD +:+ d1) vmD).
  { destruct (decide (deffun >= 0)).
    - rewrite bind_lift_opt in HL.
      destruct (zlookup _ deffun) as [nm|]; [|done].
      injection HL as <-. eauto.
    - injection HL as <-. eauto. }
  destruct HvmL as [d1 HvmL].
  assert (HbL : bcf vmL = bcf vm2) by (rewrite HvmL, <- HbD; by destruct vmD).
  rewrite bind_code_at, HbL, (header_nargs _ _ _ Hh2) in Hrun.
  rewrite bind_code_at, HbL in Hrun.
  replace (ip + 1 + 1 + Z.of_nat (length (h_args h)))
    with (ip + 2 + Z.of_nat (length (h_args h))) in Hrun by lia.
  rewrite (header_ndef _ _ _ Hh2) in Hrun.
  rewrite bind_code_at, HbL in Hrun.
  replace (ip + 2 + Z.of_nat (length (h_args h)) + 1
           + Z.of_nat (length (h_defs h)))
    with (ip + 3 + Z.of_nat (length (h_args h))
          + Z.of_nat (length (h_defs h))) in Hrun by lia.
  rewrite (header_nkeep _ _ _ Hh2) in Hrun.
  rewrite bind_gets in Hrun.
  apply bind_Ret in Hrun as (u2 & vmV & HV & Hrun).
  assert (HvmV : exists d2, vmV = set_errmsg (errmsg vmL +:+ d2) vmL).
  { match type of HV with ?m vmL = _ =>
      assert (Hap : appends m)
    end.
    { apply appends_decide; [|apply appends_ret].
      apply appends_bind; [by apply dump_vars_appends|intros _].
      by apply dump_vars_appends. }
    specialize (Hap vmL). rewrite HV in Hap. exact Hap. }
  destruct HvmV as [d2 HvmV].
  assert (HbV : bcf vmV = bcf vm2) by (rewrite HvmV, <- HbL; by destruct vmL).
  assert (HsV : stack vmV = stack vm2).
  { rewrite HvmV, <- HsD, HvmL. by destruct vmD. }
  assert (HvV : vars vmV = vars vm2).
  { rewrite HvmV, <- HvD, HvmL. by destruct vmD. }
  apply bind_Ret in Hrun as (spd & vm5 & Hd5 & Hrun).
  rewrite while_dec_length in Hd5.
  apply unwind_vars_restore in Hd5 as (-> & V1 & HV1 & ->).
  2:{ intros k0 y Hk0. rewrite HbV.
      replace (ip + 3 + Z.of_nat (length (h_args h))
               + Z.of_nat (length (h_defs h))
               - Z.of_nat (length (h_defs h)) + Z.of_nat k0)
        with (ip + 3 + Z.of_nat (length (h_args h)) + Z.of_nat k0) by lia.
      by apply (header_def _ _ _ Hh2). }
  apply bind_Ret in Hrun as (spa & vm6 & Hd6 & Hrun).
  rewrite while_dec_length in Hd6.
  apply unwind_vars_restore in Hd6 as (-> & V2 & HV2 & ->).
  2:{ intros k0 y Hk0.
      replace (bcf (set_vars V1 vmV)) with (bcf vm2)
        by (rewrite <- HbV; by destruct vmV).
      replace (ip + 2 + Z.of_nat (length (h_args h))
               - Z.of_nat (length (h_args h)) + Z.of_nat k0)
        with (ip + 2 + Z.of_nat k0) by lia.
      by apply (header_arg _ _ _ Hh2). }
  rewrite bind_modify, bind_gets in Hrun.
  cbn [unwind_frames] in Hrun. apply ret_Ret in Hrun as [_ <-].
  lazymatch goal with
  | |- exists v, _ /\ zlookup (vars ?s) i = _ => change (vars s) with V2
  end.
  change (stack (set_vars V1 vmV)) with (stack vmV) in HV2.
  change (vars (set_vars V1 vmV)) with V1 in HV2.
  rewrite HsV in HV2.
  rewrite HsV, HvV in HV1.
  (* the same restore as on a normal exit *)
  replace (sp1 - h_nkeep h - Z.of_nat (length (h_defs h))) with sp in *
    by lia.
  replace (sp1 - h_nkeep h) with (sp + Z.of_nat (length (h_defs h))) in HV1
    by lia.
  replace (sp + Z.of_nat (length (h_defs h)) - Z.of_nat (length (h_defs h))
           + 1) with (sp + 1) in HV1 by lia.
  set (l := pair_slots (h_args h) (sp - Z.of_nat (length (h_args h)) + 1)
            ++ pair_slots (h_defs h) (sp + 1)) in *.
  assert (Hres : restore (rev l) (stack vm2) (vars vm2) = Some V2).
  { unfold l. rewrite rev_app_distr, restore_app. by rewrite HV1. }
  assert (Hfst : l.*1 = h_args h ++ h_defs h).
  { unfold l. by rewrite fmap_app, !pair_slots_fst. }
  assert (Hsnd : l.*2 = seqZ (sp - Z.of_nat (length (h_args h)) + 1)
                   (Z.of_nat (length (h_args h))
                    + Z.of_nat (length (h_defs h)))).
  { unfold l. rewrite fmap_app, !pair_slots_snd, seqZ_app by lia.
    do 2 f_equal. lia. }
  assert (Hi' : i ∈ l.*1) by by rewrite Hfst.
  assert (Heq : zlookup V2 i = zlookup (vars vm) i).
  { apply (saved_restore l (vars vm, Sg) (vars vm1, Sd)
             (stack vm2) (vars vm2) V2 Hsaved).
    - rewrite Hsnd. apply NoDup_seqZ.
    - intros s Hs. rewrite Hsnd in Hs. apply elem_of_seqZ in Hs.
      simpl. rewrite Hbody by lia. apply Hlow. lia.
    - exact Hres.
    - exact Hi'. }
  destruct (restore_is_Some _ _ _ _ Hres i) as [v Hv].
  { by apply elem_of_fst_rev. }
  exists v. by rewrite <- Heq.
Qed.

End ErrorRestore.

Lemma Error_restores_globals_witness :
  (exists v, zlookup (vars ex_vm0) 1 = Some v /\
             zlookup (vars (final_state
               (Error ex_cfg ex_hex ex_in_alloc ex_RefToString ex_ToString
                  ex_StructToString 4 "oops" ex_vm2) ex_vm2)) 1 = Some v) /\
  (exists v, zlookup (vars ex_vm0) 3 = Some v /\
             zlookup (vars (final_state
               (Error ex_cfg ex_hex ex_in_alloc ex_RefToString ex_ToString
                  ex_StructToString 4 "oops" ex_vm2) ex_vm2)) 3 = Some v).
Proof.
  assert (H : forall i, i ∈ h_args ex_header ++ h_defs ex_header ->
    exists v, zlookup (vars ex_vm0) i = Some v /\
              zlookup (vars (final_state
                (Error ex_cfg ex_hex ex_in_alloc ex_RefToString ex_ToString
                   ex_StructToString 4 "oops" ex_vm2) ex_vm2)) i = Some v).
  { apply (Error_restores_globals ex_cfg ex_hex ex_in_alloc ex_RefToString
             ex_ToString ex_StructToString ex_header 3 1 ex_vm0 3 ex_vm1 4
             "oops" ex_vm2
             (Thrown ("VM error: oops" +:+ nl +:+ "   stack: 55" +:+ nl
                      +:+ "in function: f" +:+ nl +:+ "   x = 9" +:+ nl
                      +:+ "   x = 8" +:+ nl +:+ "   x = 7"))).
    - apply ex_RefToString_ok.
    - apply ex_ToString_ok.
    - apply ex_StructToString_ok.
    - reflexivity.
    - apply ex_header_at.
    - vm_compute. congruence.
    - lia.
    - apply returned_final_state. vm_compute. reflexivity.
    - vm_compute. reflexivity.
    - vm_compute. reflexivity.
    - intros j Hj.
      assert (j = 0 \/ j = 1 \/ j = 2) as [->|[->| ->]]
        by (simpl in Hj; lia); vm_compute; reflexivity.
    - vm_compute. reflexivity.
    - intros [Ht _]. vm_compute in Ht. discriminate.
    - lia.
    - apply unwound_final_state. vm_compute. reflexivity. }
  split; apply H; simpl; rewrite !elem_of_cons; auto.
Defined.

(** ** What a traced instruction records *)

Lemma rtt_text_stack cfg tsb sp vm vm2 r :
  stack vm2 = stack vm ->
  rtt_text cfg tsb sp vm = Ret r vm ->
  rtt_text cfg tsb sp vm2 = Ret r vm2.
Proof.
  intros Hs. unfold rtt_text. destruct (RTT_ENABLED cfg).
  2:{ by intros [= <-]. }
  destruct (decide (sp >= 0)).
  2:{ by intros [= <-]. }
  rewrite !bind_stack_get, Hs.
  destruct (zlookup (stack vm) sp) as [top|]; [|done].
  destruct (decide (sp > 0)).
  2:{ by intros [= <-]. }
  rewrite !bind_stack_get, Hs.
  destruct (zlookup (stack vm) (sp - 1)) as [top1|]; [|done].
  by intros [= <-].
Qed.

(** X28. What a traced instruction records: on a ring left by earlier
    trace calls, [CVM_Trace] for the instruction text [op] returns and
    adds exactly one entry to the ring: [op], then -- in a build with
    run-time types -- " - " and the top cell and " - " and the cell below
    it as far as the stack holds them, then a line feed in tail mode
    only. The stack, the globals and the error message are not
    touched. *)
Theorem CVM_Trace_records cfg tsb sp op hist vm r :
  ring_inv hist vm ->
  rtt_text cfg tsb sp vm = Ret r vm ->
  exists vm',
    CVM_Trace cfg tsb sp op vm = Ret tt vm' /\
    ring_inv (hist ++ [op +:+ r +:+
                       (if bool_decide (trace (vmargs vm) = TAIL)
                        then nl else "")]) vm' /\
    stack vm' = stack vm /\ vars vm' = vars vm /\ errmsg vm' = errmsg vm /\
    (RTT_ENABLED cfg = false -> r = "").
Proof.
  intros Hinv Hr.
  set (x := op +:+ r +:+
            (if bool_decide (trace (vmargs vm) = TAIL) then nl else "")).
  destruct (trace_call_step hist vm x Hinv) as (vm' & Hcall & Hinv' & Hargs).
  exists vm'.
  destruct (trace_call_frame _ _ _ Hcall) as (out & idx & Hvm').
  split; [|split; [done|]].
  2:{ rewrite Hvm'. split; [by destruct vm|]. split; [by destruct vm|].
      split; [by destruct vm|].
      intros Hrtt. unfold rtt_text in Hr. rewrite Hrtt in Hr.
      by injection Hr as <-. }
  clear Hvm'. unfold CVM_Trace. unfold bind in Hcall |- *.
  destruct (TraceStream vm) as [slot vm1| |] eqn:Hts; [|done|done].
  assert (Hvm1 : stack vm1 = stack vm /\ vmargs vm1 = vmargs vm).
  { unfold TraceStream in Hts. destruct (decide (_ < length _)%nat); [|done].
    injection Hts as _ <-. by destruct vm. }
  destruct Hvm1 as [Hs1 Ha1].
  unfold append_slot in Hcall. unfold append_slot at 1.
  destruct (trace_output vm1 !! slot) as [s0|] eqn:Hs0; [|done].
  injection Hcall as <-.
  assert (Hlt : (slot < length (trace_output vm1))%nat)
    by (eapply lookup_lt_Some; eauto).
  rewrite (rtt_text_stack cfg tsb sp vm _ r); [|by destruct vm1|done].
  unfold append_slot at 1. cbn [trace_output set_trace_output].
  rewrite list_lookup_insert_eq by done.
  rewrite list_insert_insert_eq. unfold gets.
  replace (trace (vmargs (set_trace_output _ (set_trace_output _ vm1))))
    with (trace (vmargs vm)) by (rewrite <- Ha1; by destruct vm1).
  unfold x. destruct (bool_decide (trace (vmargs vm) = TAIL)).
  - unfold append_slot. cbn [trace_output set_trace_output].
    rewrite list_lookup_insert_eq by done.
    rewrite list_insert_insert_eq. f_equal.
    rewrite !string_app_assoc. by destruct vm1.
  - unfold ret. f_equal. rewrite string_app_nil_r, !string_app_assoc.
    by destruct vm1.
Qed.

Lemma CVM_Trace_records_witness :
  exists vm',
    CVM_Trace ex_cfg (fun v => pretty (any v)) 1 "PUSHINT(1)"
      (VM_new ex_tail_args) = Ret tt vm' /\
    ring_inv ([] ++ ["PUSHINT(1)" +:+ "" +:+
                     (if bool_decide (trace (vmargs (VM_new ex_tail_args))
                                      = TAIL)
                      then nl else "")]) vm' /\
    stack vm' = stack (VM_new ex_tail_args) /\
    vars vm' = vars (VM_new ex_tail_args) /\
    errmsg vm' = errmsg (VM_new ex_tail_args) /\
    (RTT_ENABLED ex_cfg = false -> "" = "").
Proof.
  apply (CVM_Trace_records ex_cfg (fun v => pretty (any v)) 1 "PUSHINT(1)"
           [] (VM_new ex_tail_args) "").
  - left. done.
  - reflexivity.
Defined.

(** ** An index error whose vector cannot be printed *)

(** X29. When the helper that prints the indexed vector raises a text
    instead, [IDXErr] -- on a VM with no error so far and no tail trace
    recorded -- does not return and leaves "VM error: " and that text as
    the message: the index and the length are not in it, no stack trace
    is built, and no frame is popped and no global restored. *)
Theorem IDXErr_printer_failure cfg hex inalloc RefToString ToString
    StructToString sp i n v s vm :
  RefToString v = Raises s ->
  error_has_occured vm = false ->
  ~ (trace (vmargs vm) = TAIL /\ trace_output vm <> []) ->
  exists e vm',
    IDXErr cfg hex inalloc RefToString ToString StructToString sp i n v vm
    = Unwound e vm' /\
    errmsg vm' = errmsg vm +:+ "VM error: " +:+ s /\
    stackframes vm' = stackframes vm /\ vars vm' = vars vm /\
    stack vm' = stack vm.
Proof.
  intros Hv Heo Htr. unfold IDXErr. rewrite Hv.
  rewrite bind_case. unfold SeriousError. rewrite bind_case.
  rewrite (ErrorBase_first _ _ _ Heo Htr).
  unfold UnwindOnError, THROW_OR_ABORT.
  destruct (VM_USE_LONGJMP cfg), (USE_EXCEPTION_HANDLING cfg);
    eexists _, _; (split; [reflexivity|by destruct vm]).
Qed.

Lemma IDXErr_printer_failure_witness :
  exists e vm',
    IDXErr ex_cfg ex_hex ex_in_alloc (fun _ => Raises "cycle") ex_ToString
      ex_StructToString 3 5 3 0 ex_vm1 = Unwound e vm' /\
    errmsg vm' = errmsg ex_vm1 +:+ "VM error: " +:+ "cycle" /\
    stackframes vm' = stackframes ex_vm1 /\ vars vm' = vars ex_vm1 /\
    stack vm' = stack ex_vm1.
Proof.
  apply (IDXErr_printer_failure ex_cfg ex_hex ex_in_alloc
           (fun _ => Raises "cycle") ex_ToString ex_StructToString 3 5 3 0
           "cycle" ex_vm1).
  - reflexivity.
  - vm_compute. reflexivity.
  - intros [Ht _]. vm_compute in Ht. discriminate.
Defined.
(** ** Entry and exit of a function, cell by cell *)

Lemma swap_args_cells l : forall ip sp nargs i vm u vm',
  (forall (k : nat) x, l !! k = Some x ->
     zlookup (bytecode (bcf vm)) (ip + i + Z.of_nat k) = Some x) ->
  swap_args (length l) ip sp nargs i vm = Ret u vm' ->
  swap_cells l (sp - nargs + i + 1) (vars vm, stack vm)
  = Some (vars vm', stack vm').
Proof.
  induction l as [|x l IH]; intros ip sp nargs i vm u vm' Hcode H;
    cbn [swap_args length] in H.
  - apply ret_Ret in H as [_ <-]. done.
  - pose proof (Hcode 0%nat x eq_refl) as H0. simpl in H0.
    rewrite Z.add_0_r in H0. rewrite bind_code_at, H0 in H.
    rewrite bind_var_get in H. cbn [swap_cells fst snd].
    destruct (zlookup (vars vm) x) as [g|]; [|done].
    rewrite bind_stack_get in H.
    destruct (zlookup (stack vm) (sp - nargs + i + 1)) as [a|]; [|done].
    rewrite bind_var_set in H.
    destruct (zstore (vars vm) x a) as [V1|]; [|done].
    rewrite bind_stack_set in H. cbn [stack set_vars] in H.
    destruct (zstore (stack vm) (sp - nargs + i + 1) g) as [S1|]; [|done].
    apply IH in H.
    + replace (sp - nargs + i + 1 + 1) with (sp - nargs + (i + 1) + 1) by lia.
      rewrite <- H. by destruct vm.
    + intros k y Hk.
      replace (bcf (set_stack S1 (set_vars V1 vm))) with (bcf vm)
        by (by destruct vm).
      replace (ip + (i + 1) + Z.of_nat k)
        with (ip + i + Z.of_nat (Datatypes.S k)) by lia.
      by apply Hcode.
Qed.

Lemma backup_defs_cells l : forall ip sp vm r vm',
  (forall (k : nat) x, l !! k = Some x ->
     zlookup (bytecode (bcf vm)) (ip + Z.of_nat k) = Some x) ->
  backup_defs (length l) ip sp vm = Ret r vm' ->
  save_cells l (sp + 1) (vars vm, stack vm) = Some (vars vm', stack vm').
Proof.
  induction l as [|x l IH]; intros ip sp vm r vm' Hcode H;
    cbn [backup_defs length] in H.
  - apply ret_Ret in H as [_ <-]. done.
  - pose proof (Hcode 0%nat x eq_refl) as H0. simpl in H0.
    rewrite Z.add_0_r in H0. rewrite bind_code_at, H0 in H.
    rewrite bind_var_get in H. cbn [save_cells fst snd].
    destruct (zlookup (vars vm) x) as [g|]; [|done].
    rewrite bind_Push in H.
    destruct (zstore (stack vm) (sp + 1) g) as [S1|]; [|done].
    rewrite bind_var_set in H. cbn [vars set_stack] in H.
    replace (vars (set_stack S1 vm)) with (vars vm) in H by (by destruct vm).
    destruct (zstore (vars vm) x nil_Value) as [V1|]; [|done].
    apply IH in H.
    + rewrite <- H. by destruct vm.
    + intros k y Hk.
      replace (bcf (set_vars V1 (set_stack S1 vm))) with (bcf vm)
        by (by destruct vm).
      replace (ip + 1 + Z.of_nat k)
        with (ip + Z.of_nat (Datatypes.S k)) by lia.
      by apply Hcode.
Qed.

(** The loops of a function entry that returns, one after the other. *)
Lemma FunIntro_walk cfg h ip sp vm sp1 vm1 :
  header_at (bytecode (bcf vm)) ip h ->
  FunIntro cfg sp ip vm = Ret sp1 vm1 ->
  exists vmg vms vmd vmk r,
    vars vmg = vars vm /\ bcf vmg = bcf vm /\
    (forall j, j <= sp -> zlookup (stack vmg) j = zlookup (stack vm) j) /\
    swap_args (length (h_args h)) (ip + 2) sp
      (Z.of_nat (length (h_args h))) 0 vmg = Ret tt vms /\
    backup_defs (length (h_defs h))
      (ip + 3 + Z.of_nat (length (h_args h))) sp vms = Ret r vmd /\
    push_keeps (Z.to_nat (h_nkeep h))
      (sp + Z.of_nat (length (h_defs h))) vmd = Ret sp1 vmk /\
    vars vm1 = vars vmk /\ stack vm1 = stack vmk.
Proof.
  intros Hh H. unfold FunIntro in H.
  apply bind_Ret in H as (u & vmA & HA & H). apply modify_Ret in HA as ->.
  apply bind_Ret in H as (spg & vmg & Hg & H).
  apply grow_stack_Ret in Hg as (-> & Sg & z & -> & Hcopy & _).
  apply bind_Ret in H as (n & ? & Hn & H). apply code_at_Ret in Hn as [Hn ->].
  simpl in Hn. rewrite (header_nargs _ _ _ Hh) in Hn. injection Hn as <-.
  apply bind_Ret in H as ([] & vms & Hs & H). rewrite Nat2Z.id in Hs.
  set (vmg := set_stack Sg _) in *.
  assert (Hbg : bcf vmg = bcf vm) by (by destruct vm).
  pose proof (swap_args_run (h_args h) (ip + 1 + 1) sp
                (Z.of_nat (length (h_args h))) 0 vmg) as Hrun.
  rewrite Hs in Hrun.
  destruct Hrun as (Vs & Ss & Evms & _).
  { intros k y Hk. rewrite Hbg.
    replace (ip + 1 + 1 + 0 + Z.of_nat k) with (ip + 2 + Z.of_nat k) by lia.
    by apply (header_arg _ _ _ Hh). }
  assert (Hbs : bcf vms = bcf vm) by (subst vms; by destruct vm).
  apply bind_Ret in H as (n & ? & Hn & H). apply code_at_Ret in Hn as [Hn ->].
  rewrite Hbs in Hn.
  replace (ip + 1 + 1 + Z.of_nat (length (h_args h)))
    with (ip + 2 + Z.of_nat (length (h_args h))) in * by lia.
  rewrite (header_ndef _ _ _ Hh) in Hn. injection Hn as <-.
  apply bind_Ret in H as (r & vmd & Hd & H). rewrite Nat2Z.id in Hd.
  pose proof (backup_defs_run (h_defs h)
                (ip + 2 + Z.of_nat (length (h_args h)) + 1) sp vms) as Hrun.
  rewrite Hd in Hrun.
  destruct Hrun as (Er & Vd & Sd & Evmd & _).
  { intros k y Hk. rewrite Hbs.
    replace (ip + 2 + Z.of_nat (length (h_args h)) + 1 + Z.of_nat k)
      with (ip + 3 + Z.of_nat (length (h_args h)) + Z.of_nat k) by lia.
    by apply (header_def _ _ _ Hh). }
  assert (Hbd : bcf vmd = bcf vm) by (subst vmd vms; by destruct vm).
  apply bind_Ret in H as (nk & ? & Hn & H). apply code_at_Ret in Hn as [Hn ->].
  rewrite Er in Hn. cbn [fst snd] in Hn. rewrite Hbd in Hn.
  replace (ip + 2 + Z.of_nat (length (h_args h)) + 1
           + Z.of_nat (length (h_defs h)))
    with (ip + 3 + Z.of_nat (length (h_args h))
          + Z.of_nat (length (h_defs h))) in Hn by lia.
  rewrite (header_nkeep _ _ _ Hh) in Hn. injection Hn as <-.
  apply bind_Ret in H as (spk & vmk & Hk & H).
  rewrite Er in Hk. cbn [fst snd] in Hk.
  apply bind_Ret in H as (? & ? & Hn & H). apply code_at_Ret in Hn as [_ ->].
  apply bind_Ret in H as (? & vmf & Hf & H).
  apply set_back_frame_Ret in Hf as ->. apply ret_Ret in H as [<- <-].
  exists vmg, vms, vmd, vmk, r.
  split; [by destruct vm|]. split; [done|]. split.
  { intros j Hj. replace (stack vmg) with Sg by (by destruct vm).
    destruct (decide (0 <= j)).
    - rewrite Hcopy by lia. by destruct vm.
    - unfold zlookup. by rewrite !decide_False by lia. }
  replace (ip + 2 + Z.of_nat (length (h_args h)) + 1)
    with (ip + 3 + Z.of_nat (length (h_args h))) in Hd by lia.
  replace (ip + 1 + 1) with (ip + 2) in Hs by lia.
  split; [done|]. split; [done|]. split; [done|].
  split; by destruct vmk.
Qed.

(** C1. Swap-restore identity.  Entry: when [FunIntro] enters a function
    with header [h] at depth [sp] and returns, the globals and the stack
    up to the pushed defaults are those that result from swapping each arg
    global, in header order, with the caller's cell in the argument's slot
    and then pushing each def global and clearing it to nil ([Sg] is the
    stack after the growth check: the caller's cells up to [sp]); for a
    header that names no global twice, each arg global holds the caller's
    argument and the argument's slot the global's old value, each def
    global is nil and its pushed slot holds its old value.  Exit: when the
    body leaves the code, the frame list and the slots of the saved
    globals alone and balances the stack, and [FunOut] returns, the
    globals are overwritten from those slots, defs then args, each list
    last first; every global listed in the header then holds the cell it
    held before the call. *)
Theorem swap_restore_identity cfg h ip sp vm sp1 vm1 sp2 nrv vm2 sp3 vm3 :
  header_at (bytecode (bcf vm)) ip h ->
  FunIntro cfg sp ip vm = Ret sp1 vm1 ->
  bcf vm2 = bcf vm1 ->
  stackframes vm2 = stackframes vm1 ->
  (forall j, sp - Z.of_nat (length (h_args h)) < j
             <= sp + Z.of_nat (length (h_defs h)) ->
     zlookup (stack vm2) j = zlookup (stack vm1) j) ->
  sp2 - nrv = sp1 ->
  FunOut cfg sp2 nrv vm2 = Ret sp3 vm3 ->
  (exists Sg c1 c2,
     (forall j, j <= sp -> zlookup Sg j = zlookup (stack vm) j) /\
     swap_cells (h_args h) (sp - Z.of_nat (length (h_args h)) + 1)
       (vars vm, Sg) = Some c1 /\
     save_cells (h_defs h) (sp + 1) c1 = Some c2 /\
     vars vm1 = c2.1 /\
     (forall j, j <= sp + Z.of_nat (length (h_defs h)) ->
        zlookup (stack vm1) j = zlookup c2.2 j)) /\
  (NoDup (h_args h ++ h_defs h) ->
     (forall (k : nat) a, h_args h !! k = Some a ->
        exists old arg,
          zlookup (vars vm) a = Some old /\
          zlookup (stack vm)
            (sp - Z.of_nat (length (h_args h)) + 1 + Z.of_nat k) = Some arg /\
          zlookup (vars vm1) a = Some arg /\
          zlookup (stack vm1)
            (sp - Z.of_nat (length (h_args h)) + 1 + Z.of_nat k) = Some old) /\
     (forall (k : nat) d, h_defs h !! k = Some d ->
        exists old,
          zlookup (vars vm) d = Some old /\
          zlookup (vars vm1) d = Some nil_Value /\
          zlookup (stack vm1) (sp + 1 + Z.of_nat k) = Some old)) /\
  restore (rev (pair_slots (h_args h) (sp - Z.of_nat (length (h_args h)) + 1)
                ++ pair_slots (h_defs h) (sp + 1)))
    (stack vm2) (vars vm2) = Some (vars vm3) /\
  forall i, i ∈ h_args h ++ h_defs h ->
    exists v, zlookup (vars vm) i = Some v /\ zlookup (vars vm3) i = Some v.
Proof.
  intros Hh Hin Hbcf Hfr Hbody Hbal Hout.
  destruct (FunIntro_walk _ _ _ _ _ _ _ Hh Hin)
    as (vmg & vms & vmd & vmk & r & Hvg & Hbg & Hlowg & Hs & Hd & Hk
        & Hv1 & Hs1).
  assert (Hcode_a : forall (k : nat) x, h_args h !! k = Some x ->
            zlookup (bytecode (bcf vmg)) (ip + 2 + 0 + Z.of_nat k) = Some x).
  { intros k y Hy. rewrite Hbg.
    replace (ip + 2 + 0 + Z.of_nat k) with (ip + 2 + Z.of_nat k) by lia.
    by apply (header_arg _ _ _ Hh). }
  pose proof (swap_args_run (h_args h) (ip + 2) sp
                (Z.of_nat (length (h_args h))) 0 vmg Hcode_a) as Hrs.
  rewrite Hs in Hrs. destruct Hrs as (Vs & Ss & Evms & _ & _ & HVs & HSs & Hsw).
  assert (Hbs : bcf vms = bcf vm) by (subst vms; by destruct vmg).
  assert (Hcode_d : forall (k : nat) x, h_defs h !! k = Some x ->
            zlookup (bytecode (bcf vms))
              (ip + 3 + Z.of_nat (length (h_args h)) + Z.of_nat k) = Some x).
  { intros k y Hy. rewrite Hbs. by apply (header_def _ _ _ Hh). }
  pose proof (backup_defs_run (h_defs h)
                (ip + 3 + Z.of_nat (length (h_args h))) sp vms Hcode_d)
    as Hrd.
  rewrite Hd in Hrd.
  destruct Hrd as (_ & Vd & Sd & Evmd & _ & _ & HVd & HSd & Hnil & Hdf).
  pose proof (push_keeps_run (Z.to_nat (h_nkeep h))
                (sp + Z.of_nat (length (h_defs h))) vmd) as Hrk.
  rewrite Hk in Hrk. destruct Hrk as (Hsp1 & Sk & Evmk & _ & HSk & _).
  assert (Hvk : vars vmk = vars vmd) by (subst vmk; by destruct vmd).
  assert (Hsk : stack vmk = Sk) by (subst vmk; by destruct vmd).
  assert (Hvd : vars vmd = Vd) by (subst vmd; by destruct vms).
  assert (Hsd : stack vmd = Sd) by (subst vmd; by destruct vms).
  assert (Hvs : vars vms = Vs) by (subst vms; by destruct vmg).
  assert (Hss : stack vms = Ss) by (subst vms; by destruct vmg).
  apply swap_args_cells with (l := h_args h) in Hs; [|exact Hcode_a].
  apply backup_defs_cells with (l := h_defs h) in Hd; [|exact Hcode_d].
  replace (sp - Z.of_nat (length (h_args h)) + 0 + 1)
    with (sp - Z.of_nat (length (h_args h)) + 1) in * by lia.
  rewrite Hvg in Hs.
  rewrite Hsd in HSk. rewrite Hvs in HVd, Hdf. rewrite Hss in HSd.
  rewrite Hvg in HVs, Hsw.
  split.
  { exists (stack vmg), (vars vms, stack vms), (vars vmd, stack vmd).
    split; [exact Hlowg|]. split; [exact Hs|]. split; [exact Hd|].
    split; [by rewrite Hv1, Hvk|].
    intros j Hj. cbn [snd]. rewrite Hs1, Hsk, Hsd. apply HSk. lia. }
  split.
  { intros Hnodup. apply NoDup_app in Hnodup as (Hnda & Hdisj & Hndd).
    specialize (Hsw Hnda). specialize (Hdf Hndd).
    rewrite Hv1, Hs1, Hvk, Hsk, Hvd. split.
    - intros k a Hka.
      destruct (Hsw k a Hka) as (E1 & E2 & [old Hold] & [arg Harg]).
      replace (sp - Z.of_nat (length (h_args h)) + 0 + 1 + Z.of_nat k)
        with (sp - Z.of_nat (length (h_args h)) + 1 + Z.of_nat k)
        in * by lia.
      assert (Hslot : sp - Z.of_nat (length (h_args h)) + 1 + Z.of_nat k
                      <= sp).
      { apply lookup_lt_Some in Hka. lia. }
      exists old, arg. rewrite <- Hlowg by lia.
      split; [done|]. split; [done|]. split.
      + rewrite HVd, E1; [done|]. intros Hind.
        apply (Hdisj a); [by eapply list_elem_of_lookup_2|done].
      + rewrite HSk, HSd by lia. by rewrite E2.
    - intros k d Hkd. destruct (Hdf k d Hkd) as (E & [old Hold]).
      assert (Hd_in : d ∈ h_defs h) by (by eapply list_elem_of_lookup_2).
      assert (Hd_out : d ∉ h_args h) by (intros ?; by apply (Hdisj d)).
      rewrite (HVs _ Hd_out) in Hold, E.
      exists old. split; [done|]. split; [by apply Hnil|].
      apply lookup_lt_Some in Hkd.
      rewrite HSk by lia. by rewrite E. }
  destruct (FunIntro_inv _ _ _ _ _ _ _ Hh Hin)
    as (Sg & Sd' & Hsaved & _ & Hlow & Hsp1' & Hbcf1 & Hfr1 & _).
  assert (Hh2 : header_at (bytecode (bcf vm2)) ip h) by congruence.
  assert (Hback : back (stackframes vm2)
                  = Some {| funstart := Some ip; spstart := sp1 |}).
  { rewrite Hfr, Hfr1. apply back_push_back. }
  destruct (FunOut_inv _ _ _ _ _ _ _ _ _ Hh2 Hback eq_refl Hout)
    as (Hres & _).
  replace (sp2 - nrv - Z.of_nat (Z.to_nat (h_nkeep h))
           - Z.of_nat (length (h_defs h))) with sp in Hres by lia.
  set (l := pair_slots (h_args h) (sp - Z.of_nat (length (h_args h)) + 1)
            ++ pair_slots (h_defs h) (sp + 1)) in *.
  split; [exact Hres|]. intros i Hi.
  assert (Hfst : l.*1 = h_args h ++ h_defs h).
  { unfold l. by rewrite fmap_app, !pair_slots_fst. }
  assert (Hsnd : l.*2 = seqZ (sp - Z.of_nat (length (h_args h)) + 1)
                   (Z.of_nat (length (h_args h))
                    + Z.of_nat (length (h_defs h)))).
  { unfold l. rewrite fmap_app, !pair_slots_snd, seqZ_app by lia.
    do 2 f_equal. lia. }
  assert (Hi' : i ∈ l.*1) by by rewrite Hfst.
  assert (Heq : zlookup (vars vm3) i = zlookup (vars vm) i).
  { apply (saved_restore l (vars vm, Sg) (vars vm1, Sd')
             (stack vm2) (vars vm2) (vars vm3) Hsaved).
    - rewrite Hsnd. apply NoDup_seqZ.
    - intros s Hs'. rewrite Hsnd in Hs'. apply elem_of_seqZ in Hs'.
      simpl. rewrite Hbody by lia. apply Hlow. lia.
    - exact Hres.
    - exact Hi'. }
  destruct (restore_is_Some _ _ _ _ Hres i) as [v Hv].
  { by apply elem_of_fst_rev. }
  exists v. by rewrite <- Heq.
Qed.

Lemma swap_restore_identity_witness :
  (exists Sg c1 c2,
     (forall j, j <= 1 -> zlookup Sg j = zlookup (stack ex_vm0) j) /\
     swap_cells (h_args ex_header)
       (1 - Z.of_nat (length (h_args ex_header)) + 1) (vars ex_vm0, Sg)
     = Some c1 /\
     save_cells (h_defs ex_header) (1 + 1) c1 = Some c2 /\
     vars ex_vm1 = c2.1 /\
     (forall j, j <= 1 + Z.of_nat (length (h_defs ex_header)) ->
        zlookup (stack ex_vm1) j = zlookup c2.2 j)) /\
  (NoDup (h_args ex_header ++ h_defs ex_header) ->
     (forall (k : nat) a, h_args ex_header !! k = Some a ->
        exists old arg,
          zlookup (vars ex_vm0) a = Some old /\
          zlookup (stack ex_vm0)
            (1 - Z.of_nat (length (h_args ex_header)) + 1 + Z.of_nat k)
          = Some arg /\
          zlookup (vars ex_vm1) a = Some arg /\
          zlookup (stack ex_vm1)
            (1 - Z.of_nat (length (h_args ex_header)) + 1 + Z.of_nat k)
          = Some old) /\
     (forall (k : nat) d, h_defs ex_header !! k = Some d ->
        exists old,
          zlookup (vars ex_vm0) d = Some old /\
          zlookup (vars ex_vm1) d = Some nil_Value /\
          zlookup (stack ex_vm1) (1 + 1 + Z.of_nat k) = Some old)) /\
  restore (rev (pair_slots (h_args ex_header)
                  (1 - Z.of_nat (length (h_args ex_header)) + 1)
                ++ pair_slots (h_defs ex_header) (1 + 1)))
    (stack ex_vm2) (vars ex_vm2) = Some (vars ex_vm3) /\
  forall i, i ∈ h_args ex_header ++ h_defs ex_header ->
    exists v, zlookup (vars ex_vm0) i = Some v /\
              zlookup (vars ex_vm3) i = Some v.
Proof.
  apply (swap_restore_identity ex_cfg ex_header 3 1 ex_vm0 3 ex_vm1
           4 1 ex_vm2 0 ex_vm3).
  - apply ex_header_at.
  - apply returned_final_state. vm_compute. reflexivity.
  - vm_compute. reflexivity.
  - vm_compute. reflexivity.
  - intros j Hj. change (length (h_args ex_header)) with 2%nat in Hj.
    change (length (h_defs ex_header)) with 1%nat in Hj.
    assert (Hc : j = 0 \/ j = 1 \/ j = 2) by lia.
    destruct Hc as [->|[->| ->]]; vm_compute; reflexivity.
  - reflexivity.
  - apply returned_final_state. vm_compute. reflexivity.
Defined.

(** The cells of the concrete call.  Before: globals 10 .. 14, the
    arguments 100 and 101 in slots 0 and 1.  After entry: globals 1 and 2
    hold the arguments, global 3 is nil, slots 0, 1, 2 hold the old
    globals 11, 12, 13.  After the return: the globals are as before. *)
Example ex_call_cells :
  vars ex_vm0 = int_Value <$> [10; 11; 12; 13; 14] /\
  vars ex_vm1 = [int_Value 10; int_Value 100; int_Value 101; nil_Value;
                 int_Value 14] /\
  take 3 (stack ex_vm1) = int_Value <$> [11; 12; 13] /\
  vars ex_vm3 = vars ex_vm0.
Proof. repeat split; vm_compute; reflexivity. Qed.

(** ** AOT translator: the ways [ToCPP] ends *)








Section TranslatorFacts.

Variable FLATBUFFERS_LITTLEENDIAN NDEBUG RTT : bool.
Variable IL_JUMP IL_FUNSTART IL_MAX_OPS : Z.
Variable ParseOpAndGetArity : list Z -> Z -> Z -> Z.
Variable il_declarations : string.
Variable function_bodies : bool -> BytecodeFile -> option string.

(** Parsing an instruction never moves backwards. *)
Hypothesis Parse_advances :
  forall code opc ip, ip <= ParseOpAndGetArity code opc ip.



End TranslatorFacts.





Example ex_corrupt_output :
  ToCPP true true false ex_IL_JUMP ex_IL_FUNSTART ex_IL_MAX_OPS ex_Parse
    "" ex_bodies false ex_corrupt_image ex_buffer ""
  = Ret "Corrupt bytecode: -1 at: 3"
      (c_prelude false "" +:+ fun_declaration 3).
Proof. vm_compute. reflexivity. Qed.

(** The end of the output for the image whose opcodes are in range, in
    plain-C mode: the bodies, the array for the vtable [3; -1; 3], the
    entry point. *)
Example ex_good_output :
  text_of
    (ToCPP true true false ex_IL_JUMP ex_IL_FUNSTART ex_IL_MAX_OPS ex_Parse
       "" ex_bodies false ex_good_image ex_buffer "")
  = c_prelude false "" +:+ fun_declaration 3 +:+ fun_declaration 4 +:+ nl
    +:+ "// bodies" +:+ nl +:+ nl
    +:+ "extern  const fun_base_t vtables[] = {" +:+ nl
    +:+ "    fun_3," +:+ nl +:+ "    0," +:+ nl +:+ "    fun_3," +:+ nl
    +:+ "    0" +:+ nl +:+ "};" +:+ nl
    +:+ "StackPtr compiled_entry_point(VMRef vm, StackPtr sp) {" +:+ nl
    +:+ "    Entry(sizeof(Value));" +:+ nl
    +:+ "    return fun_4(vm, sp);" +:+ nl +:+ "}" +:+ nl +:+ nl.
Proof. vm_compute. reflexivity. Qed.
